(** * marc-mcp: extraction, cache and search, verified against the Go source

    The development embeds the Go packages [internal/marc] (client.go) and
    [internal/cache] (cache.go) as Rocq functions and states the properties
    of the specification over them.

    Conventions.
    - A Go [string] is a sequence of bytes: Rocq's [string] of [ascii].
    - A Go [int] that may be [-1] (a failed [strings.Index]) is a [Z].
    - Library code the packages call (strings, regexp, net/url, x/net/html,
      encoding/json, the SQLite engine) is modelled at the places where it
      is used, from its documented behaviour. *)

From Stdlib Require Import ZArith Lia Ascii.
From stdpp Require Import base option list strings sorting gmap pretty.

Local Open Scope Z_scope.

(** ** Package [strings] *)

Module strings.

Definition len (s : string) : Z := Z.of_nat (String.length s).

Fixpoint HasPrefix (s prefix : string) {struct prefix} : bool :=
  match prefix, s with
  | EmptyString, _ => true
  | String _ _, EmptyString => false
  | String a p', String b s' => if Ascii.eqb a b then HasPrefix s' p' else false
  end.

(** [s[n:]] and [s[:n]] for [0 <= n]; past the end they return what is
    there (the callers below stay in range). *)
Fixpoint drop (n : nat) (s : string) : string :=
  match n, s with
  | O, _ => s
  | S n', String _ s' => drop n' s'
  | S _, EmptyString => EmptyString
  end.

Fixpoint take (n : nat) (s : string) : string :=
  match n, s with
  | O, _ => EmptyString
  | S n', String c s' => String c (take n' s')
  | S _, EmptyString => EmptyString
  end.

Definition slice_from (s : string) (i : Z) : string := drop (Z.to_nat i) s.
Definition slice_to (s : string) (j : Z) : string := take (Z.to_nat j) s.
Definition slice (s : string) (i j : Z) : string :=
  take (Z.to_nat (j - i)) (drop (Z.to_nat i) s).

(** [strings.Index]: byte offset of the first occurrence, [-1] if none. *)
Fixpoint Index (s substr : string) : Z :=
  if HasPrefix s substr then 0
  else match s with
       | EmptyString => -1
       | String _ s' =>
           let r := Index s' substr in
           if r <? 0 then -1 else r + 1
       end.

(** [strings.LastIndex]: byte offset of the last occurrence, [-1] if none. *)
Fixpoint LastIndex (s substr : string) : Z :=
  match s with
  | EmptyString => if HasPrefix s substr then 0 else -1
  | String _ s' =>
      let r := LastIndex s' substr in
      if 0 <=? r then r + 1
      else if HasPrefix s substr then 0 else -1
  end.

Definition Contains (s substr : string) : bool := 0 <=? Index s substr.

Definition HasSuffix (s suffix : string) : bool :=
  (String.length suffix <=? String.length s)%nat
  && String.eqb (drop (String.length s - String.length suffix) s) suffix.

Definition TrimSuffix (s suffix : string) : string :=
  if HasSuffix s suffix
  then take (String.length s - String.length suffix) s
  else s.

(** The six ASCII bytes of [asciiSpace]. *)
Definition isSpace (c : ascii) : bool :=
  match c with
  | "009" | "010" | "011" | "012" | "013" | " " => true
  | _ => false
  end%char.

Definition byte (c : ascii) : N := N_of_ascii c.

(** The other runes of [unicode.IsSpace], as UTF-8: U+0085 and U+00A0 in
    two bytes; U+1680, U+2000 to U+200A, U+2028, U+2029, U+202F, U+205F and
    U+3000 in three. *)
Definition isSpace2 (c0 c1 : ascii) : bool :=
  ((byte c0 =? 194) && ((byte c1 =? 133) || (byte c1 =? 160)))%N.

Definition isSpace3 (c0 c1 c2 : ascii) : bool :=
  ((byte c0 =? 225) && (byte c1 =? 154) && (byte c2 =? 128)
   || (byte c0 =? 226) && (byte c1 =? 128)
      && ((128 <=? byte c2) && (byte c2 <=? 138)
          || (byte c2 =? 168) || (byte c2 =? 169) || (byte c2 =? 175))
   || (byte c0 =? 226) && (byte c1 =? 129) && (byte c2 =? 159)
   || (byte c0 =? 227) && (byte c1 =? 128) && (byte c2 =? 128))%N.

(** Leading white space off. [two] and [three] recognise the multi-byte
    spaces at the head of the string. *)
Fixpoint trimHead (two : ascii → ascii → bool) (three : ascii → ascii → ascii → bool)
    (s : string) : string :=
  match s with
  | EmptyString => EmptyString
  | String c0 s1 =>
      if isSpace c0 then trimHead two three s1
      else match s1 with
           | EmptyString => s
           | String c1 s2 =>
               if two c0 c1 then trimHead two three s2
               else match s2 with
                    | EmptyString => s
                    | String c2 s3 =>
                        if three c0 c1 c2 then trimHead two three s3 else s
                    end
           end
  end.

Definition TrimLeft (s : string) : string := trimHead isSpace2 isSpace3 s.

(** Trailing white space off: the same on the reversed string, where the
    bytes of a multi-byte space come last byte first. *)
Definition TrimRight (s : string) : string :=
  String.rev (trimHead (λ c0 c1, isSpace2 c1 c0) (λ c0 c1 c2, isSpace3 c2 c1 c0)
                       (String.rev s)).

(** [strings.TrimSpace]: the white space of [unicode.IsSpace] off both
    ends. *)
Definition TrimSpace (s : string) : string := TrimRight (TrimLeft s).

(** [strings.Split(s, sep)] for a one-byte separator (the source only
    splits on the newline): always at least one piece. *)
Fixpoint Split (s : string) (sep : ascii) : list string :=
  match s with
  | EmptyString => [EmptyString]
  | String c s' =>
      if Ascii.eqb c sep then EmptyString :: Split s' sep
      else match Split s' sep with
           | [] => [String c EmptyString]
           | l :: ls => String c l :: ls
           end
  end.

Fixpoint Join (elems : list string) (sep : string) : string :=
  match elems with
  | [] => EmptyString
  | [e] => e
  | e :: es => e +:+ sep +:+ Join es sep
  end.

Definition lowerByte (c : ascii) : ascii :=
  let n := N_of_ascii c in
  if ((65 <=? n) && (n <=? 90))%N then ascii_of_N (n + 32) else c.

(** [strings.ToLower] on the ASCII letters. The only use in the source
    compares the result with "subject", "from" and "date"; no non-ASCII
    rune lower-cases to a letter of these words, so the comparison is
    exact on every input. *)
Fixpoint ToLower (s : string) : string :=
  match s with
  | EmptyString => EmptyString
  | String c s' => String (lowerByte c) (ToLower s')
  end.

End strings.

Definition newline : ascii := "010"%char.

(** ** Package [regexp]: the three patterns of client.go

    Every pattern of the source is a sequence of character classes, each
    taken once, one-or-more times or zero-or-more times. [match_here] is the
    leftmost-first (greedy, backtracking) matcher for such sequences; it
    returns the text consumed by each item of the sequence. *)

Module regexp.

Inductive quant := One | Plus | Star.
Record atom := Atom { cls : ascii → bool; rep : quant }.
Definition Regexp := list atom.

Fixpoint greedy (p : ascii → bool) (k : string → option (list string))
    (s : string) : option (list string) :=
  match s with
  | String c s' =>
      if p c then
        match greedy p k s' with
        | Some (piece :: r) => Some (String c piece :: r)
        | _ => cons EmptyString <$> k s
        end
      else cons EmptyString <$> k s
  | EmptyString => cons EmptyString <$> k s
  end.

Definition push (c : ascii) (r : option (list string)) : option (list string) :=
  match r with
  | Some (piece :: r') => Some (String c piece :: r')
  | _ => None
  end.

Fixpoint match_here (re : Regexp) (s : string) : option (list string) :=
  match re with
  | [] => Some []
  | a :: re' =>
      match rep a with
      | One =>
          match s with
          | String c s' =>
              if cls a c then cons (String c EmptyString) <$> match_here re' s'
              else None
          | EmptyString => None
          end
      | Star => greedy (cls a) (match_here re') s
      | Plus =>
          match s with
          | String c s' =>
              if cls a c then push c (greedy (cls a) (match_here re') s')
              else None
          | EmptyString => None
          end
      end
  end.

(** Leftmost match of an unanchored pattern. *)
Fixpoint find (re : Regexp) (s : string) : option (list string) :=
  match match_here re s with
  | Some ps => Some ps
  | None =>
      match s with
      | EmptyString => None
      | String _ s' => find re s'
      end
  end.

Definition text (ps : list string) : string := foldr String.append EmptyString ps.

(** [FindString]: the text of the leftmost match, [""] when there is none. *)
Definition FindString (re : Regexp) (s : string) : string :=
  match find re s with
  | Some ps => text ps
  | None => EmptyString
  end.

Definition lit (c : ascii) : atom := Atom (Ascii.eqb c) One.

Definition isDigit (c : ascii) : bool :=
  let n := N_of_ascii c in ((48 <=? n) && (n <=? 57))%N.

(** Perl class [\s] of RE2: tab, newline, form feed, carriage return, space. *)
Definition isPerlSpace (c : ascii) : bool :=
  match c with
  | "009" | "010" | "012" | "013" | " " => true
  | _ => false
  end%char.

Definition digit : atom := Atom isDigit One.

(** [\d{4}-\d{2}-\d{2}] *)
Definition isoDate : Regexp :=
  [digit; digit; digit; digit; lit "-"; digit; digit; lit "-"; digit; digit].

End regexp.

(** ** Package [marc]: records and the listing extractor *)

Record MailingList := { Name : string; Category : string }.

Record Message := {
  ID : string;
  Subject : string;
  Author : string;
  Date : string;
  List : string
}.

(** [messageLinkRegex = `\?l=([^&]+)&m=(\d+)`] *)
Definition messageLinkRegex : regexp.Regexp :=
  [ regexp.lit "?"; regexp.lit "l"; regexp.lit "=";
    regexp.Atom (λ c, negb (Ascii.eqb c "&")) regexp.Plus;
    regexp.lit "&"; regexp.lit "m"; regexp.lit "=";
    regexp.Atom regexp.isDigit regexp.Plus ].

(** [dateRegex = `(\d{4}-\d{2}-\d{2})`] *)
Definition dateRegex : regexp.Regexp := regexp.isoDate.

(** [messageLineRegex = `^\s*\d+\.\s+(\d{4}-\d{2}-\d{2})\s+`]; the pattern is
    anchored, see [messageLineRegex_MatchString]. *)
Definition messageLineRegex : regexp.Regexp :=
  [ regexp.Atom regexp.isPerlSpace regexp.Star;
    regexp.Atom regexp.isDigit regexp.Plus;
    regexp.lit "." ;
    regexp.Atom regexp.isPerlSpace regexp.Plus ]
  ++ regexp.isoDate ++
  [ regexp.Atom regexp.isPerlSpace regexp.Plus ].

(** [messageLineRegex.MatchString(line)]: because of [^] only a match at
    offset 0 counts. *)
Definition messageLineRegex_MatchString (line : string) : bool :=
  bool_decide (is_Some (regexp.match_here messageLineRegex line)).

(** [messageLinkRegex.FindStringSubmatch(s)]: [nil] without a match,
    otherwise the whole match and the two groups. *)
Definition messageLinkRegex_FindStringSubmatch (s : string) : list string :=
  match regexp.find messageLinkRegex s with
  | Some ps => [regexp.text ps; ps !!! 3%nat; ps !!! 7%nat]
  | None => []
  end.

(** One iteration of the loop of [parseMessageListFromRaw]: [None] is a
    [continue], [Some msg] is the message appended. *)
Definition parseLine (line listName : string) : option Message :=
  if negb (messageLineRegex_MatchString line) then None else
  let dateMatch := regexp.FindString dateRegex line in
  if String.eqb dateMatch "" then None else
  let msgMatch := messageLinkRegex_FindStringSubmatch line in
  if negb (length msgMatch =? 3)%nat then None else
  let msgID := msgMatch !!! 2%nat in
  let linkStart := strings.Index line ("?l=" +:+ listName +:+ "&m=" +:+ msgID) in
  if linkStart =? -1 then None else
  let subjectStart := strings.Index (strings.slice_from line linkStart) ">" in
  if subjectStart =? -1 then None else
  let subjectStart := subjectStart + linkStart + 1 in
  let subjectEnd := strings.Index (strings.slice_from line subjectStart) "</a>" in
  if subjectEnd =? -1 then None else
  let subject :=
    strings.TrimSpace (strings.slice line subjectStart (subjectStart + subjectEnd)) in
  let lastAnchorEnd := strings.LastIndex line "</a>" in
  let author :=
    if negb (lastAnchorEnd =? -1) && (lastAnchorEnd + 4 <? strings.len line)
    then strings.TrimSpace (strings.slice_from line (lastAnchorEnd + 4))
    else "" in
  Some {| ID := msgID; Subject := subject; Author := author;
          Date := dateMatch; List := listName |}.

Definition parseMessageListFromRaw (raw listName : string) : list Message :=
  let lines := strings.Split raw newline in
  foldl (λ messages line,
           match parseLine line listName with
           | Some msg => messages ++ [msg]
           | None => messages
           end) [] lines.

(** *** The listing extractor *)


(** The double quote, for writing markup. *)
Definition dq : string := String "034"%char "".

Definition anchor (href body : string) : string :=
  "<a href=" +:+ dq +:+ href +:+ dq +:+ ">" +:+ body +:+ "</a>".

(** The row of the archive's listing used as the running example. *)
Definition sampleRow (tail : string) : string :=
  "   1. 2026-02-24  [1] " +:+ anchor "?l=git&m=42" "Fix bug" +:+ " "
    +:+ anchor "?l=git&w=2" "git" +:+ tail.

(** Author as the specification words it: the text after the last
    close-tag, the labels "Next" and "Last" stripped from its end, trimmed. *)
Definition textAfterLastCloseTag (line : string) : string :=
  let i := strings.LastIndex line "</a>" in
  if i =? -1 then "" else strings.slice_from line (i + 4).

Definition author_as_specified (line : string) : string :=
  strings.TrimSpace
    (strings.TrimSuffix (strings.TrimSuffix (textAfterLastCloseTag line) "Next") "Last").


(** ** Package [html] (golang.org/x/net/html): the parsed document

    The tree has the fields the source reads. The sibling links of the Go
    node ([FirstChild], [NextSibling]) are the list of children; [Parent]
    is passed down by the walks that need it. *)

Module html.

Inductive NodeType :=
  ErrorNode | TextNode | DocumentNode | ElementNode | CommentNode | DoctypeNode.

Global Instance NodeType_eq_dec : EqDecision NodeType.
Proof. solve_decision. Defined.

Record Attribute := { Key : string; Val : string }.

#[warnings="-register-all"]
Inductive Node :=
  MkNode (type : NodeType) (data : string) (attr : list Attribute)
         (children : list Node).

Definition Type_ (n : Node) : NodeType := let 'MkNode t _ _ _ := n in t.
Definition Data (n : Node) : string := let 'MkNode _ d _ _ := n in d.
Definition Attr (n : Node) : list Attribute := let 'MkNode _ _ a _ := n in a.
Definition Children (n : Node) : list Node := let 'MkNode _ _ _ c := n in c.

Definition Element (tag : string) (attr : list Attribute) (children : list Node) : Node :=
  MkNode ElementNode tag attr children.
Definition Text (data : string) : Node := MkNode TextNode data [] [].
Definition Document (children : list Node) : Node := MkNode DocumentNode "" [] children.

(** [n.Type == html.ElementNode && n.Data == tag] *)
Definition isElement (n : Node) (tag : string) : bool :=
  bool_decide (Type_ n = ElementNode) && String.eqb (Data n) tag.

Definition isText (n : Node) : bool := bool_decide (Type_ n = TextNode).

(** The nodes of a tree in document order (a node before its children,
    children left to right). *)
Fixpoint flatten (n : Node) : list Node :=
  match n with
  | MkNode _ _ _ children => n :: concat (map flatten children)
  end.

Section node_induction.
Variable P : Node → Prop.
Hypothesis step : ∀ t d a children, Forall P children → P (MkNode t d a children).

Fixpoint Node_forall_ind (n : Node) : P n :=
  match n with
  | MkNode t d a children =>
      step t d a children
        ((fix go (l : list Node) : Forall P l :=
            match l with
            | [] => @List.Forall_nil _ P
            | c :: l' => @List.Forall_cons _ P c l' (Node_forall_ind c) (go l')
            end) children)
  end.
End node_induction.

End html.

(** ** Package [net/url]

    [url.Parse(href)] followed by [Query().Get(key)], on a reference without
    scheme, authority or path (the references the catalog walk passes on
    begin with [?]), and [url.QueryEscape]. *)

Module url.

Definition isHex (c : ascii) : bool :=
  let n := N_of_ascii c in
  ((48 <=? n) && (n <=? 57) || (65 <=? n) && (n <=? 70) || (97 <=? n) && (n <=? 102))%N.

Definition unhex (c : ascii) : N :=
  let n := N_of_ascii c in
  if ((48 <=? n) && (n <=? 57))%N then n - 48
  else if ((97 <=? n) && (n <=? 102))%N then n - 97 + 10
  else if ((65 <=? n) && (n <=? 70))%N then n - 65 + 10
  else 0.

(** [unescape]: percent-decoding; in a query component [+] is a space.
    [None] is the [EscapeError]. *)
Fixpoint unescape (plusIsSpace : bool) (s : string) : option string :=
  match s with
  | EmptyString => Some EmptyString
  | String "%" (String a (String b s' as t)) =>
      if isHex a && isHex b
      then String (ascii_of_N (unhex a * 16 + unhex b)) <$> unescape_tail plusIsSpace t
      else None
  | String "%" _ => None
  | String c s' =>
      String (if plusIsSpace && Ascii.eqb c "+" then " "%char else c)
        <$> unescape plusIsSpace s'
  end
with unescape_tail (plusIsSpace : bool) (t : string) : option string :=
  match t with
  | EmptyString => Some EmptyString
  | String _ s' => unescape plusIsSpace s'
  end.

Definition QueryUnescape : string → option string := unescape true.

(** [strings.Cut(s, sep)] for a one-byte separator. *)
Fixpoint Cut (s : string) (sep : ascii) : string * string * bool :=
  match s with
  | EmptyString => (EmptyString, EmptyString, false)
  | String c s' =>
      if Ascii.eqb c sep then (EmptyString, s', true)
      else let '(b, a, found) := Cut s' sep in (String c b, a, found)
  end.

Definition isCTL (c : ascii) : bool :=
  let n := N_of_ascii c in ((n <? 32) || (n =? 127))%N.

Fixpoint stringContainsCTLByte (s : string) : bool :=
  match s with
  | EmptyString => false
  | String c s' => isCTL c || stringContainsCTLByte s'
  end.

(** [Parse]: the raw query of the reference, [None] on error. *)
Definition Parse (rawURL : string) : option string :=
  let '(u, frag, _) := Cut rawURL "#" in
  if stringContainsCTLByte u then None
  else match unescape false frag with
       | None => None
       | Some _ => Some (Cut u "?").1.2
       end.

(** [ParseQuery], errors dropped as [Query()] does: the pairs in order. *)
Definition parsePair (pair : string) : option (string * string) :=
  if strings.Contains pair ";" then None
  else if String.eqb pair "" then None
  else let '(k, v, _) := Cut pair "=" in
       k' ← QueryUnescape k; v' ← QueryUnescape v; Some (k', v').

Definition Query (rawQuery : string) : list (string * string) :=
  omap parsePair (strings.Split rawQuery "&").

(** [Values.Get]: the first value of the key, [""] when absent. *)
Definition Get (values : list (string * string)) (key : string) : string :=
  match list_find (λ kv, kv.1 = key) values with
  | Some (_, (_, v)) => v
  | None => ""
  end.

Definition unreserved (c : ascii) : bool :=
  let n := N_of_ascii c in
  ((48 <=? n) && (n <=? 57) || (65 <=? n) && (n <=? 90) || (97 <=? n) && (n <=? 122))%N
  || Ascii.eqb c "-" || Ascii.eqb c "_" || Ascii.eqb c "." || Ascii.eqb c "~".

Definition upperHex (n : N) : ascii :=
  (if n <? 10 then ascii_of_N (48 + n) else ascii_of_N (55 + n))%N.

(** [url.QueryEscape] *)
Fixpoint QueryEscape (s : string) : string :=
  match s with
  | EmptyString => EmptyString
  | String c s' =>
      if unreserved c then String c (QueryEscape s')
      else if Ascii.eqb c " " then String "+" (QueryEscape s')
      else String "%" (String (upperHex (N_of_ascii c / 16))
                         (String (upperHex (N_of_ascii c mod 16)) (QueryEscape s')))
  end.

End url.

(** ** Package [marc]: the catalog extractor *)

Import html.

Definition getAttr (n : Node) (key : string) : string :=
  match list_find (λ a, Key a = key) (Attr n) with
  | Some (_, a) => Val a
  | None => ""
  end.

Definition extractListName (href : string) : string :=
  match url.Parse href with
  | None => ""
  | Some rawQuery => url.Get (url.Query rawQuery) "l"
  end.

(** [hasGroupImg] of [extractCategory]: a child [<img>] whose [alt]
    contains "Group". *)
Definition hasGroupImg (b : Node) : bool :=
  existsb (λ c, isElement c "img" && strings.Contains (getAttr c "alt") "Group")
          (Children b).

(** The text nodes among the children, concatenated. *)
Definition childText (b : Node) : string :=
  foldl (λ text c, if isText c then text +:+ Data c else text) "" (Children b).

Definition extractCategory (dt : Node) : string :=
  match list_find (λ child, isElement child "b" && hasGroupImg child = true) (Children dt) with
  | Some (_, b) => strings.TrimSpace (childText b)
  | None => ""
  end.

(** The state of the walk of [ListMailingLists]: the two captured variables
    [lists] and [currentCategory]. *)
Record catalogState := { lists : list MailingList; currentCategory : string }.

Definition visitCategory (n : Node) (st : catalogState) : catalogState :=
  if isElement n "dt" then
    let cat := extractCategory n in
    if negb (String.eqb cat "") then {| lists := lists st; currentCategory := cat |}
    else st
  else st.

Definition visitLink (n : Node) (st : catalogState) : catalogState :=
  if isElement n "a" then
    let href := getAttr n "href" in
    if strings.HasPrefix href "?l=" then
      let listName := extractListName href in
      if negb (String.eqb listName "") then
        {| lists := lists st ++ [ {| Name := listName; Category := currentCategory st |} ];
           currentCategory := currentCategory st |}
      else st
    else st
  else st.

Fixpoint catalogWalk (n : Node) (st : catalogState) : catalogState :=
  let st := visitLink n (visitCategory n st) in
  match n with
  | MkNode _ _ _ children => foldl (λ st child, catalogWalk child st) st children
  end.

(** The extraction part of [ListMailingLists]: [walk(doc)] from the empty
    state. *)
Definition extractMailingLists (doc : Node) : list MailingList :=
  lists (catalogWalk doc {| lists := []; currentCategory := "" |}).

(** *** The catalog as the specification describes it *)

(** A category header: a [<dt>] for which [extractCategory] finds a text. *)
Definition categoryHeader (n : Node) : option string :=
  if isElement n "dt" then
    let cat := extractCategory n in
    if String.eqb cat "" then None else Some cat
  else None.

(** A list-selection link: an [<a>] whose target begins with [?l=] and
    names a list. *)
Definition listLink (n : Node) : option string :=
  if isElement n "a" then
    let href := getAttr n "href" in
    if strings.HasPrefix href "?l=" then
      let listName := extractListName href in
      if String.eqb listName "" then None else Some listName
    else None
  else None.

(** The nearest category header among the nodes [before], [""] if none. *)
Definition nearestCategory (before : list Node) : string :=
  default "" (last (omap categoryHeader before)).

(** One record per list-selection link of the node sequence; [seen] are
    the nodes in front of the sequence. *)
Fixpoint catalogOf (seen nodes : list Node) : list MailingList :=
  match nodes with
  | [] => []
  | n :: rest =>
      match listLink n with
      | Some listName =>
          {| Name := listName; Category := nearestCategory seen |}
            :: catalogOf (seen ++ [n]) rest
      | None => catalogOf (seen ++ [n]) rest
      end
  end.

(** The same with a header that has no text counting as a header: the
    reading of the specification, where every bold group-marker header sets
    the current category to its trimmed text. *)
Definition groupHeader (n : Node) : option string :=
  if isElement n "dt" then
    match list_find (λ child, isElement child "b" && hasGroupImg child = true) (Children n) with
    | Some (_, b) => Some (strings.TrimSpace (childText b))
    | None => None
    end
  else None.

Fixpoint catalog_as_specified (seen nodes : list Node) : list MailingList :=
  match nodes with
  | [] => []
  | n :: rest =>
      match listLink n with
      | Some listName =>
          {| Name := listName;
             Category := default "" (last (omap groupHeader seen)) |}
            :: catalog_as_specified (seen ++ [n]) rest
      | None => catalog_as_specified (seen ++ [n]) rest
      end
  end.

(** One node of the walk, on the state. *)
Definition catalogStep (st : catalogState) (n : Node) : catalogState :=
  visitLink n (visitCategory n st).


(** *** Sample documents *)

Definition groupImg : Node :=
  Element "img" [ {| Key := "alt"; Val := "Group: " |} ] [].

Definition listAnchor (name : string) : Node :=
  Element "a" [ {| Key := "href"; Val := "?l=" +:+ name |} ] [Text name].

(** A header with a text, a list, a header without text, a list. *)
Definition catalogWithEmptyHeader : Node :=
  Document
    [ Element "dt" [] [ Element "b" [] [groupImg; Text " Development"] ];
      listAnchor "git";
      Element "dt" [] [ Element "b" [] [groupImg] ];
      listAnchor "linux-kernel" ].


(** ** Package [marc]: the message extractor *)

(** A Go call that returns [(value, error)]. *)
Inductive Result (A : Type) :=
| Ok (a : A)
| Err (e : string).
Global Arguments Ok {A} a.
Global Arguments Err {A} e.

(** [Headers] is a Go map, which can be [nil]: [None]. *)
Record MessageContent := {
  Msg :> Message;
  Body : string;
  Headers : option (gmap string string)
}.

(** The captured variables of the walk of [parseMessage]. *)
Record preState := { inPre : bool; preContent : string }.

Fixpoint preWalk (n : Node) (st : preState) : preState :=
  let st :=
    if isElement n "pre" then {| inPre := true; preContent := preContent st |}
    else st in
  let st :=
    if inPre st && isText n
    then {| inPre := inPre st; preContent := preContent st +:+ Data n |}
    else st in
  match n with
  | MkNode _ _ _ children =>
      let st' := foldl (λ st child, preWalk child st) st children in
      if isElement n "pre"
      then {| inPre := false; preContent := preContent st' |}
      else st'
  end.

(** The variables of the header/body loop of [parseMessage]. *)
Record parseState := {
  inHeaders : bool;
  bodyLines : list string;
  headers : gmap string string;
  subject : string;
  author : string;
  date : string
}.

Definition parseMessageLine (st : parseState) (line : string) : parseState :=
  if inHeaders st then
    if String.eqb line "" then
      {| inHeaders := false; bodyLines := bodyLines st; headers := headers st;
         subject := subject st; author := author st; date := date st |}
    else
      let idx := strings.Index line ":" in
      if 0 <? idx then
        let key := strings.TrimSpace (strings.slice_to line idx) in
        let value := strings.TrimSpace (strings.slice_from line (idx + 1)) in
        let lower := strings.ToLower key in
        {| inHeaders := true; bodyLines := bodyLines st;
           headers := <[key := value]> (headers st);
           subject := if String.eqb lower "subject" then value else subject st;
           author := if String.eqb lower "from" then value else author st;
           date := if String.eqb lower "date" then value else date st |}
      else st
  else
    {| inHeaders := false; bodyLines := bodyLines st ++ [line]; headers := headers st;
       subject := subject st; author := author st; date := date st |}.

(** The text of the [<pre>] blocks of a document. *)
Definition preText (doc : Node) : string :=
  preContent (preWalk doc {| inPre := false; preContent := "" |}).

(** [parseMessage] after [html.Parse]: it has no failing path. *)
Definition parseMessageFrom (doc : Node) (listName messageID : string) : MessageContent :=
  let lines := strings.Split (preText doc) newline in
  let st := foldl parseMessageLine
              {| inHeaders := true; bodyLines := []; headers := ∅;
                 subject := ""; author := ""; date := "" |} lines in
  {| Msg := {| ID := messageID; Subject := subject st; Author := author st;
               Date := date st; List := listName |};
     Body := strings.TrimSpace (strings.Join (bodyLines st) (String newline ""));
     Headers := Some (headers st) |}.

Section parseMessage.

(** [html.Parse] on the text of a page (package golang.org/x/net/html). *)
Variable html_Parse : string → Result Node.

Definition parseMessage (raw listName messageID : string) : Result MessageContent :=
  match html_Parse raw with
  | Err e => Err e
  | Ok doc => Ok (parseMessageFrom doc listName messageID)
  end.

End parseMessage.



(** A document of the expected shape. *)
Definition messagePage : Node :=
  Document
    [ Element "html" []
        [ Element "head" [] [];
          Element "body" []
            [ Element "pre" []
                [ Text ("From: Alice" +:+ String newline ("Subject: Fix bug"
                   +:+ String newline ("X-Mailer: mutt" +:+ String newline
                   (String newline ("The body." +:+ String newline ""))))) ] ] ] ].


(** ** Package [encoding/json], for the one Go type the cache stores with it

    [cache.go] keeps the [Headers] of a message, a [map[string]string], as
    JSON text. [Marshal] and [Unmarshal] are modelled for that type, from
    the library: keys in sorted order, the string escapes of the encoder
    (HTML-safe, the default of [Marshal]; the short forms for backspace
    and form feed are those of Go 1.22, before it they were written
    [\u0008] and [\u000c], which decode to the same bytes), invalid UTF-8
    coerced to U+FFFD on both sides, [null] for the nil map. *)

Module json.

Definition code (c : ascii) : N := N_of_ascii c.
Definition chr (n : N) : ascii := ascii_of_N n.

Definition between (lo hi : N) (c : ascii) : bool :=
  ((lo <=? code c) && (code c <=? hi))%N.

(** *** UTF-8, as package [unicode/utf8] accepts it *)

Definition cont : ascii → bool := between 128 191.

Definition ok2 (c0 c1 : ascii) : bool := between 194 223 c0 && cont c1.

Definition second3 (c0 : ascii) : ascii → bool :=
  if (code c0 =? 224)%N then between 160 191
  else if (code c0 =? 237)%N then between 128 159
  else between 128 191.

Definition ok3 (c0 c1 c2 : ascii) : bool :=
  between 224 239 c0 && second3 c0 c1 && cont c2.

Definition second4 (c0 : ascii) : ascii → bool :=
  if (code c0 =? 240)%N then between 144 191
  else if (code c0 =? 244)%N then between 128 143
  else between 128 191.

Definition ok4 (c0 c1 c2 c3 : ascii) : bool :=
  between 240 244 c0 && second4 c0 c1 && cont c2 && cont c3.

(** [utf8.ValidString] *)
Fixpoint ValidString (s : string) : bool :=
  match s with
  | EmptyString => true
  | String c0 s1 =>
      if (code c0 <? 128)%N then ValidString s1
      else match s1 with
           | EmptyString => false
           | String c1 s2 =>
               if ok2 c0 c1 then ValidString s2
               else match s2 with
                    | EmptyString => false
                    | String c2 s3 =>
                        if ok3 c0 c1 c2 then ValidString s3
                        else match s3 with
                             | EmptyString => false
                             | String c3 s4 =>
                                 if ok4 c0 c1 c2 c3 then ValidString s4 else false
                             end
                    end
           end
  end.

Definition str1 (a : N) : string := String (chr a) "".
Definition str2 (a b : N) : string := String (chr a) (str1 b).
Definition str3 (a b c : N) : string := String (chr a) (str2 b c).
Definition str4 (a b c d : N) : string := String (chr a) (str3 b c d).

(** U+FFFD, the replacement character. *)
Definition replacement : string := str3 239 191 189.

(** [utf8.EncodeRune] (surrogates and values out of range give U+FFFD). *)
Definition EncodeRune (r : N) : string :=
  (if r <? 128 then str1 r
   else if r <? 2048 then str2 (192 + r / 64) (128 + r mod 64)
   else if (55296 <=? r) && (r <? 57344) then replacement
   else if r <? 65536 then
     str3 (224 + r / 4096) (128 + (r / 64) mod 64) (128 + r mod 64)
   else if r <? 1114112 then
     str4 (240 + r / 262144) (128 + (r / 4096) mod 64)
          (128 + (r / 64) mod 64) (128 + r mod 64)
   else replacement)%N.

(** *** The encoder *)

Definition quoteChar : ascii := "034"%char.
Definition backslash : ascii := "092"%char.

Definition hexDigit (n : N) : ascii :=
  (if n <? 10 then chr (48 + n) else chr (87 + n))%N.

(** [htmlSafeSet]: the ASCII bytes written as they are. *)
Definition htmlSafe (c : ascii) : bool :=
  (32 <=? code c)%N && (code c <? 128)%N
  && negb (Ascii.eqb c quoteChar) && negb (Ascii.eqb c backslash)
  && negb (Ascii.eqb c "<") && negb (Ascii.eqb c ">") && negb (Ascii.eqb c "&").

Definition escapeByte (c : ascii) : string :=
  if htmlSafe c then String c ""
  else if Ascii.eqb c backslash || Ascii.eqb c quoteChar then String backslash (String c "")
  else if (code c =? 8)%N then String backslash "b"
  else if (code c =? 12)%N then String backslash "f"
  else if (code c =? 10)%N then String backslash "n"
  else if (code c =? 13)%N then String backslash "r"
  else if (code c =? 9)%N then String backslash "t"
  else String backslash
         ("u00" +:+ String (hexDigit (code c / 16)) (String (hexDigit (code c mod 16)) "")).

(** U+2028 and U+2029 are E2 80 A8 and E2 80 A9. *)
Definition isLineSep (c0 c1 c2 : ascii) : bool :=
  (code c0 =? 226)%N && (code c1 =? 128)%N && ((code c2 =? 168)%N || (code c2 =? 169)%N).

Definition badByte : string := String backslash "ufffd".

(** The loop of [appendString], between the quotes. *)
Fixpoint appendString (s : string) : string :=
  match s with
  | EmptyString => EmptyString
  | String c0 s1 =>
      if (code c0 <? 128)%N then escapeByte c0 +:+ appendString s1
      else match s1 with
           | EmptyString => badByte
           | String c1 s2 =>
               if ok2 c0 c1 then String c0 (String c1 (appendString s2))
               else match s2 with
                    | EmptyString => badByte +:+ appendString s1
                    | String c2 s3 =>
                        if ok3 c0 c1 c2 then
                          (if isLineSep c0 c1 c2
                           then String backslash ("u202" +:+ String (hexDigit (code c2 mod 16)) "")
                           else String c0 (String c1 (String c2 "")))
                          +:+ appendString s3
                        else match s3 with
                             | EmptyString => badByte +:+ appendString s1
                             | String c3 s4 =>
                                 if ok4 c0 c1 c2 c3
                                 then String c0 (String c1 (String c2 (String c3 (appendString s4))))
                                 else badByte +:+ appendString s1
                             end
                    end
           end
  end.

Definition quote (s : string) : string :=
  String quoteChar (appendString s +:+ String quoteChar "").

Definition keyLe (kv1 kv2 : string * string) : Prop := String.le kv1.1 kv2.1.

Global Instance keyLe_dec : RelDecision keyLe.
Proof. intros kv1 kv2. unfold keyLe. apply _. Defined.

Definition member (kv : string * string) : string :=
  quote kv.1 +:+ ":" +:+ quote kv.2.

(** [json.Marshal(headers)]; it cannot fail on this type. *)
Definition Marshal (headers : option (gmap string string)) : string :=
  match headers with
  | None => "null"
  | Some m =>
      "{" +:+ strings.Join (member <$> merge_sort keyLe (map_to_list m)) "," +:+ "}"
  end.

(** *** The decoder

    [Unmarshal] into a [map[string]string] succeeds on [null] and on an
    object whose values are strings or [null]; every other text is a syntax
    error or a type error. [scan] reads such a text in one pass. *)

Definition isSpace (c : ascii) : bool :=
  (code c =? 32)%N || (code c =? 9)%N || (code c =? 13)%N || (code c =? 10)%N.

Definition u4 (h1 h2 h3 h4 : ascii) : option N :=
  if url.isHex h1 && url.isHex h2 && url.isHex h3 && url.isHex h4
  then Some (((url.unhex h1 * 16 + url.unhex h2) * 16 + url.unhex h3) * 16 + url.unhex h4)%N
  else None.

Definition isSurrogate (r : N) : bool := ((55296 <=? r) && (r <? 57344))%N.
Definition isHigh (r : N) : bool := ((55296 <=? r) && (r <? 56320))%N.
Definition isLow (r : N) : bool := ((56320 <=? r) && (r <? 57344))%N.

(** [utf16.DecodeRune] on a valid pair. *)
Definition surrogatePair (r1 r2 : N) : N :=
  ((r1 - 55296) * 1024 + (r2 - 56320) + 65536)%N.

(** The one-letter escapes of a JSON string. *)
Definition simpleEscape (e : ascii) : option ascii :=
  if Ascii.eqb e quoteChar || Ascii.eqb e backslash || Ascii.eqb e "/" then Some e
  else if Ascii.eqb e "b" then Some (chr 8)
  else if Ascii.eqb e "f" then Some (chr 12)
  else if Ascii.eqb e "n" then Some (chr 10)
  else if Ascii.eqb e "r" then Some (chr 13)
  else if Ascii.eqb e "t" then Some (chr 9)
  else None.

Definition members := list (string * string).

Inductive place := InKey | InValue (key : string).

Inductive state :=
| Value                                        (* before the value *)
| Null1 | Null2 | Null3                        (* inside the literal null *)
| End (r : option members)                     (* after the value *)
| ObjOpen                                      (* after the opening brace *)
| Str (p : place) (ms : members) (acc : string) (* inside a string *)
| Colon (ms : members) (key : string)          (* after a key *)
| Elem (ms : members) (key : string)           (* after the colon *)
| ElemNull1 (ms : members) (key : string)
| ElemNull2 (ms : members) (key : string)
| ElemNull3 (ms : members) (key : string)
| Next (ms : members)                          (* after a value of the object *)
| Key (ms : members).                          (* after a comma *)

Definition endString (p : place) (ms : members) (acc : string) : state :=
  match p with
  | InKey => Colon ms acc
  | InValue key => Next (ms ++ [(key, acc)])
  end.

Fixpoint scan (st : state) (s : string) {struct s} : option (option members) :=
  match s with
  | EmptyString => match st with End r => Some r | _ => None end
  | String c s1 =>
      match st with
      | Value =>
          if isSpace c then scan Value s1
          else if Ascii.eqb c "{" then scan ObjOpen s1
          else if Ascii.eqb c "n" then scan Null1 s1
          else None
      | Null1 => if Ascii.eqb c "u" then scan Null2 s1 else None
      | Null2 => if Ascii.eqb c "l" then scan Null3 s1 else None
      | Null3 => if Ascii.eqb c "l" then scan (End None) s1 else None
      | End r => if isSpace c then scan (End r) s1 else None
      | ObjOpen =>
          if isSpace c then scan ObjOpen s1
          else if Ascii.eqb c "}" then scan (End (Some [])) s1
          else if Ascii.eqb c quoteChar then scan (Str InKey [] "") s1
          else None
      | Key ms =>
          if isSpace c then scan (Key ms) s1
          else if Ascii.eqb c quoteChar then scan (Str InKey ms "") s1
          else None
      | Colon ms key =>
          if isSpace c then scan (Colon ms key) s1
          else if Ascii.eqb c ":" then scan (Elem ms key) s1
          else None
      | Elem ms key =>
          if isSpace c then scan (Elem ms key) s1
          else if Ascii.eqb c quoteChar then scan (Str (InValue key) ms "") s1
          else if Ascii.eqb c "n" then scan (ElemNull1 ms key) s1
          else None
      | ElemNull1 ms key => if Ascii.eqb c "u" then scan (ElemNull2 ms key) s1 else None
      | ElemNull2 ms key => if Ascii.eqb c "l" then scan (ElemNull3 ms key) s1 else None
      | ElemNull3 ms key =>
          if Ascii.eqb c "l" then scan (Next (ms ++ [(key, "")])) s1 else None
      | Next ms =>
          if isSpace c then scan (Next ms) s1
          else if Ascii.eqb c "," then scan (Key ms) s1
          else if Ascii.eqb c "}" then scan (End (Some ms)) s1
          else None
      | Str p ms acc =>
          if Ascii.eqb c quoteChar then scan (endString p ms acc) s1
          else if Ascii.eqb c backslash then
            match s1 with
            | EmptyString => None
            | String e s2 =>
                match simpleEscape e with
                | Some d => scan (Str p ms (acc +:+ String d "")) s2
                | None =>
                    if Ascii.eqb e "u" then
                      match s2 with
                      | String h1 (String h2 (String h3 (String h4 s6))) =>
                          match u4 h1 h2 h3 h4 with
                          | None => None
                          | Some rr =>
                              if isSurrogate rr then
                                match s6 with
                                | String b1 (String b2 (String g1 (String g2
                                    (String g3 (String g4 s12))))) =>
                                    match u4 g1 g2 g3 g4 with
                                    | Some rr1 =>
                                        if Ascii.eqb b1 backslash && Ascii.eqb b2 "u"
                                           && isHigh rr && isLow rr1
                                        then scan (Str p ms (acc +:+ EncodeRune (surrogatePair rr rr1))) s12
                                        else scan (Str p ms (acc +:+ replacement)) s6
                                    | None => scan (Str p ms (acc +:+ replacement)) s6
                                    end
                                | _ => scan (Str p ms (acc +:+ replacement)) s6
                                end
                              else scan (Str p ms (acc +:+ EncodeRune rr)) s6
                          end
                      | _ => None
                      end
                    else None
                end
            end
          else if (code c <? 32)%N then None
          else if (code c <? 128)%N then scan (Str p ms (acc +:+ String c "")) s1
          else
            match s1 with
            | EmptyString => None
            | String c1 s2 =>
                if ok2 c c1 then scan (Str p ms (acc +:+ String c (String c1 ""))) s2
                else match s2 with
                     | EmptyString => scan (Str p ms (acc +:+ replacement)) s1
                     | String c2 s3 =>
                         if ok3 c c1 c2
                         then scan (Str p ms (acc +:+ String c (String c1 (String c2 "")))) s3
                         else match s3 with
                              | EmptyString => scan (Str p ms (acc +:+ replacement)) s1
                              | String c3 s4 =>
                                  if ok4 c c1 c2 c3
                                  then scan (Str p ms (acc +:+ String c (String c1 (String c2 (String c3 ""))))) s4
                                  else scan (Str p ms (acc +:+ replacement)) s1
                              end
                     end
            end
      end
  end.

(** The map of the members of an object; a later member replaces an
    earlier one with the same key. *)
Definition toMap (ms : members) : gmap string string :=
  foldl (λ m kv, <[kv.1 := kv.2]> m) ∅ ms.

(** [json.Unmarshal(data, &headers)] with [headers] nil before the call:
    [None] is an error, [Some None] leaves the nil map. *)
Definition Unmarshal (data : string) : option (option (gmap string string)) :=
  match scan Value data with
  | None => None
  | Some None => Some None
  | Some (Some ms) => Some (Some (toMap ms))
  end.

(** *** What the encoder and the decoder make of a string *)

(** Every byte that is not part of a valid UTF-8 sequence becomes U+FFFD. *)
Fixpoint coerce (s : string) : string :=
  match s with
  | EmptyString => EmptyString
  | String c0 s1 =>
      if (code c0 <? 128)%N then String c0 (coerce s1)
      else match s1 with
           | EmptyString => replacement
           | String c1 s2 =>
               if ok2 c0 c1 then String c0 (String c1 (coerce s2))
               else match s2 with
                    | EmptyString => replacement +:+ coerce s1
                    | String c2 s3 =>
                        if ok3 c0 c1 c2 then String c0 (String c1 (String c2 (coerce s3)))
                        else match s3 with
                             | EmptyString => replacement +:+ coerce s1
                             | String c3 s4 =>
                                 if ok4 c0 c1 c2 c3
                                 then String c0 (String c1 (String c2 (String c3 (coerce s4))))
                                 else replacement +:+ coerce s1
                             end
                    end
           end
  end.

Definition coerceMember (kv : string * string) : string * string :=
  (coerce kv.1, coerce kv.2).

Definition coerceHeaders (headers : option (gmap string string))
    : option (gmap string string) :=
  match headers with
  | None => None
  | Some m => Some (toMap (coerceMember <$> merge_sort keyLe (map_to_list m)))
  end.

(** The keys and the values of the map are valid UTF-8. *)
Definition validHeaders (headers : option (gmap string string)) : Prop :=
  match headers with
  | None => True
  | Some m => map_Forall (λ k v, ValidString k = true ∧ ValidString v = true) m
  end.

End json.

(** ** Package [cache]: the SQLite store

    The database is the content of its four tables. A statement of the
    source is one transition of that state, its triggers included: SQLite
    runs a statement and the triggers it fires as one atomic unit. The
    engine does not fail in the model (no I/O error, no corrupt file).

    Package [cache] declares [MailingList], [Message] and [MessageContent]
    with the fields of the records of package [marc]; the records above
    serve for both, and the copies the client makes between them are the
    identity.

    [time.Now()] is an argument of every operation that reads the clock: a
    number of nanoseconds since the Unix epoch; a [time.Duration] is a
    number of nanoseconds. *)

Definition second : Z := 1000000000.
Definition hour : Z := 3600 * second.

(** [t.Unix()] *)
Definition Unix (t : Z) : Z := t / second.

Module sqlite.

Record mailing_lists_row := {
  ml_name : string; ml_category : string; ml_updated_at : Z
}.

Record messages_row := {
  ms_id : string; ms_list : string; ms_subject : string; ms_author : string;
  ms_date : string; ms_updated_at : Z
}.

(** [message_content] has a text primary key, so every row also has the
    integer [rowid] the engine gives it; the full-text index refers to it. *)
Record message_content_row := {
  mc_rowid : Z;
  mc_id : string; mc_list : string; mc_subject : string; mc_author : string;
  mc_date : string; mc_body : string; mc_headers : string; mc_updated_at : Z
}.

(** An entry of the index [messages_fts]: the rowid and the five column
    values it was built from. *)
Record fts_row := {
  fts_rowid : Z;
  fts_id : string; fts_list : string; fts_subject : string; fts_author : string;
  fts_body : string
}.

Global Instance fts_row_eq_dec : EqDecision fts_row.
Proof. solve_decision. Defined.

Global Instance message_content_row_eq_dec : EqDecision message_content_row.
Proof. solve_decision. Defined.

(** The tables, rows in storage order, and the setting of
    [PRAGMA recursive_triggers] of the connection. *)
Record DB := {
  mailing_lists : list mailing_lists_row;
  messages : list messages_row;
  message_content : list message_content_row;
  messages_fts : list fts_row;
  recursive_triggers : bool
}.

(** The index entry the triggers write or delete for a row. *)
Definition fts_of (r : message_content_row) : fts_row :=
  {| fts_rowid := mc_rowid r; fts_id := mc_id r; fts_list := mc_list r;
     fts_subject := mc_subject r; fts_author := mc_author r; fts_body := mc_body r |}.

(** Trigger [messages_fts_insert]. *)
Definition messages_fts_insert (new : message_content_row) (index : list fts_row) : list fts_row :=
  index ++ [fts_of new].

(** Trigger [messages_fts_delete]: the ['delete'] command of FTS5 takes the
    entry with the rowid and the values of the old row out of the index. *)
Definition messages_fts_delete (old : message_content_row) (index : list fts_row) : list fts_row :=
  filter (λ e, e ≠ fts_of old) index.

(** The rowid of a new row: one more than the largest in the table. *)
Definition next_rowid (rows : list message_content_row) : Z :=
  1 + foldr Z.max 0 (mc_rowid <$> rows).

(** [INSERT OR REPLACE INTO mailing_lists (name, category, updated_at)] *)
Definition replace_mailing_list (r : mailing_lists_row) (d : DB) : DB :=
  {| mailing_lists := filter (λ x, ml_name x ≠ ml_name r) (mailing_lists d) ++ [r];
     messages := messages d; message_content := message_content d;
     messages_fts := messages_fts d; recursive_triggers := recursive_triggers d |}.

(** [INSERT OR REPLACE INTO messages (id, ...)] *)
Definition replace_message (r : messages_row) (d : DB) : DB :=
  {| mailing_lists := mailing_lists d;
     messages := filter (λ x, ms_id x ≠ ms_id r) (messages d) ++ [r];
     message_content := message_content d;
     messages_fts := messages_fts d; recursive_triggers := recursive_triggers d |}.

(** [INSERT OR REPLACE INTO message_content (id, ...)]. The engine picks the
    new rowid, takes the row with the same [id] out (conflict resolution
    REPLACE), puts the new row in and runs the AFTER INSERT trigger. For
    the row REPLACE takes out, SQLite runs the delete triggers if and only
    if recursive triggers are enabled. *)
Definition replace_message_content
    (id list subject author date body headers : string) (updated_at : Z) (d : DB) : DB :=
  let new := {| mc_rowid := next_rowid (message_content d);
                mc_id := id; mc_list := list; mc_subject := subject;
                mc_author := author; mc_date := date; mc_body := body;
                mc_headers := headers; mc_updated_at := updated_at |} in
  let replaced := filter (λ x, mc_id x = id) (message_content d) in
  let kept := filter (λ x, mc_id x ≠ id) (message_content d) in
  let index :=
    if recursive_triggers d
    then foldr messages_fts_delete (messages_fts d) replaced
    else messages_fts d in
  {| mailing_lists := mailing_lists d; messages := messages d;
     message_content := kept ++ [new];
     messages_fts := messages_fts_insert new index;
     recursive_triggers := recursive_triggers d |}.

(** [DELETE FROM t WHERE updated_at < cutoff] on the three tables; on
    [message_content] every deleted row fires [messages_fts_delete]. *)
Definition delete_expired (cutoff : Z) (d : DB) : DB :=
  let expired := filter (λ x, mc_updated_at x < cutoff) (message_content d) in
  {| mailing_lists := filter (λ x, ¬ ml_updated_at x < cutoff) (mailing_lists d);
     messages := filter (λ x, ¬ ms_updated_at x < cutoff) (messages d);
     message_content := filter (λ x, ¬ mc_updated_at x < cutoff) (message_content d);
     messages_fts := foldr messages_fts_delete (messages_fts d) expired;
     recursive_triggers := recursive_triggers d |}.

(** The database of a new file: the schema, no row, the default settings
    (recursive triggers are off unless the pragma turns them on). *)
Definition empty : DB :=
  {| mailing_lists := []; messages := []; message_content := [];
     messages_fts := []; recursive_triggers := false |}.

(** [LIKE]: [%] is any sequence, [_] any one character (here: any one
    byte), ASCII letters compare without case. *)
Fixpoint like (pattern : string) : string → bool :=
  match pattern with
  | EmptyString => λ s, String.eqb s ""
  | String p pattern' =>
      if Ascii.eqb p "%" then
        fix any (s : string) : bool :=
          like pattern' s
          || match s with
             | EmptyString => false
             | String _ s' => any s'
             end
      else λ s,
        match s with
        | EmptyString => false
        | String c s' =>
            (Ascii.eqb p "_" || Ascii.eqb (strings.lowerByte p) (strings.lowerByte c))
            && like pattern' s'
        end
  end.

End sqlite.

(** A Go call that either returns or panics. *)
Inductive Outcome (A : Type) :=
| Returns (a : A)
| Panics.
Global Arguments Returns {A} a.
Global Arguments Panics {A}.

Module cache.
Import sqlite.

Record Cache := { db : DB; ttl : Z }.

(** [New]: the options that matter here are the time to live, 24 hours
    when it is left zero; the database file is new. *)
Definition New (TTL : Z) : Cache :=
  {| db := sqlite.empty; ttl := if TTL =? 0 then 24 * hour else TTL |}.

(** [time.Now().Add(-c.ttl).Unix()] *)
Definition cutoff (c : Cache) (now : Z) : Z := Unix (now - ttl c).

Definition with_db (c : Cache) (d : DB) : Cache := {| db := d; ttl := ttl c |}.

(** [ORDER BY category, name] *)
Definition byCategoryName (r1 r2 : mailing_lists_row) : Prop :=
  if String.eqb (ml_category r1) (ml_category r2)
  then String.le (ml_name r1) (ml_name r2)
  else String.le (ml_category r1) (ml_category r2).

Global Instance byCategoryName_dec : RelDecision byCategoryName.
Proof. intros r1 r2. unfold byCategoryName. destruct (String.eqb _ _); apply _. Defined.

(** [ORDER BY date DESC] *)
Definition byDateDesc (r1 r2 : messages_row) : Prop := String.le (ms_date r2) (ms_date r1).

Global Instance byDateDesc_dec : RelDecision byDateDesc.
Proof. intros r1 r2. unfold byDateDesc. apply _. Defined.

Definition GetMailingLists (c : Cache) (now : Z) : list MailingList * bool :=
  let rows := filter (λ r, cutoff c now < ml_updated_at r) (mailing_lists (db c)) in
  let lists := (λ r, {| Name := ml_name r; Category := ml_category r |})
                 <$> merge_sort byCategoryName rows in
  if (length lists =? 0)%nat then ([], false) else (lists, true).

Definition SetMailingLists (c : Cache) (now : Z) (lists : list MailingList) : Cache :=
  with_db c
    (foldl (λ d l, replace_mailing_list
                     {| ml_name := Name l; ml_category := Category l;
                        ml_updated_at := Unix now |} d)
           (db c) lists).

(** The argument of [date LIKE ?]: [month[:4] + "-" + month[4:] + "%"].
    The slice [month[:4]] panics on a month shorter than four bytes. *)
Definition datePrefix (month : string) : Outcome string :=
  if (String.length month <? 4)%nat then Panics
  else Returns (strings.take 4 month +:+ "-" +:+ strings.drop 4 month +:+ "%").

Definition messageOfRow (r : messages_row) : Message :=
  {| ID := ms_id r; Subject := ms_subject r; Author := ms_author r;
     Date := ms_date r; List := ms_list r |}.

(** [AND date LIKE ?], when the month is given. *)
Definition dateMatches (pattern : option string) (date : string) : bool :=
  match pattern with
  | Some p => like p date
  | None => true
  end.

Definition selectMessages (c : Cache) (now : Z) (listName : string)
    (pattern : option string) : list Message * bool :=
  let rows :=
    filter (λ r, ms_list r = listName ∧ cutoff c now < ms_updated_at r
                 ∧ dateMatches pattern (ms_date r) = true)
           (messages (db c)) in
  let found := messageOfRow <$> merge_sort byDateDesc rows in
  if (length found =? 0)%nat then ([], false) else (found, true).

Definition GetMessages (c : Cache) (now : Z) (listName month : string)
    : Outcome (list Message * bool) :=
  if negb (String.eqb month "") then
    match datePrefix month with
    | Panics => Panics
    | Returns p => Returns (selectMessages c now listName (Some p))
    end
  else Returns (selectMessages c now listName None).

Definition SetMessages (c : Cache) (now : Z) (msgs : list Message) : Cache :=
  if (length msgs =? 0)%nat then c
  else with_db c
         (foldl (λ d m, replace_message
                          {| ms_id := ID m; ms_list := List m; ms_subject := Subject m;
                             ms_author := Author m; ms_date := Date m;
                             ms_updated_at := Unix now |} d)
                (db c) msgs).

(** The row [QueryRow] scans: the first one of the result. *)
Definition selectMessageContent (c : Cache) (now : Z) (listName id : string)
    : option message_content_row :=
  snd <$> list_find (λ r, mc_id r = id ∧ mc_list r = listName
                          ∧ cutoff c now < mc_updated_at r)
                    (message_content (db c)).

Definition GetMessageContent (c : Cache) (now : Z) (listName id : string)
    : option MessageContent * bool :=
  match selectMessageContent c now listName id with
  | None => (None, false)
  | Some r =>
      match json.Unmarshal (mc_headers r) with
      | None => (None, false)
      | Some hs =>
          (Some {| Msg := {| ID := mc_id r; Subject := mc_subject r;
                             Author := mc_author r; Date := mc_date r;
                             List := mc_list r |};
                   Body := mc_body r; Headers := hs |}, true)
      end
  end.

Definition SetMessageContent (c : Cache) (now : Z) (m : MessageContent) : Cache :=
  with_db c
    (replace_message_content (ID m) (List m) (Subject m) (Author m) (Date m)
       (Body m) (json.Marshal (Headers m)) (Unix now) (db c)).

Definition Cleanup (c : Cache) (now : Z) : Cache :=
  with_db c (delete_expired (cutoff c now) (db c)).

Section search.

(** The FTS5 engine: a query text is a syntax error or selects entries of
    the index, each with its rank (smaller is better, as [ORDER BY rank]
    wants it); the rank of an entry may depend on the whole index. *)
Variable fts5 : string → option (list fts_row → fts_row → option Z).

Definition byRank (h1 h2 : Z * message_content_row) : Prop := h1.1 ≤ h2.1.

Global Instance byRank_dec : RelDecision byRank.
Proof. intros h1 h2. unfold byRank. apply _. Defined.

(** [FROM messages_fts fts JOIN message_content mc ON fts.rowid = mc.rowid
    WHERE messages_fts MATCH ?]: the matching entries, each with the rows
    of its rowid. *)
Definition matchJoin (d : DB) (score : list fts_row → fts_row → option Z)
    : list (Z * message_content_row) :=
  e ← messages_fts d;
  match score (messages_fts d) e with
  | None => []
  | Some rank =>
      (λ mc, (rank, mc)) <$> filter (λ mc, mc_rowid mc = fts_rowid e) (message_content d)
  end.

Definition messageOfContent (mc : message_content_row) : Message :=
  {| ID := mc_id mc; Subject := mc_subject mc; Author := mc_author mc;
     Date := mc_date mc; List := mc_list mc |}.

Definition SearchMessages (c : Cache) (query listName : string) : Result (list Message) :=
  match fts5 query with
  | None => Err "search failed"
  | Some score =>
      let hits := matchJoin (db c) score in
      let hits :=
        if negb (String.eqb listName "")
        then filter (λ h, mc_list h.2 = listName) hits
        else hits in
      Ok (messageOfContent ∘ snd <$> take 100 (merge_sort byRank hits))
  end.

End search.

End cache.

(** ** Package [marc]: the client

    The state a client call works on is the cache and, for the statements
    about fetching, the list of the paths requested from the archive so
    far. The archive itself is the function [upstream] from a path to the
    body of the answer (an error for a transport failure or a status other
    than 200); [html_Parse] is [html.Parse]. One call reads the clock
    once. *)

(** [extractText]: the text nodes of the subtree, in document order, then
    trimmed. *)
Definition extractText (n : Node) : string :=
  strings.TrimSpace
    (foldl (λ text m, if isText m then text +:+ Data m else text) "" (flatten n)).

(** [extractMessageMetaSimple(n)], given [n.Parent]. *)
Definition extractMessageMetaSimple (parent : option Node) : string * string :=
  let lineText := match parent with Some p => extractText p | None => "" end in
  let date := regexp.FindString dateRegex lineText in
  let idx := strings.LastIndex lineText "]" in
  let author :=
    if 0 <=? idx then
      strings.TrimSpace
        (strings.TrimSuffix
           (strings.TrimSuffix
              (strings.TrimSpace (strings.slice_from lineText (idx + 1))) "Next") "Last")
    else "" in
  (date, author).

(** The walk of [parseMessageList], the extractor [Search] uses. *)
Fixpoint messageListWalk (listName : string) (parent : option Node) (n : Node)
    (messages : list Message) : list Message :=
  let messages :=
    if isElement n "a" then
      let matches := messageLinkRegex_FindStringSubmatch (getAttr n "href") in
      if (length matches =? 3)%nat then
        let subject := strings.TrimSpace (extractText n) in
        if negb (String.eqb subject "") then
          let '(date, author) := extractMessageMetaSimple parent in
          messages ++ [ {| ID := matches !!! 2%nat; Subject := subject;
                           Author := author; Date := date; List := listName |} ]
        else messages
      else messages
    else messages in
  match n with
  | MkNode _ _ _ children =>
      foldl (λ messages child, messageListWalk listName (Some n) child messages)
            messages children
  end.

Definition parseMessageList (doc : Node) (listName : string) : list Message :=
  messageListWalk listName None doc [].

(** What a call reads of [time.Now()]: the instant, and the year and the
    month of the local date. *)
Record Time := { UnixNano : Z; Year : Z; Month : Z }.

(** [appendInt(x, width)] of package [time]: decimal, zero-padded. *)
Definition appendInt (x : Z) (width : nat) : string :=
  let digits := pretty (Z.abs x) in
  (if x <? 0 then "-" else "")
    +:+ String.concat "" (replicate (width - String.length digits) "0") +:+ digits.

(** [t.Format("200601")] *)
Definition Format200601 (t : Time) : string :=
  appendInt (Year t) 4 +:+ appendInt (Month t) 2.

Record ListMessagesOptions := {
  opt_List : string;
  opt_Month : string;
  opt_Page : Z;
  opt_Limit : Z
}.

Record World := { w_cache : cache.Cache; w_fetched : list string }.

Section client.

Variable upstream : string → Result string.
Variable html_Parse : string → Result Node.

Definition with_cache (w : World) (c : cache.Cache) : World :=
  {| w_cache := c; w_fetched := w_fetched w |}.

Definition fetchRaw (path : string) (w : World) : Result string * World :=
  (upstream path, {| w_cache := w_cache w; w_fetched := w_fetched w ++ [path] |}).

Definition fetch (path : string) (w : World) : Result Node * World :=
  let '(r, w) := fetchRaw path w in
  (match r with Ok body => html_Parse body | Err e => Err e end, w).

Definition ListMailingLists (now : Time) (w : World) : Result (list MailingList) * World :=
  match cache.GetMailingLists (w_cache w) (UnixNano now) with
  | (cached, true) => (Ok cached, w)
  | (_, false) =>
      match fetch "" w with
      | (Err e, w) => (Err e, w)
      | (Ok doc, w) =>
          let lists := extractMailingLists doc in
          (Ok lists, with_cache w (cache.SetMailingLists (w_cache w) (UnixNano now) lists))
      end
  end.

Definition messagesPath (listName month : string) (page : Z) : string :=
  "?l=" +:+ url.QueryEscape listName +:+ "&b=" +:+ url.QueryEscape month
    +:+ "&r=" +:+ pretty page +:+ "&w=2".

(** The part of [ListMessagesWithOptions] after the cache probe. *)
Definition listMessagesUpstream (now : Time) (listName month : string) (page limit : Z)
    (w : World) : Result (list Message) * World :=
  match fetchRaw (messagesPath listName month page) w with
  | (Err e, w) => (Err e, w)
  | (Ok raw, w) =>
      if strings.Contains raw "No such list"
      then (Err ("no such list: " +:+ listName), w)
      else
        let messages := parseMessageListFromRaw raw listName in
        let messages :=
          if (0 <? limit) && (limit <? Z.of_nat (length messages))
          then take (Z.to_nat limit) messages else messages in
        (Ok messages, with_cache w (cache.SetMessages (w_cache w) (UnixNano now) messages))
  end.

Definition ListMessagesWithOptions (now : Time) (opts : ListMessagesOptions) (w : World)
    : Outcome (Result (list Message) * World) :=
  let month := if String.eqb (opt_Month opts) "" then Format200601 now else opt_Month opts in
  let page := if opt_Page opts <? 1 then 1 else opt_Page opts in
  if (page =? 1) && (opt_Limit opts =? 0) then
    match cache.GetMessages (w_cache w) (UnixNano now) (opt_List opts) month with
    | Panics => Panics
    | Returns (cached, true) => Returns (Ok cached, w)
    | Returns (_, false) =>
        Returns (listMessagesUpstream now (opt_List opts) month page (opt_Limit opts) w)
    end
  else Returns (listMessagesUpstream now (opt_List opts) month page (opt_Limit opts) w).

Definition messagePath (listName messageID : string) : string :=
  "?l=" +:+ url.QueryEscape listName +:+ "&m=" +:+ url.QueryEscape messageID
    +:+ "&w=2".

Definition GetMessage (now : Time) (listName messageID : string) (w : World)
    : Result MessageContent * World :=
  match cache.GetMessageContent (w_cache w) (UnixNano now) listName messageID with
  | (Some cached, true) => (Ok cached, w)
  | _ =>
      match fetchRaw (messagePath listName messageID) w with
      | (Err e, w) => (Err e, w)
      | (Ok raw, w) =>
          match parseMessage html_Parse raw listName messageID with
          | Err e => (Err e, w)
          | Ok msg =>
              (Ok msg, with_cache w (cache.SetMessageContent (w_cache w) (UnixNano now) msg))
          end
      end
  end.

Definition searchPath (listName query searchType : string) : string :=
  "?l=" +:+ url.QueryEscape listName +:+ "&s=" +:+ url.QueryEscape query
    +:+ "&q=" +:+ url.QueryEscape searchType +:+ "&w=2".

Definition Search (listName query searchType : string) (w : World)
    : Result (list Message) * World :=
  let searchType := if String.eqb searchType "" then "s" else searchType in
  match fetch (searchPath listName query searchType) w with
  | (Err e, w) => (Err e, w)
  | (Ok doc, w) => (Ok (parseMessageList doc listName), w)
  end.

End client.

(** ** The specification's notions, and sample states *)

Import sqlite.

(** "A row is live iff now − timestamp ≤ TTL": the reading of the
    specification, with the timestamp of the row in seconds. *)
Definition live (c : cache.Cache) (now : Z) (timestamp : Z) : Prop :=
  now - timestamp * second ≤ cache.ttl c.

(** Every stored [headers] text decodes. *)
Definition headersDecodable (c : cache.Cache) : Prop :=
  Forall (λ r, is_Some (json.Unmarshal (mc_headers r)))
         (message_content (cache.db c)).

Definition mkMessage (id listName subject author date : string) : Message :=
  {| ID := id; Subject := subject; Author := author; Date := date; List := listName |}.

(** A message with a header whose key has mixed case. *)
Definition sampleContent : MessageContent :=
  {| Msg := mkMessage "42" "git" "Fix bug" "Alice" "Tue, 24 Feb 2026 10:00:00 +0000";
     Body := "The body.";
     Headers := Some (<["Message-ID" := "<42@example.com>"]> (<["From" := "Alice"]> ∅)) |}.

(** A store with a one hour TTL and [sampleContent] written at second 1000. *)
Definition sampleCache : cache.Cache :=
  cache.SetMessageContent (cache.New hour) (1000 * second) sampleContent.

(** *** The index and the content table *)

(** Every content row has its entry in the index. *)
Definition rowsIndexed (d : DB) : Prop :=
  ∀ r, r ∈ message_content d → fts_of r ∈ messages_fts d.

(** Every entry of the index is the entry of a content row. *)
Definition indexBacked (d : DB) : Prop :=
  ∀ e, e ∈ messages_fts d → ∃ r, r ∈ message_content d ∧ fts_of r = e.

Definition inSync (d : DB) : Prop := rowsIndexed d ∧ indexBacked d.

(** The rowids of the content table are pairwise different. *)
Definition rowidsUnique (d : DB) : Prop := NoDup (mc_rowid <$> message_content d).

(** The states of the store: a new one, and what the writing operations
    make of a state (the reading ones leave it as it is). *)
Inductive reachable : cache.Cache → Prop :=
| reachable_New (TTL : Z) : reachable (cache.New TTL)
| reachable_SetMailingLists c now lists :
    reachable c → reachable (cache.SetMailingLists c now lists)
| reachable_SetMessages c now msgs :
    reachable c → reachable (cache.SetMessages c now msgs)
| reachable_SetMessageContent c now m :
    reachable c → reachable (cache.SetMessageContent c now m)
| reachable_Cleanup c now :
    reachable c → reachable (cache.Cleanup c now).

(** *** A small full-text engine for the examples

    A query of one word selects the entries with that word in one of the
    indexed columns, letters compared without case; the rank is the
    negated number of occurrences. Any other query text is a syntax
    error. *)

Definition isWordByte (c : ascii) : bool :=
  let n := N_of_ascii c in
  ((48 <=? n) && (n <=? 57) || (65 <=? n) && (n <=? 90) || (97 <=? n) && (n <=? 122))%N.

Fixpoint wordsFrom (current : string) (s : string) : list string :=
  match s with
  | EmptyString => if String.eqb current "" then [] else [current]
  | String c s' =>
      if isWordByte c
      then wordsFrom (current +:+ String (strings.lowerByte c) "") s'
      else if String.eqb current "" then wordsFrom "" s'
      else current :: wordsFrom "" s'
  end.

Definition words (s : string) : list string := wordsFrom "" s.

Definition entryWords (e : fts_row) : list string :=
  words (fts_id e) ++ words (fts_list e) ++ words (fts_subject e)
    ++ words (fts_author e) ++ words (fts_body e).

Definition wordEngine (query : string) : option (list fts_row → fts_row → option Z) :=
  match words query with
  | [w] =>
      if String.eqb (strings.ToLower query) w then
        Some (λ _ e,
                let n := length (filter (λ x, x = w) (entryWords e)) in
                if (n =? 0)%nat then None else Some (- Z.of_nat n))
      else None
  | _ => None
  end.

(** The three messages of the search scenario of the specification. *)
Definition searchScenario : cache.Cache :=
  foldl (λ c m, cache.SetMessageContent c (1000 * second) m) (cache.New hour)
    [ {| Msg := mkMessage "1" "git" "Fix buffer overflow" "Alice" "";
         Body := "This patch fixes a critical buffer overflow in the core module.";
         Headers := None |};
      {| Msg := mkMessage "2" "git" "Add new feature" "Bob" "";
         Body := "This adds a new feature for better performance.";
         Headers := None |};
      {| Msg := mkMessage "3" "linux-kernel" "Memory leak fix" "Charlie" "";
         Body := "Fixed memory leak in driver subsystem.";
         Headers := None |} ].

(** *** The failing sequence of the index

    A message is cached, cached again with another body, both expire and
    are cleaned up, and another message is cached. *)

Definition firstVersion : MessageContent :=
  {| Msg := mkMessage "1" "git" "Release notes" "Alice" ""; Body := "alpha";
     Headers := None |}.

Definition secondVersion : MessageContent :=
  {| Msg := mkMessage "1" "git" "Release notes" "Alice" ""; Body := "beta";
     Headers := None |}.

Definition otherMessage : MessageContent :=
  {| Msg := mkMessage "9" "git" "Unrelated" "Bob" ""; Body := "gamma";
     Headers := None |}.

Definition afterRefetch : cache.Cache :=
  cache.SetMessageContent
    (cache.SetMessageContent (cache.New hour) (1000 * second) firstVersion)
    (2000 * second) secondVersion.

Definition afterReuse : cache.Cache :=
  cache.SetMessageContent
    (cache.Cleanup afterRefetch (2000 * second + 2 * hour))
    (2000 * second + 2 * hour) otherMessage.

(** *** The worlds a client reaches

    From a new store and nothing fetched, by calls of the four operations;
    the archive may answer every call differently. *)

Definition newWorld (TTL : Z) : World :=
  {| w_cache := cache.New TTL; w_fetched := [] |}.



(** A page of search results of the archive, parsed. *)
Definition searchResultPage : Node :=
  Document
    [ Element "html" []
        [ Element "head" [] [];
          Element "body" []
            [ Element "pre" []
                [ Text "  1. 2026-02-24 [1] ";
                  Element "a" [ {| Key := "href"; Val := "?l=git&m=42&w=2" |} ]
                    [Text "Fix bug"];
                  Text " Alice" ] ] ] ].

(** A message as the archive serves it in ISO 8859-1: the ö of the sender
    is the single byte 246, which is not valid UTF-8. *)
Definition latin1Content : MessageContent :=
  {| Msg := mkMessage "7" "git" "Patch" "Joerg" "";
     Body := "See attached.";
     Headers := Some (<["From" := "J" +:+ String (json.chr 246) "rg"]> ∅) |}.

(** ** Further notions for the properties of the extractors *)

(** Every byte of the string is in the class. *)
Fixpoint allBytes (p : ascii → bool) (s : string) : bool :=
  match s with
  | EmptyString => true
  | String c s' => p c && allBytes p s'
  end.

(** What one item of a pattern may consume. *)
Definition pieceOk (a : regexp.atom) (piece : string) : Prop :=
  match regexp.rep a with
  | regexp.One => ∃ c, piece = String c "" ∧ regexp.cls a c = true
  | regexp.Plus => piece ≠ "" ∧ allBytes (regexp.cls a) piece = true
  | regexp.Star => allBytes (regexp.cls a) piece = true
  end.

(** The pieces are a match of the pattern. *)
Definition piecesOk (re : regexp.Regexp) (ps : list string) : Prop :=
  Forall2 pieceOk re ps.

(** A date of the form dddd-dd-dd. *)
Definition isISODate (s : string) : bool :=
  match s with
  | String y1 (String y2 (String y3 (String y4 (String d1 (String m1 (String m2
      (String d2 (String a1 (String a2 EmptyString))))))))) =>
      regexp.isDigit y1 && regexp.isDigit y2 && regexp.isDigit y3 && regexp.isDigit y4
      && Ascii.eqb d1 "-" && regexp.isDigit m1 && regexp.isDigit m2
      && Ascii.eqb d2 "-" && regexp.isDigit a1 && regexp.isDigit a2
  | _ => false
  end.

(** [extractMessageID] of client.go. *)
Definition extractMessageID (href : string) : string :=
  match url.Parse href with
  | None => ""
  | Some rawQuery => url.Get (url.Query rawQuery) "m"
  end.

(** The bytes [url.QueryEscape] writes: unreserved ones, [+] and [%]. *)
Definition escapedByte (c : ascii) : bool :=
  url.unreserved c || Ascii.eqb c "+" || Ascii.eqb c "%".

(** A field of the record agrees with the header map: it is the value of a
    header whose name is [name] up to case, or it is empty and there is no
    such header. *)
Definition fieldAgrees (name field : string) (h : gmap string string) : Prop :=
  (field = "" ∧ ∀ k, is_Some (h !! k) → strings.ToLower k ≠ name)
  ∨ (∃ k, strings.ToLower k = name ∧ h !! k = Some field).

(** The variables of the header/body loop of [parseMessage] before the
    first line. *)
Definition initialParseState : parseState :=
  {| inHeaders := true; bodyLines := []; headers := ∅;
     subject := ""; author := ""; date := "" |}.


(** The row [SetMessages] and [SetMailingLists] write for an entry. *)
Definition rowOfMessage (now : Z) (m : Message) : sqlite.messages_row :=
  {| sqlite.ms_id := ID m; sqlite.ms_list := List m; sqlite.ms_subject := Subject m;
     sqlite.ms_author := Author m; sqlite.ms_date := Date m;
     sqlite.ms_updated_at := Unix now |}.

Definition rowOfMailingList (now : Z) (l : MailingList) : sqlite.mailing_lists_row :=
  {| sqlite.ml_name := Name l; sqlite.ml_category := Category l;
     sqlite.ml_updated_at := Unix now |}.

(** The order of [ORDER BY category, name] and of [ORDER BY date DESC] on
    the records the lookups return. *)
Definition categoryNameOrder (l1 l2 : MailingList) : Prop :=
  if String.eqb (Category l1) (Category l2)
  then String.le (Name l1) (Name l2)
  else String.le (Category l1) (Category l2).

Definition dateDescOrder (m1 m2 : Message) : Prop := String.le (Date m2) (Date m1).

(** The [YYYY-MM] a month argument [YYYYMM] stands for. *)
Definition monthPrefix (month : string) : string :=
  strings.take 4 month +:+ "-" +:+ strings.drop 4 month.

(** The content row of the first message of [searchScenario]. *)
Definition firstScenarioRow : sqlite.message_content_row :=
  {| sqlite.mc_rowid := 1; sqlite.mc_id := "1"; sqlite.mc_list := "git";
     sqlite.mc_subject := "Fix buffer overflow"; sqlite.mc_author := "Alice";
     sqlite.mc_date := "";
     sqlite.mc_body := "This patch fixes a critical buffer overflow in the core module.";
     sqlite.mc_headers := json.Marshal None; sqlite.mc_updated_at := 1000 |}.

(** ** The client: timeout, and what a call does to the world *)

Definition minute : Z := 60 * second.
Definition defaultTimeout : Z := 60 * second.
Definition minTimeout : Z := 10 * second.
Definition maxTimeout : Z := 15 * minute.

Section getTimeout.

(** [os.Getenv] and [time.ParseDuration]. *)
Variable Getenv : string → string.
Variable ParseDuration : string → Result Z.

Definition getTimeout : Z :=
  let envVal := Getenv "MARC_TIMEOUT" in
  if String.eqb envVal "" then defaultTimeout
  else match ParseDuration envVal with
       | Err _ => defaultTimeout
       | Ok d =>
           if d <? minTimeout then minTimeout
           else if maxTimeout <? d then maxTimeout
           else d
       end.

End getTimeout.

(** A call that returned an error left the cache as it was. *)
Definition cacheKeptOnError {A} (w : World) (r : Result A * World) : Prop :=
  match r.1 with
  | Err _ => w_cache r.2 = w_cache w
  | Ok _ => True
  end.

(** A call requested nothing, or the one page [path]. *)
Definition requestedAtMost (w : World) (path : string) (w' : World) : Prop :=
  w_fetched w' = w_fetched w ∨ w_fetched w' = w_fetched w ++ [path].

(** The month and the page [ListMessagesWithOptions] works with. *)
Definition effectiveMonth (now : Time) (opts : ListMessagesOptions) : string :=
  if String.eqb (opt_Month opts) "" then Format200601 now else opt_Month opts.

Definition effectivePage (opts : ListMessagesOptions) : Z :=
  if opt_Page opts <? 1 then 1 else opt_Page opts.

(** A time of day with the clock at second 1000, and an archive that
    serves one page whatever is asked. *)
Definition sampleTime : Time := {| UnixNano := 1000 * second; Year := 2026; Month := 2 |}.

Definition sampleUpstream (path : string) : Result string := Ok "page".

Definition sampleParse (raw : string) : Result Node := Ok messagePage.

(** The shape of a search result: the list of the caller, a subject, an
    id of digits, and a date that is empty or of the form dddd-dd-dd. *)
Definition searchHit (listName : string) (m : Message) : Prop :=
  List m = listName
  ∧ Subject m ≠ ""
  ∧ ID m ≠ "" ∧ allBytes regexp.isDigit (ID m) = true
  ∧ (Date m = "" ∨ isISODate (Date m) = true).

(** A call that found nothing left the cache as it was. *)
Definition cacheKeptWhenEmpty {A} (w : World) (r : Result (list A) * World) : Prop :=
  match r.1 with
  | Ok [] => w_cache r.2 = w_cache w
  | _ => True
  end.


(** ** The rows of a listing page that give a stub *)

(** The id of the first message link of a line, of whatever list: the
    second group of the leftmost match of [messageLinkRegex]. *)
Definition firstLinkID (line : string) : option string :=
  match regexp.find messageLinkRegex line with
  | Some ps => Some (ps !!! 7%nat)
  | None => None
  end.


(** A row whose first message link belongs to another list. *)
Definition foreignLinkRow : string :=
  "  1. 2026-02-24  [" +:+ anchor "?l=other&m=7&w=2" "1" +:+ "] "
    +:+ anchor "?l=git&m=42&w=2" "Fix bug" +:+ "  Alice".

(** A row whose first message link belongs to another list and has an id
    that begins the id of the link of the requested list. *)
Definition foreignPrefixRow : string :=
  "  1. 2026-02-24  [" +:+ anchor "?l=other&m=4&w=2" "1" +:+ "] "
    +:+ anchor "?l=git&m=42&w=2" "Fix bug" +:+ "  Alice".


(** * Theorems *)

(** *** Facts about the string primitives *)

Section string_facts.
Import strings.

Lemma app_cons (c : ascii) (s t : string) :
  String c s +:+ t = String c (s +:+ t).
Proof. done. Qed.

Lemma app_nil_l (t : string) : "" +:+ t = t.
Proof. done. Qed.

Lemma drop_drop (m n : nat) (s : string) : drop n (drop m s) = drop (m + n) s.
Proof.
  revert s; induction m as [|m IH]; intros s; simpl; [done|].
  destruct s as [|c s]; [by destruct n|apply IH].
Qed.

Lemma drop_ge (n : nat) (s : string) :
  (String.length s ≤ n)%nat → drop n s = "".
Proof.
  revert s; induction n as [|n IH]; intros [|c s] Hn; simpl in *;
    try done; try lia. apply IH. lia.
Qed.

Lemma take_drop (n : nat) (s : string) : take n s +:+ drop n s = s.
Proof.
  revert s; induction n as [|n IH]; intros [|c s]; simpl; try done.
  by rewrite app_cons, IH.
Qed.

Lemma length_app (s t : string) :
  String.length (s +:+ t) = (String.length s + String.length t)%nat.
Proof.
  induction s as [|c s IH]; [done|]. rewrite app_cons. simpl. by rewrite IH.
Qed.

Lemma drop_app_length (s t : string) : drop (String.length s) (s +:+ t) = t.
Proof. induction s as [|c s IH]; [by destruct t|by rewrite app_cons]. Qed.

Lemma take_length_le (n : nat) (s : string) :
  (n ≤ String.length s)%nat → String.length (take n s) = n.
Proof.
  revert s; induction n as [|n IH]; intros [|c s] Hn; simpl in *; try done; try lia.
  rewrite IH; [done|lia].
Qed.

Lemma HasPrefix_app (p r : string) : HasPrefix (p +:+ r) p = true.
Proof.
  induction p as [|a p IH]; [done|]. rewrite app_cons. simpl.
  by rewrite Ascii.eqb_refl.
Qed.

Lemma HasPrefix_inv (s p : string) :
  HasPrefix s p = true → ∃ r, s = p +:+ r.
Proof.
  revert s; induction p as [|a p IH]; intros s H; simpl in *.
  - by exists s.
  - destruct s as [|b s]; [done|].
    destruct (Ascii.eqb_spec a b) as [->|]; [|done].
    destruct (IH _ H) as [r ->]. by exists r.
Qed.

Lemma HasPrefix_length (s p : string) :
  HasPrefix s p = true → (String.length p ≤ String.length s)%nat.
Proof. intros [r ->]%HasPrefix_inv. rewrite length_app. lia. Qed.

(** What [LastIndex] returns: [-1] and no occurrence at all, or the
    offset of an occurrence after which there is no other. *)
Lemma LastIndex_spec (s t : string) :
  (LastIndex s t = -1
     ∧ ∀ k, (k ≤ String.length s)%nat → HasPrefix (drop k s) t = false)
  ∨ (∃ n : nat, LastIndex s t = Z.of_nat n
       ∧ (n ≤ String.length s)%nat
       ∧ HasPrefix (drop n s) t = true
       ∧ ∀ k, (n < k ≤ String.length s)%nat → HasPrefix (drop k s) t = false).
Proof.
  induction s as [|c s IH].
  - simpl. destruct t as [|a t]; simpl.
    + right. exists 0%nat. repeat split; try done. intros k ?; simpl in *; lia.
    + left. split; [done|]. by intros [|k] _.
  - cbn [LastIndex]. destruct IH as [[-> Hno]|(n & -> & Hn & Hat & Hlast)].
    + replace (0 <=? -1) with false by done.
      destruct (HasPrefix (String c s) t) eqn:Hp.
      * right. exists 0%nat. repeat split; simpl; try done; try lia.
        intros [|k] Hk; [lia|]. simpl. apply Hno. simpl in Hk; lia.
      * left. split; [done|]. intros [|k] Hk; [done|].
        simpl. apply Hno. simpl in Hk; lia.
    + replace (0 <=? Z.of_nat n) with true by (symmetry; apply Z.leb_le; lia).
      right. exists (S n). repeat split; simpl; try done; try lia.
      intros [|k] Hk; [lia|]. simpl. apply Hlast. simpl in Hk; lia.
Qed.

(** What [Index] returns: [-1] and no occurrence at all, or the offset of
    the first occurrence. *)
Lemma Index_spec (s t : string) :
  (Index s t = -1
     ∧ ∀ k, (k ≤ String.length s)%nat → HasPrefix (drop k s) t = false)
  ∨ (∃ n : nat, Index s t = Z.of_nat n
       ∧ (n ≤ String.length s)%nat
       ∧ HasPrefix (drop n s) t = true
       ∧ ∀ k, (k < n)%nat → HasPrefix (drop k s) t = false).
Proof.
  induction s as [|c s IH].
  - simpl. destruct (HasPrefix "" t) eqn:Hp.
    + right. exists 0%nat. repeat split; try done. intros k ?; lia.
    + left. split; [done|]. intros [|k] _; done.
  - cbn [Index]. destruct (HasPrefix (String c s) t) eqn:Hp.
    + right. exists 0%nat. repeat split; simpl; try done; try lia.
    + destruct IH as [[-> Hno]|(n & -> & Hn & Hat & Hfirst)].
      * left. split; [done|]. intros [|k] Hk; [done|].
        simpl. apply Hno. simpl in Hk; lia.
      * replace (Z.of_nat n <? 0) with false by (symmetry; apply Z.ltb_ge; lia).
        right. exists (S n). repeat split; simpl; try done; try lia.
        intros [|k] Hk; [done|]. simpl. apply Hfirst. lia.
Qed.

(** A found index leaves room for the substring: the slices the
    extractors take at such indices are within the string. *)
Lemma Index_in_range (s t : string) :
  Index s t = -1 ∨ (0 ≤ Index s t ∧ Index s t + len t ≤ len s).
Proof.
  destruct (Index_spec s t) as [[-> _]|(n & -> & Hn & Hat & _)]; [by left|].
  right. split; [lia|]. apply HasPrefix_length in Hat. unfold len.
  assert (String.length (drop n s) = (String.length s - n)%nat) as Hdl.
  { rewrite <-(take_drop n s) at 2. rewrite length_app, take_length_le; lia. }
  lia.
Qed.

Lemma Index_found_occurs (s t : string) :
  Index s t ≠ -1 → ∃ n, HasPrefix (drop n s) t = true.
Proof.
  destruct (Index_spec s t) as [[-> _]|(n & _ & _ & Hat & _)]; [done|eauto].
Qed.

End string_facts.


Section listing.
Import strings.

Lemma foldl_append_omap {A B} (f : A → option B) (acc : list B) (l : list A) :
  foldl (λ out x, match f x with Some y => out ++ [y] | None => out end) acc l
  = acc ++ omap f l.
Proof.
  revert acc; induction l as [|x l IH]; intros acc; csimpl.
  - by rewrite app_nil_r.
  - rewrite IH. destruct (f x); [by rewrite <-app_assoc|done].
Qed.

Lemma parseMessageListFromRaw_omap (raw listName : string) :
  parseMessageListFromRaw raw listName
  = omap (λ line, parseLine line listName) (Split raw newline).
Proof. unfold parseMessageListFromRaw. by rewrite foldl_append_omap. Qed.






(** The scenario of the specification. *)
Example listing_scenario :
  parseMessageListFromRaw (sampleRow "  Alice") "git"
  = [ {| ID := "42"; Subject := "Fix bug"; Author := "Alice";
         Date := "2026-02-24"; List := "git" |} ].
Proof. vm_compute. reflexivity. Qed.

Lemma parseLine_author_eq (line listName : string) (msg : Message) :
  parseLine line listName = Some msg →
  ∃ n : nat,
    LastIndex line "</a>" = Z.of_nat n
    ∧ HasPrefix (drop n line) "</a>" = true
    ∧ (∀ k, (n < k ≤ String.length line)%nat → HasPrefix (drop k line) "</a>" = false)
    ∧ Author msg = TrimSpace (drop (n + 4) line).
Proof.
  unfold parseLine.
  destruct (messageLineRegex_MatchString line); simpl; [|done].
  destruct (String.eqb _ ""); [done|].
  destruct (length _ =? 3)%nat; simpl; [|done].
  set (linkStart := Index line _).
  destruct (linkStart =? -1); [done|].
  set (gt := Index (slice_from line linkStart) ">").
  destruct (gt =? -1); [done|].
  set (subjectStart := gt + linkStart + 1).
  destruct (Index (slice_from line subjectStart) "</a>" =? -1) eqn:Hend; [done|].
  apply Z.eqb_neq, Index_found_occurs in Hend as [j Hj].
  unfold slice_from in Hj. rewrite drop_drop in Hj.
  intros [= <-]. simpl.
  destruct (LastIndex_spec line "</a>") as [[_ Hno]|(n & Hn & Hle & Hat & Hlast)].
  - pose proof (HasPrefix_length _ _ Hj) as Hlen. simpl in Hlen.
    destruct (decide (Z.to_nat subjectStart + j ≤ String.length line)%nat) as [Hk|Hk].
    + rewrite Hno in Hj; done.
    + assert (drop (Z.to_nat subjectStart + j) line = "") as Hd.
      { apply drop_ge. lia. }
      rewrite Hd in Hlen. simpl in Hlen. lia.
  - exists n. rewrite Hn. repeat split; try done.
    replace (Z.of_nat n =? -1) with false by (symmetry; apply Z.eqb_neq; lia).
    simpl. unfold slice_from, len.
    replace (Z.to_nat (Z.of_nat n + 4)) with (n + 4)%nat by lia.
    destruct (Z.of_nat n + 4 <? Z.of_nat (String.length line)) eqn:Hlt; [done|].
    apply Z.ltb_ge in Hlt.
    pose proof (HasPrefix_length _ _ Hat) as Hlen. simpl in Hlen.
    assert (String.length (drop n line) = (String.length line - n)%nat) as Hdl.
    { rewrite <-(take_drop n line) at 2. rewrite length_app, take_length_le; lia. }
    assert (drop (n + 4) line = "") as ->; [|done].
    rewrite <-drop_drop.
    destruct (drop n line) as [|a [|b [|c [|d [|e r]]]]]; simpl in *; try done; lia.
Qed.

End listing.

Section listing_author.
Import strings.

(** C5, as the code has it: the author of a stub is the text after the
    last close-tag of its line, trimmed of surrounding white space; the
    listing extractor strips no pagination label. *)
Theorem listing_author_after_last_close_tag (line listName : string) (msg : Message) :
  parseLine line listName = Some msg →
  ∃ pre post : string,
    line = pre +:+ "</a>" +:+ post
    ∧ (∀ pre' post', line = pre' +:+ "</a>" +:+ post' →
         (String.length pre' ≤ String.length pre)%nat)
    ∧ Author msg = TrimSpace post.
Proof.
  intros (n & _ & Hat & Hlast & Hauthor)%parseLine_author_eq.
  assert (n < String.length line)%nat as Hn.
  { destruct (decide (n < String.length line)%nat); [done|].
    rewrite drop_ge in Hat by lia. done. }
  destruct (HasPrefix_inv _ _ Hat) as [post Hpost].
  exists (take n line), post. split; [|split].
  - rewrite <-Hpost. symmetry. apply take_drop.
  - intros pre' post' Hline. rewrite take_length_le by lia.
    destruct (decide (String.length pre' ≤ n)%nat) as [|Hgt]; [done|].
    assert (HasPrefix (drop (String.length pre') line) "</a>" = true) as Hocc.
    { rewrite Hline, drop_app_length. apply HasPrefix_app. }
    rewrite Hlast in Hocc; [done|]. split; [lia|].
    rewrite Hline, length_app. lia.
  - rewrite Hauthor, <-drop_drop, Hpost. done.
Qed.

Lemma listing_author_after_last_close_tag_witness :
  ∃ pre post : string,
    sampleRow "  Alice" = pre +:+ "</a>" +:+ post
    ∧ (∀ pre' post', sampleRow "  Alice" = pre' +:+ "</a>" +:+ post' →
         (String.length pre' ≤ String.length pre)%nat)
    ∧ "Alice" = TrimSpace post.
Proof.
  apply (listing_author_after_last_close_tag (sampleRow "  Alice") "git"
           {| ID := "42"; Subject := "Fix bug"; Author := "Alice";
              Date := "2026-02-24"; List := "git" |}).
  vm_compute. reflexivity.
Defined.

(** C5 as stated fails: a pagination label at the end of a row stays in
    the author. *)
Lemma listing_author_counterexample :
  ¬ (∀ line listName msg,
       parseLine line listName = Some msg → Author msg = author_as_specified line).
Proof.
  intros H.
  specialize (H (sampleRow "  Alice Next") "git"
                {| ID := "42"; Subject := "Fix bug"; Author := "Alice Next";
                   Date := "2026-02-24"; List := "git" |}).
  vm_compute in H. specialize (H eq_refl). discriminate.
Qed.

End listing_author.


Global Arguments strings.HasPrefix : simpl never.
Global Arguments strings.Index : simpl never.
Global Arguments strings.TrimSpace : simpl never.
Global Arguments extractListName : simpl never.
Global Arguments extractCategory : simpl never.
Global Arguments getAttr : simpl never.

Section catalog.

Lemma catalogWalk_flatten (n : Node) :
  ∀ st, catalogWalk n st = foldl catalogStep st (flatten n).
Proof.
  induction n as [t d a children IH] using Node_forall_ind. intros st.
  cbn [catalogWalk flatten foldl]. fold (catalogStep st (MkNode t d a children)).
  generalize (catalogStep st (MkNode t d a children)). clear st.
  induction IH as [|c children Hc _ IHchildren]; intros st; [done|].
  cbn [foldl map concat]. rewrite foldl_app, <-Hc. apply IHchildren.
Qed.

Lemma visitCategory_lists n st : lists (visitCategory n st) = lists st.
Proof.
  unfold visitCategory. destruct (isElement n "dt"); [|done].
  by destruct (negb _).
Qed.

Lemma visitCategory_category n st :
  currentCategory (visitCategory n st)
  = default (currentCategory st) (categoryHeader n).
Proof.
  unfold visitCategory, categoryHeader. destruct (isElement n "dt"); [|done].
  by destruct (String.eqb _ "").
Qed.

Lemma listLink_not_header n name : listLink n = Some name → isElement n "dt" = false.
Proof.
  unfold listLink, isElement.
  destruct (bool_decide _); simpl; [|done].
  destruct (String.eqb_spec (Data n) "a") as [->|]; done.
Qed.

Lemma visitLink_spec n st :
  visitLink n st
  = {| lists := lists st ++
                  match listLink n with
                  | Some name => [ {| Name := name; Category := currentCategory st |} ]
                  | None => []
                  end;
       currentCategory := currentCategory st |}.
Proof.
  unfold visitLink, listLink. destruct st as [ls cat]; simpl.
  destruct (isElement n "a"); simpl; [|by rewrite app_nil_r].
  destruct (strings.HasPrefix (getAttr n "href") "?l="); simpl;
    [|by rewrite app_nil_r].
  destruct (String.eqb (extractListName (getAttr n "href")) "");
    simpl; [by rewrite app_nil_r|done].
Qed.

Lemma nearestCategory_snoc seen n :
  nearestCategory (seen ++ [n])
  = default (nearestCategory seen) (categoryHeader n).
Proof.
  unfold nearestCategory. rewrite omap_app. csimpl.
  destruct (categoryHeader n) as [c|]; simpl.
  - by rewrite last_snoc.
  - by rewrite app_nil_r.
Qed.

Lemma foldl_catalogStep (nodes seen : list Node) (st : catalogState) :
  currentCategory st = nearestCategory seen →
  lists (foldl catalogStep st nodes) = lists st ++ catalogOf seen nodes.
Proof.
  revert seen st. induction nodes as [|n nodes IH]; intros seen st Hcat; simpl.
  - by rewrite app_nil_r.
  - rewrite (IH (seen ++ [n])).
    + unfold catalogStep. rewrite visitLink_spec. cbn [lists].
      rewrite visitCategory_lists.
      destruct (listLink n) as [name|] eqn:Hlink.
      * unfold visitCategory. rewrite (listLink_not_header _ _ Hlink).
        rewrite Hcat, <-app_assoc. done.
      * by rewrite app_nil_r.
    + unfold catalogStep. rewrite visitLink_spec. cbn [currentCategory].
      by rewrite visitCategory_category, nearestCategory_snoc, Hcat.
Qed.

(** C6, as the code has it: one record per list-selection link, in
    document order, and the category of each is the text of the nearest
    preceding category header that has a text, or [""] when there is
    none. *)
Theorem catalog_nearest_preceding_category (doc : Node) :
  extractMailingLists doc = catalogOf [] (flatten doc).
Proof.
  unfold extractMailingLists. rewrite catalogWalk_flatten.
  by rewrite (foldl_catalogStep _ []).
Qed.

(** C6 as stated fails: a group-marker header without text does not
    reset the category. *)
Lemma catalog_counterexample :
  ¬ (∀ doc, extractMailingLists doc = catalog_as_specified [] (flatten doc)).
Proof.
  intros H. specialize (H catalogWithEmptyHeader).
  vm_compute in H. discriminate.
Qed.

Example catalog_with_empty_header :
  extractMailingLists catalogWithEmptyHeader
  = [ {| Name := "git"; Category := "Development" |};
      {| Name := "linux-kernel"; Category := "Development" |} ].
Proof. vm_compute. reflexivity. Qed.

End catalog.

Section message.

Example parseMessage_sample :
  parseMessageFrom messagePage "git" "42"
  = {| Msg := {| ID := "42"; Subject := "Fix bug"; Author := "Alice"; Date := "";
                 List := "git" |};
       Body := "The body.";
       Headers := Some (<["X-Mailer" := "mutt"]>
                         (<["Subject" := "Fix bug"]> (<["From" := "Alice"]> ∅))) |}.
Proof. vm_compute. reflexivity. Qed.








End message.

Section json_facts.
Import json.

Lemma app_assoc_s (a b c : string) : (a +:+ b) +:+ c = a +:+ b +:+ c.
Proof. induction a as [|x a IH]; [done|]. by rewrite !app_cons, IH. Qed.

Lemma app_nil_r_s (a : string) : a +:+ "" = a.
Proof. induction a as [|x a IH]; [done|]. by rewrite app_cons, IH. Qed.

Lemma high_not_special (c : ascii) :
  (code c <? 128)%N = false →
  Ascii.eqb c quoteChar = false ∧ Ascii.eqb c backslash = false
  ∧ (code c <? 32)%N = false.
Proof.
  intros H. apply N.ltb_ge in H. repeat split.
  - destruct (Ascii.eqb_spec c quoteChar) as [->|]; [|done]. vm_compute in H. done.
  - destruct (Ascii.eqb_spec c backslash) as [->|]; [|done]. vm_compute in H. done.
  - apply N.ltb_ge. lia.
Qed.

Lemma ok2_high c0 c1 : ok2 c0 c1 = true → (code c0 <? 128)%N = false.
Proof.
  unfold ok2, between. intros H. apply N.ltb_ge.
  apply andb_prop in H as [H _]. apply andb_prop in H as [H _].
  apply N.leb_le in H. lia.
Qed.

Lemma ok3_not_ok2 c0 c1 c2 : ok3 c0 c1 c2 = true → ok2 c0 c1 = false.
Proof.
  unfold ok3, ok2, between. intros H.
  apply andb_prop in H as [H _]. apply andb_prop in H as [H _].
  apply andb_prop in H as [H _]. apply N.leb_le in H.
  apply andb_false_intro1, andb_false_intro2, N.leb_gt. lia.
Qed.

Lemma ok4_not_ok2 c0 c1 c2 c3 : ok4 c0 c1 c2 c3 = true → ok2 c0 c1 = false.
Proof.
  unfold ok4, ok2, between. intros H.
  apply andb_prop in H as [H _]. apply andb_prop in H as [H _].
  apply andb_prop in H as [H _]. apply andb_prop in H as [H _]. apply N.leb_le in H.
  apply andb_false_intro1, andb_false_intro2, N.leb_gt. lia.
Qed.

Lemma ok4_not_ok3 c0 c1 c2 c3 : ok4 c0 c1 c2 c3 = true → ok3 c0 c1 c2 = false.
Proof.
  unfold ok4, ok3, between. intros H.
  apply andb_prop in H as [H _]. apply andb_prop in H as [H _].
  apply andb_prop in H as [H _]. apply andb_prop in H as [H _]. apply N.leb_le in H.
  apply andb_false_intro1, andb_false_intro1, andb_false_intro2, N.leb_gt. lia.
Qed.

(** **** The decoder on the pieces the encoder writes *)

Lemma scan_badByte p ms acc X :
  scan (Str p ms acc) (badByte +:+ X) = scan (Str p ms (acc +:+ replacement)) X.
Proof. reflexivity. Qed.

Lemma scan_high c X p ms acc :
  (code c <? 128)%N = false →
  scan (Str p ms acc) (String c X)
  = match X with
    | EmptyString => None
    | String c1 s2 =>
        if ok2 c c1 then scan (Str p ms (acc +:+ String c (String c1 ""))) s2
        else match s2 with
             | EmptyString => scan (Str p ms (acc +:+ replacement)) X
             | String c2 s3 =>
                 if ok3 c c1 c2
                 then scan (Str p ms (acc +:+ String c (String c1 (String c2 "")))) s3
                 else match s3 with
                      | EmptyString => scan (Str p ms (acc +:+ replacement)) X
                      | String c3 s4 =>
                          if ok4 c c1 c2 c3
                          then scan (Str p ms (acc +:+ String c (String c1 (String c2 (String c3 ""))))) s4
                          else scan (Str p ms (acc +:+ replacement)) X
                      end
             end
    end.
Proof.
  intros H. destruct (high_not_special c H) as (Hq & Hb & Hc).
  cbn [scan]. rewrite Hq, Hb, Hc, H. reflexivity.
Qed.

Lemma scan_ok2 c0 c1 X p ms acc :
  ok2 c0 c1 = true →
  scan (Str p ms acc) (String c0 (String c1 X))
  = scan (Str p ms (acc +:+ String c0 (String c1 ""))) X.
Proof.
  intros H. rewrite scan_high by (by eapply ok2_high). by rewrite H.
Qed.

Lemma ok3_high c0 c1 c2 : ok3 c0 c1 c2 = true → (code c0 <? 128)%N = false.
Proof.
  unfold ok3, between. intros H. apply N.ltb_ge.
  apply andb_prop in H as [H _]. apply andb_prop in H as [H _].
  apply andb_prop in H as [H _]. apply N.leb_le in H. lia.
Qed.

Lemma ok4_high c0 c1 c2 c3 : ok4 c0 c1 c2 c3 = true → (code c0 <? 128)%N = false.
Proof.
  unfold ok4, between. intros H. apply N.ltb_ge.
  apply andb_prop in H as [H _]. apply andb_prop in H as [H _].
  apply andb_prop in H as [H _]. apply andb_prop in H as [H _]. apply N.leb_le in H. lia.
Qed.

Lemma scan_ok3 c0 c1 c2 X p ms acc :
  ok3 c0 c1 c2 = true →
  scan (Str p ms acc) (String c0 (String c1 (String c2 X)))
  = scan (Str p ms (acc +:+ String c0 (String c1 (String c2 "")))) X.
Proof.
  intros H. rewrite scan_high by (by eapply ok3_high).
  by rewrite (ok3_not_ok2 _ _ _ H), H.
Qed.

Lemma scan_ok4 c0 c1 c2 c3 X p ms acc :
  ok4 c0 c1 c2 c3 = true →
  scan (Str p ms acc) (String c0 (String c1 (String c2 (String c3 X))))
  = scan (Str p ms (acc +:+ String c0 (String c1 (String c2 (String c3 ""))))) X.
Proof.
  intros H. rewrite scan_high by (by eapply ok4_high).
  by rewrite (ok4_not_ok2 _ _ _ _ H), (ok4_not_ok3 _ _ _ _ H), H.
Qed.

Lemma scan_lineSep c0 c1 c2 X p ms acc :
  isLineSep c0 c1 c2 = true →
  scan (Str p ms acc)
       (String backslash ("u202" +:+ String (hexDigit (code c2 mod 16)) "") +:+ X)
  = scan (Str p ms (acc +:+ String c0 (String c1 (String c2 "")))) X.
Proof.
  unfold isLineSep. intros H.
  apply andb_prop in H as [H H2]. apply andb_prop in H as [H0 H1].
  apply N.eqb_eq in H0, H1.
  assert (c0 = chr 226) as -> by (unfold code in H0; by rewrite <-H0, ascii_N_embedding).
  assert (c1 = chr 128) as -> by (unfold code in H1; by rewrite <-H1, ascii_N_embedding).
  apply orb_prop in H2 as [H2|H2]; apply N.eqb_eq in H2.
  - assert (c2 = chr 168) as -> by (unfold code in H2; by rewrite <-H2, ascii_N_embedding).
    reflexivity.
  - assert (c2 = chr 169) as -> by (unfold code in H2; by rewrite <-H2, ascii_N_embedding).
    reflexivity.
Qed.

Lemma scan_escapeByte c X p ms acc :
  (code c <? 128)%N = true →
  scan (Str p ms acc) (escapeByte c +:+ X) = scan (Str p ms (acc +:+ String c "")) X.
Proof.
  intros Hlt. unfold escapeByte. destruct (htmlSafe c) eqn:Hsafe.
  - unfold htmlSafe in Hsafe.
    repeat (apply andb_prop in Hsafe as [Hsafe ?]).
    rewrite app_cons, app_nil_l. cbn [scan].
    repeat match goal with H : negb _ = true |- _ => apply negb_true_iff in H end.
    replace (Ascii.eqb c quoteChar) with false by done.
    replace (Ascii.eqb c backslash) with false by done.
    apply N.leb_le in Hsafe.
    replace (code c <? 32)%N with false by (symmetry; apply N.ltb_ge; lia).
    by rewrite Hlt.
  - destruct c as [[] [] [] [] [] [] [] []];
      try (vm_compute in Hsafe; discriminate Hsafe);
      try (vm_compute in Hlt; discriminate Hlt);
      reflexivity.
Qed.

Lemma appendString_cons c0 s1 :
  appendString (String c0 s1)
  = if (code c0 <? 128)%N then escapeByte c0 +:+ appendString s1
    else match s1 with
         | EmptyString => badByte
         | String c1 s2 =>
             if ok2 c0 c1 then String c0 (String c1 (appendString s2))
             else match s2 with
                  | EmptyString => badByte +:+ appendString s1
                  | String c2 s3 =>
                      if ok3 c0 c1 c2 then
                        (if isLineSep c0 c1 c2
                         then String backslash ("u202" +:+ String (hexDigit (code c2 mod 16)) "")
                         else String c0 (String c1 (String c2 "")))
                        +:+ appendString s3
                      else match s3 with
                           | EmptyString => badByte +:+ appendString s1
                           | String c3 s4 =>
                               if ok4 c0 c1 c2 c3
                               then String c0 (String c1 (String c2 (String c3 (appendString s4))))
                               else badByte +:+ appendString s1
                           end
                  end
         end.
Proof. reflexivity. Qed.

Lemma coerce_cons c0 s1 :
  coerce (String c0 s1)
  = if (code c0 <? 128)%N then String c0 (coerce s1)
    else match s1 with
         | EmptyString => replacement
         | String c1 s2 =>
             if ok2 c0 c1 then String c0 (String c1 (coerce s2))
             else match s2 with
                  | EmptyString => replacement +:+ coerce s1
                  | String c2 s3 =>
                      if ok3 c0 c1 c2 then String c0 (String c1 (String c2 (coerce s3)))
                      else match s3 with
                           | EmptyString => replacement +:+ coerce s1
                           | String c3 s4 =>
                               if ok4 c0 c1 c2 c3
                               then String c0 (String c1 (String c2 (String c3 (coerce s4))))
                               else replacement +:+ coerce s1
                           end
                  end
         end.
Proof. reflexivity. Qed.

Lemma scan_quote p ms acc X :
  scan (Str p ms acc) (String quoteChar X) = scan (endString p ms acc) X.
Proof. reflexivity. Qed.

(** The decoder reads a string the encoder wrote as the coerced string. *)
Lemma scan_appendString_lt (n : nat) :
  ∀ s, (String.length s < n)%nat →
  ∀ p ms acc X,
    scan (Str p ms acc) (appendString s +:+ String quoteChar X)
    = scan (endString p ms (acc +:+ coerce s)) X.
Proof.
  induction n as [|n IH]; intros s Hlen p ms acc X; [lia|].
  destruct s as [|c0 s1].
  { change (appendString "") with "". rewrite app_nil_l, scan_quote.
    change (coerce "") with "". by rewrite app_nil_r_s. }
  simpl in Hlen. rewrite appendString_cons, coerce_cons.
  assert (Hbad : ∀ t, (String.length t < n)%nat →
            scan (Str p ms acc) ((badByte +:+ appendString t) +:+ String quoteChar X)
            = scan (endString p ms (acc +:+ replacement +:+ coerce t)) X).
  { intros t Ht. rewrite app_assoc_s, scan_badByte, IH by done. by rewrite app_assoc_s. }
  destruct (code c0 <? 128)%N eqn:Hlt.
  { rewrite app_assoc_s, scan_escapeByte, IH by (done || lia).
    by rewrite app_assoc_s. }
  destruct s1 as [|c1 s2].
  { rewrite scan_badByte, scan_quote. done. }
  simpl in Hlen.
  destruct (ok2 c0 c1) eqn:H2.
  { rewrite !app_cons, scan_ok2, IH by (done || lia). by rewrite app_assoc_s. }
  destruct s2 as [|c2 s3].
  { apply Hbad. simpl. lia. }
  simpl in Hlen.
  destruct (ok3 c0 c1 c2) eqn:H3.
  { rewrite app_assoc_s. destruct (isLineSep c0 c1 c2) eqn:Hsep.
    - rewrite (scan_lineSep c0 c1 c2), IH by (done || lia). by rewrite app_assoc_s.
    - rewrite !app_cons, app_nil_l, scan_ok3, IH by (done || lia). by rewrite app_assoc_s. }
  destruct s3 as [|c3 s4].
  { apply Hbad. simpl. lia. }
  simpl in Hlen.
  destruct (ok4 c0 c1 c2 c3) eqn:H4.
  { rewrite !app_cons, scan_ok4, IH by (done || lia). by rewrite app_assoc_s. }
  apply Hbad. simpl. lia.
Qed.

Lemma scan_appendString s p ms acc X :
  scan (Str p ms acc) (appendString s +:+ String quoteChar X)
  = scan (endString p ms (acc +:+ coerce s)) X.
Proof. apply (scan_appendString_lt (S (String.length s))). lia. Qed.

(** A valid string comes back as it is. *)
Lemma coerce_valid_lt (n : nat) :
  ∀ s, (String.length s < n)%nat → ValidString s = true → coerce s = s.
Proof.
  induction n as [|n IH]; intros s Hlen Hv; [lia|].
  destruct s as [|c0 s1]; [done|].
  simpl in Hlen. rewrite coerce_cons. cbn [ValidString] in Hv.
  destruct (code c0 <? 128)%N; [by rewrite IH by (done || lia)|].
  destruct s1 as [|c1 s2]; [done|]. simpl in Hlen.
  destruct (ok2 c0 c1); [by rewrite IH by (done || lia)|].
  destruct s2 as [|c2 s3]; [done|]. simpl in Hlen.
  destruct (ok3 c0 c1 c2); [by rewrite IH by (done || lia)|].
  destruct s3 as [|c3 s4]; [done|]. simpl in Hlen.
  destruct (ok4 c0 c1 c2 c3); [by rewrite IH by (done || lia)|done].
Qed.

Lemma coerce_valid s : ValidString s = true → coerce s = s.
Proof. apply (coerce_valid_lt (S (String.length s))). lia. Qed.

(** **** Objects *)

Lemma quote_app s Y :
  quote s +:+ Y = String quoteChar (appendString s +:+ String quoteChar Y).
Proof. unfold quote. by rewrite app_cons, app_assoc_s, app_cons, app_nil_l. Qed.

Lemma scan_member ms kv X :
  scan (Key ms) (member kv +:+ X) = scan (Next (ms ++ [coerceMember kv])) X.
Proof.
  unfold member. rewrite !app_assoc_s, quote_app.
  change (scan (Key ms) (String quoteChar ?Y)) with (scan (Str InKey ms "") Y).
  rewrite scan_appendString, app_nil_l. cbn [endString].
  rewrite app_cons, app_nil_l.
  change (scan (Colon ms ?k) (String ":" ?Y)) with (scan (Elem ms k) Y).
  rewrite quote_app.
  change (scan (Elem ms ?k) (String quoteChar ?Y)) with (scan (Str (InValue k) ms "") Y).
  by rewrite scan_appendString, app_nil_l.
Qed.

Lemma scan_members kv kvs ms :
  scan (Key ms) (strings.Join (member <$> kv :: kvs) "," +:+ "}")
  = Some (Some (ms ++ (coerceMember <$> kv :: kvs))).
Proof.
  revert kv ms. induction kvs as [|kv' kvs IH]; intros kv ms.
  - change (strings.Join (member <$> [kv]) ",") with (member kv).
    rewrite scan_member. reflexivity.
  - change (strings.Join (member <$> kv :: kv' :: kvs) ",")
      with (member kv +:+ "," +:+ strings.Join (member <$> kv' :: kvs) ",").
    rewrite !app_assoc_s, scan_member, app_cons, app_nil_l.
    change (scan (Next ?ms') (String "," ?Y)) with (scan (Key ms') Y).
    rewrite IH, <-(assoc_L (++)). reflexivity.
Qed.

Lemma scan_ObjOpen_member kv Z :
  scan ObjOpen (member kv +:+ Z) = scan (Key []) (member kv +:+ Z).
Proof. unfold member. rewrite !app_assoc_s, quote_app. reflexivity. Qed.

Lemma scan_object kvs :
  scan Value ("{" +:+ strings.Join (member <$> kvs) "," +:+ "}")
  = Some (Some (coerceMember <$> kvs)).
Proof.
  destruct kvs as [|kv kvs]; [reflexivity|].
  rewrite app_cons, app_nil_l.
  change (scan Value (String "{" ?Y)) with (scan ObjOpen Y).
  transitivity (scan (Key []) (strings.Join (member <$> kv :: kvs) "," +:+ "}"));
    [|by rewrite scan_members].
  destruct kvs as [|kv' kvs].
  - change (strings.Join (member <$> [kv]) ",") with (member kv).
    apply scan_ObjOpen_member.
  - change (strings.Join (member <$> kv :: kv' :: kvs) ",")
      with (member kv +:+ "," +:+ strings.Join (member <$> kv' :: kvs) ",").
    rewrite !app_assoc_s. apply scan_ObjOpen_member.
Qed.

(** What comes back from the stored text of a map. *)
Lemma Unmarshal_Marshal (headers : option (gmap string string)) :
  Unmarshal (Marshal headers) = Some (coerceHeaders headers).
Proof.
  destruct headers as [m|]; [|reflexivity].
  unfold Unmarshal, Marshal. by rewrite scan_object.
Qed.

Lemma toMap_list_to_map (ms : members) : toMap ms = list_to_map (reverse ms).
Proof.
  unfold toMap. induction ms as [|kv ms IH] using rev_ind; [done|].
  rewrite foldl_snoc, reverse_snoc, IH. by destruct kv.
Qed.

Lemma toMap_sorted (m : gmap string string) :
  toMap (merge_sort keyLe (map_to_list m)) = m.
Proof.
  rewrite toMap_list_to_map. rewrite <-(list_to_map_to_list m) at 2.
  apply list_to_map_proper.
  - rewrite reverse_Permutation, merge_sort_Permutation. apply NoDup_fst_map_to_list.
  - by rewrite reverse_Permutation, merge_sort_Permutation.
Qed.

(** Valid headers come back verbatim. *)
Lemma coerceHeaders_valid (headers : option (gmap string string)) :
  validHeaders headers → coerceHeaders headers = headers.
Proof.
  destruct headers as [m|]; [|done]. unfold validHeaders, coerceHeaders. intros Hv.
  f_equal. rewrite <-(toMap_sorted m) at 2. f_equal.
  rewrite <-(list_fmap_id (merge_sort keyLe (map_to_list m))) at 2.
  apply Forall_fmap_ext_1. apply Forall_forall. intros [k v] Hkv.
  rewrite merge_sort_Permutation in Hkv. apply elem_of_map_to_list in Hkv.
  destruct (Hv k v Hkv) as [Hk Hvv]. unfold coerceMember. simpl.
  by rewrite !coerce_valid.
Qed.

End json_facts.

Section cache_basics.
Import sqlite cache.

Lemma SetMailingLists_content c now lists :
  message_content (db (SetMailingLists c now lists)) = message_content (db c)
  ∧ messages_fts (db (SetMailingLists c now lists)) = messages_fts (db c)
  ∧ recursive_triggers (db (SetMailingLists c now lists)) = recursive_triggers (db c).
Proof.
  unfold SetMailingLists. cbn [db with_db]. generalize (db c) as d. clear c.
  induction lists as [|x lists IH]; intros d; [done|]. simpl.
  destruct (IH (replace_mailing_list
                  {| ml_name := Name x; ml_category := Category x;
                     ml_updated_at := Unix now |} d)) as (-> & -> & ->).
  done.
Qed.

Lemma SetMessages_content c now msgs :
  message_content (db (SetMessages c now msgs)) = message_content (db c)
  ∧ messages_fts (db (SetMessages c now msgs)) = messages_fts (db c)
  ∧ recursive_triggers (db (SetMessages c now msgs)) = recursive_triggers (db c).
Proof.
  unfold SetMessages. destruct (length msgs =? 0)%nat; [done|].
  cbn [db with_db]. generalize (db c) as d. clear c.
  induction msgs as [|x msgs IH]; intros d; [done|]. simpl.
  destruct (IH (replace_message
                  {| ms_id := ID x; ms_list := List x; ms_subject := Subject x;
                     ms_author := Author x; ms_date := Date x;
                     ms_updated_at := Unix now |} d)) as (-> & -> & ->).
  done.
Qed.

(** Whatever was stored decodes: every state of the store has decodable
    headers. *)
Lemma reachable_headersDecodable (c : Cache) : reachable c → headersDecodable c.
Proof.
  unfold headersDecodable.
  induction 1 as [TTL|c now lists _ IH|c now msgs _ IH|c now m _ IH|c now _ IH].
  - constructor.
  - by destruct (SetMailingLists_content c now lists) as (-> & _).
  - by destruct (SetMessages_content c now msgs) as (-> & _).
  - unfold SetMessageContent, replace_message_content. cbn [db with_db message_content].
    apply Forall_app. split.
    + rewrite Forall_forall in IH. apply Forall_forall.
      intros r [_ Hr]%list_elem_of_filter. by apply IH.
    + constructor; [|constructor]. cbn [mc_headers].
      rewrite Unmarshal_Marshal. eauto.
  - unfold Cleanup, delete_expired. cbn [db with_db message_content].
    rewrite Forall_forall in IH. apply Forall_forall.
    intros r [_ Hr]%list_elem_of_filter. by apply IH.
Qed.

End cache_basics.

Section cache_get.
Import sqlite cache.

Lemma length_merge_sort {A} (R : relation A) `{∀ x y, Decision (R x y)} (l : list A) :
  length (merge_sort R l) = length l.
Proof. apply Permutation_length, merge_sort_Permutation. Qed.

Lemma GetMailingLists_found (c : Cache) (now : Z) :
  (GetMailingLists c now).2 = true
  ↔ ∃ r, r ∈ mailing_lists (db c) ∧ cutoff c now < ml_updated_at r.
Proof.
  unfold GetMailingLists.
  rewrite length_fmap, length_merge_sort.
  destruct (filter _ (mailing_lists (db c))) as [|r rows] eqn:Hf; simpl.
  - split; [done|]. intros (r & Hr & Hfresh).
    assert (r ∈ filter (λ r, cutoff c now < ml_updated_at r) (mailing_lists (db c)))
      as Hin by (apply list_elem_of_filter; done).
    rewrite Hf in Hin. by apply elem_of_nil in Hin.
  - split; [|done]. intros _. exists r.
    assert (r ∈ filter (λ r, cutoff c now < ml_updated_at r) (mailing_lists (db c))) as Hin
      by (rewrite Hf; left).
    apply list_elem_of_filter in Hin. tauto.
Qed.

Lemma GetMessageContent_found (c : Cache) (now : Z) (listName id : string) :
  headersDecodable c →
  (GetMessageContent c now listName id).2 = true
  ↔ ∃ r, r ∈ message_content (db c) ∧ mc_id r = id ∧ mc_list r = listName
         ∧ cutoff c now < mc_updated_at r.
Proof.
  intros Hdec. unfold GetMessageContent, selectMessageContent.
  destruct (list_find _ (message_content (db c))) as [[i r]|] eqn:Hfind; simpl.
  - apply list_find_Some in Hfind as (Hi & HP & _).
    apply list_elem_of_lookup_2 in Hi.
    unfold headersDecodable in Hdec. rewrite Forall_forall in Hdec.
    destruct (Hdec r Hi) as [hs ->]. simpl. split; [|done].
    intros _. exists r. tauto.
  - split; [done|]. intros (r & Hr & Hkey).
    apply list_find_None in Hfind. rewrite Forall_forall in Hfind.
    destruct (Hfind r Hr). tauto.
Qed.

Lemma cutoff_whole_seconds (c : Cache) (now ts n k : Z) :
  now = n * second → ttl c = k * second → (cutoff c now < ts ↔ n - ts < k).
Proof.
  intros -> Hk. unfold cutoff, Unix. rewrite Hk.
  replace (n * second - k * second) with ((n - k) * second) by lia.
  rewrite Z.div_mul by done. lia.
Qed.

(** C3, as the code has it: [get] finds a key exactly when the store has a
    row for it whose timestamp is after the cutoff, the second of
    [now − TTL]; for a clock and a TTL in whole seconds that is an age
    strictly below the TTL, so a row whose age equals the TTL is not
    found. The catalog is found exactly when one of its rows is that
    fresh. *)
Theorem get_found_iff_fresh (c : Cache) (now : Z) (listName id : string) :
  headersDecodable c →
  ((GetMessageContent c now listName id).2 = true
     ↔ ∃ r, r ∈ message_content (db c) ∧ mc_id r = id ∧ mc_list r = listName
            ∧ cutoff c now < mc_updated_at r)
  ∧ ((GetMailingLists c now).2 = true
       ↔ ∃ r, r ∈ mailing_lists (db c) ∧ cutoff c now < ml_updated_at r)
  ∧ (∀ ts n k, now = n * second → ttl c = k * second →
       (cutoff c now < ts ↔ n - ts < k)).
Proof.
  intros Hdec. split; [by apply GetMessageContent_found|].
  split; [apply GetMailingLists_found|].
  intros ts n k. apply cutoff_whole_seconds.
Qed.

Lemma sampleCache_decodable : headersDecodable sampleCache.
Proof.
  apply reachable_headersDecodable. repeat constructor.
Qed.

Lemma get_found_iff_fresh_witness :
  ((GetMessageContent sampleCache (1001 * second) "git" "42").2 = true
     ↔ ∃ r, r ∈ message_content (db sampleCache) ∧ mc_id r = "42" ∧ mc_list r = "git"
            ∧ cutoff sampleCache (1001 * second) < mc_updated_at r)
  ∧ ((GetMailingLists sampleCache (1001 * second)).2 = true
       ↔ ∃ r, r ∈ mailing_lists (db sampleCache)
              ∧ cutoff sampleCache (1001 * second) < ml_updated_at r)
  ∧ (∀ ts n k, 1001 * second = n * second → ttl sampleCache = k * second →
       (cutoff sampleCache (1001 * second) < ts ↔ n - ts < k)).
Proof.
  apply (get_found_iff_fresh sampleCache (1001 * second) "git" "42").
  exact sampleCache_decodable.
Defined.

(** C3 as stated fails: a row whose age is exactly the TTL is live in the
    sense of the specification and is not found. *)
Lemma get_found_counterexample :
  ¬ (∀ c now listName id,
       headersDecodable c →
       ((GetMessageContent c now listName id).2 = true
          ↔ ∃ r, r ∈ message_content (db c) ∧ mc_id r = id ∧ mc_list r = listName
                 ∧ live c now (mc_updated_at r))).
Proof.
  intros H.
  destruct (H sampleCache (1000 * second + hour) "git" "42" sampleCache_decodable)
    as [_ Hfound].
  assert ((GetMessageContent sampleCache (1000 * second + hour) "git" "42").2 = false)
    as Hmiss by (vm_compute; reflexivity).
  rewrite Hfound in Hmiss; [done|].
  eexists. split; [|split; [|split]].
  - vm_compute message_content. left.
  - reflexivity.
  - reflexivity.
  - vm_compute. discriminate.
Qed.

(** The expiry test of the package: found right after the write, not
    found three seconds later with a TTL of two. *)
Example ttl_expiration :
  let c := SetMailingLists (New (2 * second)) (1000 * second)
             [ {| Name := "test"; Category := "Test" |} ] in
  (GetMailingLists c (1000 * second)).2 = true
  ∧ (GetMailingLists c (1003 * second)).2 = false.
Proof. split; vm_compute; reflexivity. Qed.

(** The month filter test of the package. *)
Example filters_by_month :
  let c := SetMessages (New hour) (1000 * second)
             [ mkMessage "300" "test" "Feb message" "Author" "2026-02-15";
               mkMessage "301" "test" "Jan message" "Author" "2026-01-15" ] in
  GetMessages c (1001 * second) "test" "202602"
  = Returns ([ mkMessage "300" "test" "Feb message" "Author" "2026-02-15" ], true).
Proof. vm_compute. reflexivity. Qed.

End cache_get.

Section cache_month.
Import sqlite cache.

Lemma length_appendInt_4 (y : Z) : 0 ≤ y ≤ 9999 → String.length (appendInt y 4) = 4%nat.
Proof.
  intros Hy.
  assert (forallb (λ y, (String.length (appendInt y 4) =? 4)%nat) (seqZ 0 10000) = true)
    as Hall by (vm_compute; reflexivity).
  rewrite forallb_forall in Hall.
  apply Nat.eqb_eq, Hall, list_elem_of_In, elem_of_seqZ. lia.
Qed.

Lemma length_appendInt_2 (m : Z) : 1 ≤ m ≤ 12 → String.length (appendInt m 2) = 2%nat.
Proof.
  intros Hm.
  assert (forallb (λ m, (String.length (appendInt m 2) =? 2)%nat) (seqZ 1 12) = true)
    as Hall by (vm_compute; reflexivity).
  rewrite forallb_forall in Hall.
  apply Nat.eqb_eq, Hall, list_elem_of_In, elem_of_seqZ. lia.
Qed.

Lemma length_Format200601 (t : Time) :
  0 ≤ Year t ≤ 9999 → 1 ≤ Month t ≤ 12 → String.length (Format200601 t) = 6%nat.
Proof.
  intros Hy Hm. unfold Format200601.
  rewrite length_app, length_appendInt_4, length_appendInt_2; done.
Qed.

Lemma GetMessages_panics (c : Cache) (now : Z) (listName month : string) :
  GetMessages c now listName month = Panics
  ↔ month ≠ "" ∧ (String.length month < 4)%nat.
Proof.
  unfold GetMessages, datePrefix.
  destruct (String.eqb_spec month "") as [->|Hne]; simpl.
  - split; [done|]. by intros [? _].
  - destruct (Nat.ltb_spec (String.length month) 4); split; try done.
    intros [_ ?]. lia.
Qed.

(** C10: [GetMessages] panics exactly on a month that is not empty and
    shorter than four bytes, and returns otherwise; the month the client
    puts in for an empty one has six bytes (for a year of four digits), so
    the client's default never panics. *)
Theorem GetMessages_panics_iff_short_month
    (c : Cache) (now : Z) (listName month : string) (t : Time) :
  0 ≤ Year t ≤ 9999 → 1 ≤ Month t ≤ 12 →
  (GetMessages c now listName month = Panics
     ↔ month ≠ "" ∧ (String.length month < 4)%nat)
  ∧ ((month = "" ∨ (4 ≤ String.length month)%nat)
       → ∃ r, GetMessages c now listName month = Returns r)
  ∧ String.length (Format200601 t) = 6%nat
  ∧ (∀ upstream opts w,
       opt_Month opts = "" →
       ListMessagesWithOptions upstream t opts w ≠ Panics).
Proof.
  intros Hy Hm. split; [apply GetMessages_panics|]. split; [|split].
  - intros Hok. destruct (GetMessages c now listName month) as [r|] eqn:E; [eauto|].
    apply GetMessages_panics in E as [Hne Hlt]. destruct Hok; [done|lia].
  - by apply length_Format200601.
  - intros upstream opts w Hmonth. unfold ListMessagesWithOptions.
    rewrite Hmonth. simpl.
    destruct (_ && _); [|done].
    destruct (GetMessages _ _ _ _) as [[cached [|]]|] eqn:E; try done.
    apply GetMessages_panics in E as [_ Hlt].
    rewrite length_Format200601 in Hlt by done. lia.
Qed.

Lemma GetMessages_panics_iff_short_month_witness :
  (GetMessages (New hour) 0 "git" "202" = Panics
     ↔ "202" ≠ "" ∧ (String.length "202" < 4)%nat)
  ∧ (("202" = "" ∨ (4 ≤ String.length "202")%nat)
       → ∃ r, GetMessages (New hour) 0 "git" "202" = Returns r)
  ∧ String.length (Format200601 {| UnixNano := 0; Year := 2026; Month := 2 |}) = 6%nat
  ∧ (∀ upstream opts w,
       opt_Month opts = "" →
       ListMessagesWithOptions upstream {| UnixNano := 0; Year := 2026; Month := 2 |}
         opts w ≠ Panics).
Proof.
  apply (GetMessages_panics_iff_short_month (New hour) 0 "git" "202"
           {| UnixNano := 0; Year := 2026; Month := 2 |}); simpl; lia.
Defined.

End cache_month.

Section cache_search.
Import sqlite cache.

Variable fts5 : string → option (list fts_row → fts_row → option Z).

Global Instance byRank_total : Total byRank.
Proof. intros h1 h2. unfold byRank. lia. Qed.

Lemma Sorted_take {A} (R : relation A) (n : nat) (l : list A) :
  Sorted R l → Sorted R (take n l).
Proof.
  intros Hs. revert n. induction Hs as [|x l Hs IH Hhd]; intros [|n]; simpl;
    try constructor; [apply IH|].
  destruct Hhd as [|y l' Hxy]; [destruct n; constructor|].
  destruct n; constructor. done.
Qed.

Lemma Sorted_byRank_fst (hits : list (Z * message_content_row)) :
  Sorted byRank hits → Sorted Z.le (fst <$> hits).
Proof.
  induction 1 as [|h l Hs IH Hhd]; simpl; constructor; [done|].
  destruct Hhd; simpl; constructor. done.
Qed.

Lemma matchJoin_elem (d : DB) score (h : Z * message_content_row) :
  h ∈ matchJoin d score →
  ∃ e, e ∈ messages_fts d ∧ score (messages_fts d) e = Some h.1
       ∧ h.2 ∈ message_content d ∧ mc_rowid h.2 = fts_rowid e.
Proof.
  unfold matchJoin. intros (e & Hh & He)%list_elem_of_bind.
  exists e. split; [done|].
  destruct (score (messages_fts d) e) as [rank|]; [|by apply elem_of_nil in Hh].
  apply list_elem_of_fmap in Hh as (mc & -> & Hmc).
  apply list_elem_of_filter in Hmc as [? ?]. done.
Qed.

Lemma matchJoin_nothing (d : DB) score :
  (∀ e, e ∈ messages_fts d → score (messages_fts d) e = None) → matchJoin d score = [].
Proof.
  unfold matchJoin. intros Hnone.
  assert (∀ l : list fts_row,
            (∀ e, e ∈ l → score (messages_fts d) e = None) →
            (e ← l;
             match score (messages_fts d) e with
             | None => []
             | Some rank =>
                 (λ mc, (rank, mc))
                   <$> filter (λ mc, mc_rowid mc = fts_rowid e) (message_content d)
             end) = []) as Haux.
  { induction l as [|e l IH]; intros Hl; [done|].
    csimpl. rewrite Hl by left. simpl. apply IH. intros e' He'. apply Hl. by right. }
  by apply Haux.
Qed.


Lemma matchJoin_elem_2 (d : DB) score (e : fts_row) (rank : Z) (mc : message_content_row) :
  e ∈ messages_fts d → score (messages_fts d) e = Some rank →
  mc ∈ message_content d → mc_rowid mc = fts_rowid e →
  (rank, mc) ∈ matchJoin d score.
Proof.
  intros He Hscore Hmc Hrow. unfold matchJoin. apply list_elem_of_bind.
  exists e. split; [|done]. rewrite Hscore.
  apply list_elem_of_fmap. exists mc. split; [done|].
  by apply list_elem_of_filter.
Qed.

(** C8, as the code has it: a query the engine rejects returns an error.
    A query it accepts returns, without error, the messages of the first
    100 rows of the ranking: the ranking holds exactly the content rows
    joined to a matching index entry, of the list when a list is given, in
    the order of their rank; so the result has at most 100 entries, and
    none when nothing matches. *)
Theorem search_ranked_capped_scoped (c : Cache) (query listName : string) :
  (fts5 query = None → ∃ e, SearchMessages fts5 c query listName = Err e)
  ∧ (∀ score, fts5 query = Some score →
       ∃ ranking : list (Z * message_content_row),
         (∀ h, h ∈ ranking
               ↔ (∃ e, e ∈ messages_fts (db c)
                       ∧ score (messages_fts (db c)) e = Some h.1
                       ∧ h.2 ∈ message_content (db c) ∧ mc_rowid h.2 = fts_rowid e)
                 ∧ (listName ≠ "" → List (messageOfContent h.2) = listName))
         ∧ Sorted Z.le (fst <$> ranking)
         ∧ SearchMessages fts5 c query listName
           = Ok (messageOfContent ∘ snd <$> take 100 ranking)
         ∧ (length (take 100 ranking) ≤ 100)%nat
         ∧ ((∀ e, e ∈ messages_fts (db c) → score (messages_fts (db c)) e = None)
              → SearchMessages fts5 c query listName = Ok [])).
Proof.
  split.
  { intros Hq. unfold SearchMessages. rewrite Hq. by eexists. }
  intros score Hq. unfold SearchMessages. rewrite Hq.
  set (hits0 := if negb (String.eqb listName "")
                then filter (λ h, mc_list h.2 = listName) (matchJoin (db c) score)
                else matchJoin (db c) score).
  exists (merge_sort byRank hits0). repeat split.
  - rewrite merge_sort_Permutation in H. unfold hits0 in H.
    destruct (negb _); [apply list_elem_of_filter in H as [_ H]|];
      by apply matchJoin_elem.
  - intros Hne. rewrite merge_sort_Permutation in H. unfold hits0 in H.
    destruct (String.eqb_spec listName ""); [done|]. cbn [negb] in H.
    by apply list_elem_of_filter in H as [? _].
  - intros [(e & He & Hscore & Hmc & Hrow) Hlist].
    rewrite merge_sort_Permutation. unfold hits0.
    assert (h ∈ matchJoin (db c) score) as Hin.
    { destruct h as [rank mc]. by apply (matchJoin_elem_2 _ _ e). }
    destruct (String.eqb_spec listName "") as [|Hne]; cbn [negb]; [done|].
    apply list_elem_of_filter. split; [by apply Hlist|done].
  - apply Sorted_byRank_fst, Sorted_merge_sort. apply _.
  - rewrite length_take. lia.
  - intros Hnone. unfold hits0. rewrite (matchJoin_nothing _ _ Hnone).
    by destruct (negb _).
Qed.

End cache_search.

Lemma search_ranked_capped_scoped_witness :
  (∃ e, cache.SearchMessages wordEngine searchScenario "fix AND" "git" = Err e)
  ∧ ∃ ranking : list (Z * sqlite.message_content_row),
      (∀ h, h ∈ ranking
            ↔ (∃ e, e ∈ sqlite.messages_fts (cache.db searchScenario)
                    ∧ default (λ _ _, None) (wordEngine "fix")
                        (sqlite.messages_fts (cache.db searchScenario)) e = Some h.1
                    ∧ h.2 ∈ sqlite.message_content (cache.db searchScenario)
                    ∧ sqlite.mc_rowid h.2 = sqlite.fts_rowid e)
              ∧ ("git" ≠ "" → List (cache.messageOfContent h.2) = "git"))
      ∧ Sorted Z.le (fst <$> ranking)
      ∧ cache.SearchMessages wordEngine searchScenario "fix" "git"
        = Ok (cache.messageOfContent ∘ snd <$> take 100 ranking)
      ∧ (length (take 100 ranking) ≤ 100)%nat
      ∧ ((∀ e, e ∈ sqlite.messages_fts (cache.db searchScenario) →
            default (λ _ _, None) (wordEngine "fix")
              (sqlite.messages_fts (cache.db searchScenario)) e = None)
           → cache.SearchMessages wordEngine searchScenario "fix" "git" = Ok []).
Proof.
  split.
  - apply (proj1 (search_ranked_capped_scoped wordEngine searchScenario "fix AND" "git")).
    reflexivity.
  - apply (proj2 (search_ranked_capped_scoped wordEngine searchScenario "fix" "git")
             (default (λ _ _, None) (wordEngine "fix"))).
    reflexivity.
Defined.

(** C8 as stated fails: not every query returns a result; the engine
    rejects some as syntax errors, and the search then returns an error,
    also when no entry of the index could match. *)
Lemma search_error_counterexample :
  ¬ (∀ (c : cache.Cache) (query listName : string),
       ∃ msgs, cache.SearchMessages wordEngine c query listName = Ok msgs).
Proof.
  intros H. destruct (H searchScenario "fix AND" "") as [msgs Hmsgs].
  vm_compute in Hmsgs. discriminate.
Qed.

(** The search scenario of the specification: of three cached messages the
    two with the word are returned. *)
Example search_scenario :
  cache.SearchMessages wordEngine searchScenario "fix" ""
  = Ok [ mkMessage "1" "git" "Fix buffer overflow" "Alice" "";
         mkMessage "3" "linux-kernel" "Memory leak fix" "Charlie" "" ].
Proof. vm_compute. reflexivity. Qed.

Section index.
Import sqlite cache.

Lemma next_rowid_fresh (rows : list message_content_row) (r : message_content_row) :
  r ∈ rows → mc_rowid r < next_rowid rows.
Proof.
  unfold next_rowid. induction 1 as [r rows|r r' rows _ IH]; csimpl; lia.
Qed.

Lemma fts_deleted (olds : list message_content_row) (index : list fts_row) (e : fts_row) :
  e ∈ foldr messages_fts_delete index olds
  ↔ e ∈ index ∧ ∀ old, old ∈ olds → e ≠ fts_of old.
Proof.
  induction olds as [|old olds IH]; simpl.
  - split; [intros ?; split; [done|]|tauto]. intros old Hold. by apply elem_of_nil in Hold.
  - unfold messages_fts_delete at 1. rewrite list_elem_of_filter, IH. split.
    + intros (Hne & Hin & Holds). split; [done|].
      intros old' [->|?]%elem_of_cons; auto.
    + intros (Hin & Holds). split; [apply Holds; left|].
      split; [done|]. intros old' ?. apply Holds. by right.
Qed.

Lemma fts_of_rowid (r1 r2 : message_content_row) :
  fts_of r1 = fts_of r2 → mc_rowid r1 = mc_rowid r2.
Proof. intros H. by apply (f_equal fts_rowid) in H. Qed.

Lemma rowid_inj (rows : list message_content_row) (r1 r2 : message_content_row) :
  NoDup (mc_rowid <$> rows) → r1 ∈ rows → r2 ∈ rows →
  mc_rowid r1 = mc_rowid r2 → r1 = r2.
Proof.
  induction rows as [|r rows IH]; intros Hnd H1 H2 Heq.
  - by apply elem_of_nil in H1.
  - rewrite fmap_cons in Hnd. apply NoDup_cons in Hnd as [Hnotin Hnd].
    apply elem_of_cons in H1 as [->|H1]; apply elem_of_cons in H2 as [->|H2]; try done.
    + destruct Hnotin. rewrite Heq. by apply list_elem_of_fmap_2.
    + destruct Hnotin. rewrite <-Heq. by apply list_elem_of_fmap_2.
    + by apply IH.
Qed.

Lemma NoDup_fmap_filter {A B} (f : A → B) (P : A → Prop) `{∀ x, Decision (P x)}
    (l : list A) :
  NoDup (f <$> l) → NoDup (f <$> filter P l).
Proof.
  induction l as [|x l IH]; [done|]. rewrite fmap_cons, NoDup_cons. intros [Hx Hl].
  rewrite filter_cons. destruct (decide (P x)); [|by apply IH].
  rewrite fmap_cons, NoDup_cons. split; [|by apply IH].
  intros (y & Hy & Hin)%list_elem_of_fmap. apply list_elem_of_filter in Hin as [_ Hin].
  apply Hx. rewrite Hy. by apply list_elem_of_fmap_2.
Qed.

(** [INSERT OR REPLACE INTO message_content] keeps every content row
    indexed and the rowids different, whatever the trigger setting. *)
Lemma replace_message_content_indexed id l s a dt b h t (d : DB) :
  rowidsUnique d → rowsIndexed d →
  rowidsUnique (replace_message_content id l s a dt b h t d)
  ∧ rowsIndexed (replace_message_content id l s a dt b h t d).
Proof.
  intros Huniq Hidx. unfold rowidsUnique, rowsIndexed, replace_message_content.
  cbn [message_content messages_fts]. split.
  - rewrite fmap_app. apply NoDup_app. split; [by apply NoDup_fmap_filter|].
    split; [|apply NoDup_singleton].
    intros x (r & -> & Hr)%list_elem_of_fmap [= Heq]%list_elem_of_singleton.
    apply list_elem_of_filter in Hr as [_ Hr].
    apply next_rowid_fresh in Hr. simpl in Heq. lia.
  - intros r [Hr|Hr%list_elem_of_singleton]%elem_of_app; unfold messages_fts_insert;
      apply elem_of_app.
    + left. apply list_elem_of_filter in Hr as [Hid Hr].
      destruct (recursive_triggers d); [|by apply Hidx].
      apply fts_deleted. split; [by apply Hidx|].
      intros old [Hold Holdin]%list_elem_of_filter Heq.
      apply fts_of_rowid in Heq.
      apply (rowid_inj _ _ _ Huniq Hr Holdin) in Heq. congruence.
    + right. subst r. apply list_elem_of_singleton. done.
Qed.

(** With the delete trigger running for the replaced row, nothing stale
    stays in the index. *)
Lemma replace_message_content_backed id l s a dt b h t (d : DB) :
  recursive_triggers d = true → indexBacked d →
  indexBacked (replace_message_content id l s a dt b h t d).
Proof.
  intros Hrt Hback. unfold indexBacked, replace_message_content.
  cbn [message_content messages_fts]. rewrite Hrt. unfold messages_fts_insert.
  intros e [He|He%list_elem_of_singleton]%elem_of_app.
  - apply fts_deleted in He as [He Hnot].
    destruct (Hback e He) as (r & Hr & <-). exists r. split; [|done].
    apply elem_of_app. left. apply list_elem_of_filter. split; [|done].
    intros Hid. apply (Hnot r); [|done]. by apply list_elem_of_filter.
  - eexists. split; [|symmetry; exact He]. apply elem_of_app. right.
    by apply list_elem_of_singleton.
Qed.

Lemma delete_expired_indexed cutoff (d : DB) :
  rowidsUnique d → rowsIndexed d →
  rowidsUnique (delete_expired cutoff d) ∧ rowsIndexed (delete_expired cutoff d).
Proof.
  intros Huniq Hidx. unfold rowidsUnique, rowsIndexed, delete_expired.
  cbn [message_content messages_fts]. split; [by apply NoDup_fmap_filter|].
  intros r [Hlive Hr]%list_elem_of_filter. apply fts_deleted. split; [by apply Hidx|].
  intros old [Hold Holdin]%list_elem_of_filter Heq.
  apply fts_of_rowid in Heq. apply (rowid_inj _ _ _ Huniq Hr Holdin) in Heq.
  subst old. done.
Qed.

Lemma delete_expired_backed cutoff (d : DB) :
  indexBacked d → indexBacked (delete_expired cutoff d).
Proof.
  intros Hback. unfold indexBacked, delete_expired. cbn [message_content messages_fts].
  intros e [He Hnot]%fts_deleted.
  destruct (Hback e He) as (r & Hr & <-). exists r. split; [|done].
  apply list_elem_of_filter. split; [|done].
  intros Hexp. apply (Hnot r); [|done]. by apply list_elem_of_filter.
Qed.

(** With recursive triggers on, the triggers of the schema keep the index
    and the content table in step through every write and every
    clean-up. *)
Lemma inSync_with_recursive_triggers id l s a dt b h t cutoff (d : DB) :
  recursive_triggers d = true → rowidsUnique d → inSync d →
  inSync (replace_message_content id l s a dt b h t d)
  ∧ inSync (delete_expired cutoff d).
Proof.
  intros Hrt Huniq [Hidx Hback]. repeat split.
  - by apply replace_message_content_indexed.
  - by apply replace_message_content_backed.
  - by apply delete_expired_indexed.
  - by apply delete_expired_backed.
Qed.

(** The half of the invariant that holds: in every state of the store
    every content row is in the index. *)
Lemma reachable_rows_indexed (c : Cache) :
  reachable c → rowidsUnique (db c) ∧ rowsIndexed (db c).
Proof.
  induction 1 as [TTL|c now lists _ IH|c now msgs _ IH|c now m _ IH|c now _ IH].
  - split; [apply NoDup_nil_2|]. intros r Hr. by apply elem_of_nil in Hr.
  - unfold rowidsUnique, rowsIndexed.
    destruct (SetMailingLists_content c now lists) as (-> & -> & _). exact IH.
  - unfold rowidsUnique, rowsIndexed.
    destruct (SetMessages_content c now msgs) as (-> & -> & _). exact IH.
  - destruct IH. by apply replace_message_content_indexed.
  - destruct IH. by apply delete_expired_indexed.
Qed.

(** The connection of the source never turns recursive triggers on. *)
Lemma reachable_recursive_triggers_off (c : Cache) :
  reachable c → recursive_triggers (db c) = false.
Proof.
  induction 1 as [TTL|c now lists _ IH|c now msgs _ IH|c now m _ IH|c now _ IH];
    try done.
  - by destruct (SetMailingLists_content c now lists) as (_ & _ & ->).
  - by destruct (SetMessages_content c now msgs) as (_ & _ & ->).
Qed.

(** C7 at the failing input: after a message is cached a second time, the
    index still has the entry of the replaced row, which no content row
    backs; after a clean-up and another insertion that entry stands under
    the rowid of the new row, and a search for a word of the gone message
    returns the new one. Every content row is in the index all along. *)
Theorem fts_index_stale_after_replace :
  reachable afterRefetch
  ∧ rowsIndexed (db afterRefetch)
  ∧ ¬ indexBacked (db afterRefetch)
  ∧ reachable afterReuse
  ∧ SearchMessages wordEngine afterReuse "alpha" ""
    = Ok [ mkMessage "9" "git" "Unrelated" "Bob" "" ].
Proof.
  assert (reachable afterRefetch) as Hr1 by (repeat constructor).
  assert (reachable afterReuse) as Hr2 by (repeat constructor).
  split; [done|]. split; [by apply reachable_rows_indexed|].
  split; [|split; [done|by vm_compute]].
  intros Hback.
  destruct (Hback (fts_of {| mc_rowid := 1; mc_id := "1"; mc_list := "git";
                            mc_subject := "Release notes"; mc_author := "Alice";
                            mc_date := ""; mc_body := "alpha"; mc_headers := "null";
                            mc_updated_at := 1000 |})) as (r & Hr & Heq).
  - vm_compute. left.
  - vm_compute in Hr. apply list_elem_of_singleton in Hr. subst r. discriminate Heq.
Qed.

End index.

Section roundtrip.
Import sqlite cache.

Lemma Unix_second_earlier (t : Z) : Unix (t - second) = Unix t - 1.
Proof.
  unfold Unix. replace (t - second) with (t + (-1) * second) by lia.
  rewrite Z.div_add by done. lia.
Qed.

Lemma within_window (c : Cache) (now now' : Z) :
  now' - now ≤ ttl c - second → cutoff c now' < Unix now.
Proof.
  intros Hw. unfold cutoff.
  assert (Unix (now' - ttl c) ≤ Unix (now - second)) as Hle
    by (apply Z.div_le_mono; [done|lia]).
  rewrite Unix_second_earlier in Hle. lia.
Qed.

(** [get] after [set], in the terms of the code: the second of the write
    is after the cutoff of the read. *)
Lemma set_get_exact (c : Cache) (now now' : Z) (v : MessageContent) :
  cutoff c now' < Unix now →
  GetMessageContent (SetMessageContent c now v) now' (List v) (ID v)
  = (Some {| Msg := Msg v; Body := Body v;
             Headers := json.coerceHeaders (Headers v) |}, true).
Proof.
  intros Hfresh. unfold GetMessageContent, selectMessageContent, SetMessageContent.
  unfold replace_message_content. cbn [db with_db message_content].
  rewrite list_find_app_r.
  - cbn [list_find].
    rewrite (decide_True (P := _ ∧ _ ∧ _)) by (cbn [mc_id mc_list mc_updated_at]; done).
    cbn [fmap option_fmap option_map prod_map snd id mc_headers].
    rewrite Unmarshal_Marshal.
    cbn [id mc_id mc_list mc_subject mc_author mc_date mc_body].
    by destruct v as [[] ? ?].
  - apply list_find_None, Forall_forall.
    intros x [Hid _]%list_elem_of_filter [Hid' _]. done.
Qed.

(** C9, as the code has it: a message whose header keys and values are
    valid UTF-8 comes back identical, the header map verbatim, when the
    [get] follows the [set] by no more than the TTL less one second (the
    timestamps are whole seconds). *)
Theorem set_get_roundtrip (c : Cache) (now now' : Z) (v : MessageContent) :
  json.validHeaders (Headers v) →
  now' - now ≤ ttl c - second →
  GetMessageContent (SetMessageContent c now v) now' (List v) (ID v) = (Some v, true).
Proof.
  intros Hvalid Hw. rewrite set_get_exact by (by apply within_window).
  rewrite coerceHeaders_valid by done. by destruct v.
Qed.

Lemma sampleContent_valid : json.validHeaders (Headers sampleContent).
Proof.
  unfold json.validHeaders, sampleContent. cbn [Headers].
  intros k v. rewrite !lookup_insert. repeat case_decide; subst;
    intros [= <-] || rewrite lookup_empty; try done.
Qed.

Lemma set_get_roundtrip_witness :
  GetMessageContent (SetMessageContent (New hour) (1000 * second) sampleContent)
    (1000 * second + hour - second) (List sampleContent) (ID sampleContent)
  = (Some sampleContent, true).
Proof.
  apply (set_get_roundtrip (New hour) (1000 * second) (1000 * second + hour - second)
           sampleContent).
  - exact sampleContent_valid.
  - vm_compute. discriminate.
Defined.

(** C9 as stated fails, twice: a header value that is not valid UTF-8
    comes back with U+FFFD in the place of the offending byte; and a [get]
    half a second before the TTL has passed misses, because the
    timestamps are cut to whole seconds. *)
Lemma set_get_counterexample :
  ¬ (∀ c now now' v,
       0 ≤ now' - now ≤ ttl c - second →
       GetMessageContent (SetMessageContent c now v) now' (List v) (ID v) = (Some v, true))
  ∧ ¬ (∀ c now now' v,
         json.validHeaders (Headers v) →
         0 ≤ now' - now < ttl c →
         GetMessageContent (SetMessageContent c now v) now' (List v) (ID v) = (Some v, true)).
Proof.
  split; intros H.
  - specialize (H (New hour) (1000 * second) (1000 * second) latin1Content).
    rewrite set_get_exact in H by (vm_compute; reflexivity).
    assert (0 ≤ 1000 * second - 1000 * second ≤ ttl (New hour) - second) as Hw
      by (vm_compute; split; discriminate).
    specialize (H Hw).
    apply (f_equal (λ r, default ∅ (default None (Headers <$> r.1)) !! "From")) in H.
    vm_compute in H. discriminate H.
  - specialize (H (New hour) (1000 * second + 900000000)
                  (1000 * second + 900000000 + (hour - 500000000)) sampleContent
                  sampleContent_valid).
    assert (0 ≤ 1000 * second + 900000000 + (hour - 500000000)
                - (1000 * second + 900000000) < ttl (New hour)) as Hw
      by (vm_compute; split; [discriminate|reflexivity]).
    specialize (H Hw). apply (f_equal snd) in H. vm_compute in H. discriminate H.
Qed.

End roundtrip.

Section client_search.
Import sqlite cache.











Example search_goes_upstream :
  Search (λ _, Ok "") (λ _, Ok searchResultPage) "git" "fix" "" (newWorld 0)
  = (Ok [ mkMessage "42" "git" "Fix bug" "Fix bug Alice" "2026-02-24" ],
     {| w_cache := New 0; w_fetched := ["?l=git&s=fix&q=s&w=2"] |}).
Proof. vm_compute. reflexivity. Qed.

End client_search.

(** ** Further properties: the patterns and the listing extractor *)

Section regexp_facts.
Import strings regexp.

Lemma greedy_nonempty p k s l : greedy p k s = Some l → l ≠ [].
Proof.
  revert l. induction s as [|c s IH]; intros l; cbn [greedy].
  - destruct (k "") as [r|]; [|done]. by intros [= <-].
  - destruct (p c).
    + destruct (greedy p k s) as [[|piece r]|] eqn:E.
      * by destruct (IH [] eq_refl).
      * by intros [= <-].
      * destruct (k (String c s)) as [r|]; [|done]. by intros [= <-].
    + destruct (k (String c s)) as [r|]; [|done]. by intros [= <-].
Qed.

Lemma greedy_sound p k s l :
  greedy p k s = Some l →
  ∃ piece r rest, l = piece :: r ∧ allBytes p piece = true
                  ∧ s = piece +:+ rest ∧ k rest = Some r.
Proof.
  revert l. induction s as [|c s IH]; intros l; cbn [greedy].
  - destruct (k "") as [r|] eqn:Hk; [|done]. intros [= <-].
    by exists "", r, "".
  - assert (Hzero : cons "" <$> k (String c s) = Some l →
              ∃ piece r rest, l = piece :: r ∧ allBytes p piece = true
                              ∧ String c s = piece +:+ rest ∧ k rest = Some r).
    { destruct (k (String c s)) as [r|] eqn:Hk; [|done]. intros [= <-].
      by exists "", r, (String c s). }
    destruct (p c) eqn:Hp; [|done].
    destruct (greedy p k s) as [[|piece r]|] eqn:E; [done| |done].
    intros [= <-]. destruct (IH _ eq_refl) as (piece' & r' & rest & [= -> ->] & Hall & -> & Hk).
    exists (String c piece'), r', rest. repeat split; [|done].
    cbn [allBytes]. by rewrite Hp, Hall.
Qed.

Lemma greedy_complete p k piece rest :
  allBytes p piece = true → is_Some (k rest) → is_Some (greedy p k (piece +:+ rest)).
Proof.
  intros Hall Hk.
  assert (Hany : ∀ s, is_Some (k s) → is_Some (greedy p k s)).
  { intros s [r Hr]. destruct s as [|c s]; cbn [greedy]; [by rewrite Hr|].
    destruct (p c); [|by rewrite Hr].
    destruct (greedy p k s) as [[|piece' r']|]; rewrite ?Hr; eauto. }
  induction piece as [|c piece IH]; [by apply Hany|].
  rewrite app_cons. cbn [greedy allBytes] in *.
  apply andb_prop in Hall as [-> Hall].
  destruct (IH Hall) as [l Hl]. rewrite Hl.
  destruct l as [|x l]; [by destruct (greedy_nonempty _ _ _ _ Hl)|eauto].
Qed.

(** What the matcher returns is a match, at the head of the text. *)
Lemma match_here_sound re s ps :
  match_here re s = Some ps → piecesOk re ps ∧ ∃ rest, s = text ps +:+ rest.
Proof.
  revert s ps. induction re as [|a re IH]; intros s ps; cbn [match_here].
  - intros [= <-]. split; [constructor|by exists s].
  - unfold piecesOk, pieceOk. destruct (rep a) eqn:Hrep.
    + destruct s as [|c s]; [done|]. destruct (cls a c) eqn:Hc; [|done].
      destruct (match_here re s) as [r|] eqn:E; [|done]. intros [= <-].
      destruct (IH _ _ E) as [Hok [rest ->]]. split.
      * constructor; [|done]. rewrite Hrep. eauto.
      * by exists rest.
    + destruct s as [|c s]; [done|]. destruct (cls a c) eqn:Hc; [|done].
      destruct (greedy (cls a) (match_here re) s) as [l|] eqn:E; [|done].
      destruct (greedy_sound _ _ _ _ E) as (piece & r & rest & -> & Hall & -> & Hk).
      cbn [push]. intros [= <-]. destruct (IH _ _ Hk) as [Hok [rest' ->]]. split.
      * constructor; [|done]. rewrite Hrep. split; [done|].
        cbn [allBytes]. by rewrite Hc, Hall.
      * exists rest'. cbn [text foldr]. fold (text r). by rewrite app_assoc_s, app_cons.
    + intros E.
      destruct (greedy_sound _ _ _ _ E) as (piece & r & rest & -> & Hall & -> & Hk).
      destruct (IH _ _ Hk) as [Hok [rest' ->]]. split.
      * constructor; [|done]. by rewrite Hrep.
      * exists rest'. cbn [text foldr]. fold (text r). by rewrite app_assoc_s.
Qed.

(** Where there is a match at the head of the text, the matcher finds one. *)
Lemma match_here_complete re ps rest :
  piecesOk re ps → is_Some (match_here re (text ps +:+ rest)).
Proof.
  intros Hok. revert rest.
  induction Hok as [|a piece re ps Hpiece Hok IH]; intros rest; [by eexists|].
  cbn [text foldr match_here]. fold (text ps). rewrite app_assoc_s.
  unfold pieceOk in Hpiece. destruct (rep a).
  - destruct Hpiece as (c & -> & Hc). rewrite app_cons, app_nil_l, Hc.
    destruct (IH rest) as [r ->]. by eexists.
  - destruct Hpiece as [Hne Hall]. destruct piece as [|c piece]; [done|].
    rewrite app_cons. cbn [allBytes] in Hall. apply andb_prop in Hall as [-> Hall].
    destruct (greedy_complete (cls a) (match_here re) piece _ Hall (IH rest)) as [l Hl].
    rewrite Hl. destruct l as [|x l]; [by destruct (greedy_nonempty _ _ _ _ Hl)|].
    by eexists.
  - by apply greedy_complete.
Qed.

Lemma find_sound re s ps :
  find re s = Some ps → ∃ before, ∃ rest, piecesOk re ps ∧ s = before +:+ text ps +:+ rest.
Proof.
  induction s as [|c s IH]; cbn [find].
  - destruct (match_here re "") as [ps'|] eqn:E; [|done]. intros [= <-].
    destruct (match_here_sound _ _ _ E) as [Hok [rest Hrest]]. by exists "", rest.
  - destruct (match_here re (String c s)) as [ps'|] eqn:E.
    + intros [= <-]. destruct (match_here_sound _ _ _ E) as [Hok [rest Hrest]].
      by exists "", rest.
    + intros (before & rest & Hok & ->)%IH. by exists (String c before), rest.
Qed.

Lemma find_complete re before s :
  is_Some (match_here re s) → is_Some (find re (before +:+ s)).
Proof.
  intros Hs. induction before as [|c before IH].
  - rewrite app_nil_l. destruct s; cbn [find]; destruct Hs as [ps ->]; by eexists.
  - rewrite app_cons. cbn [find]. destruct (match_here re (String c (before +:+ s))); [by eexists|done].
Qed.

Lemma piecesOk_app re1 re2 ps :
  piecesOk (re1 ++ re2) ps →
  ∃ ps1 ps2, ps = ps1 ++ ps2 ∧ piecesOk re1 ps1 ∧ piecesOk re2 ps2.
Proof.
  unfold piecesOk. intros (ps1 & ps2 & H1 & H2 & ->)%Forall2_app_inv_l. eauto.
Qed.

Lemma text_app ps1 ps2 : text (ps1 ++ ps2) = text ps1 +:+ text ps2.
Proof.
  induction ps1 as [|p ps1 IH]; [done|].
  cbn [text foldr app]. fold (text (ps1 ++ ps2)) (text ps1). by rewrite IH, app_assoc_s.
Qed.

Lemma isoDate_text ps : piecesOk isoDate ps → isISODate (text ps) = true.
Proof.
  unfold piecesOk, isoDate. intros H.
  repeat match goal with
         | H : Forall2 _ (_ :: _) _ |- _ =>
             let Hp := fresh "Hp" in
             apply Forall2_cons_inv_l in H as (? & ? & Hp & H & ->);
             unfold pieceOk in Hp; cbn [rep cls lit digit] in Hp; destruct Hp as (? & -> & Hp)
         | H : Forall2 _ [] _ |- _ => apply Forall2_nil_inv_l in H as ->
         end.
  cbn [text foldr]. rewrite !app_cons, !app_nil_l. cbn [isISODate].
  repeat match goal with
         | H : Ascii.eqb "-" _ = true |- _ => apply Ascii.eqb_eq in H as <-
         | H : isDigit _ = true |- _ => rewrite H; clear H
         end.
  done.
Qed.

End regexp_facts.

Section listing_extra.
Import strings regexp.

Lemma FindString_dateRegex line ps :
  find dateRegex line = Some ps →
  isISODate (FindString dateRegex line) = true
  ∧ ∃ before after, line = before +:+ FindString dateRegex line +:+ after.
Proof.
  intros Hfind. unfold FindString. rewrite Hfind.
  destruct (find_sound _ _ _ Hfind) as (before & rest & Hok & ->).
  split; [by apply isoDate_text|eauto].
Qed.

(** X1. A stub carries the list of the caller, an id of one or more decimal
    digits, and a date of the form dddd-dd-dd; the date stands in the line,
    and so does the link [?l=<list>&m=<id>]. *)
Theorem stub_fields_well_formed (line listName : string) (msg : Message) :
  parseLine line listName = Some msg →
  List msg = listName
  ∧ ID msg ≠ "" ∧ allBytes isDigit (ID msg) = true
  ∧ isISODate (Date msg) = true
  ∧ (∃ before after, line = before +:+ Date msg +:+ after)
  ∧ (∃ before after,
       line = before +:+ ("?l=" +:+ listName +:+ "&m=" +:+ ID msg) +:+ after).
Proof.
  unfold parseLine.
  destruct (messageLineRegex_MatchString line); cbn [negb]; [|done].
  destruct (find dateRegex line) as [dps|] eqn:Hdate;
    [|by unfold FindString; rewrite Hdate].
  destruct (FindString_dateRegex _ _ Hdate) as [Hiso Hin].
  destruct (String.eqb _ ""); [done|].
  unfold messageLinkRegex_FindStringSubmatch.
  destruct (find messageLinkRegex line) as [ps|] eqn:Hlink; [|done].
  cbn [length Nat.eqb negb].
  destruct (find_sound _ _ _ Hlink) as (_ & _ & Hok & _).
  unfold piecesOk, messageLinkRegex in Hok.
  repeat match goal with
         | H : Forall2 _ (_ :: _) _ |- _ =>
             let Hp := fresh "Hp" in
             apply Forall2_cons_inv_l in H as (? & ? & Hp & H & ->)
         | H : Forall2 _ [] _ |- _ => apply Forall2_nil_inv_l in H as ->
         end.
  match goal with
  | H : pieceOk (Atom isDigit Plus) ?id |- _ =>
      unfold pieceOk in H; cbn [rep cls] in H; destruct H as [Hne Hdigits]
  end.
  change ([_; _; _] !!! 2%nat) with x6.
  set (link := "?l=" +:+ listName +:+ "&m=" +:+ x6).
  destruct (Index line link =? -1) eqn:Hidx; [done|].
  apply Z.eqb_neq, Index_found_occurs in Hidx as [n Hn].
  apply HasPrefix_inv in Hn as [after Hafter].
  destruct (Index (slice_from line _) ">" =? -1); [done|].
  destruct (Index (slice_from line _) "</a>" =? -1); [done|].
  intros [= <-]. cbn [List ID Date]. repeat split; try done.
  exists (take n line), after. subst link. rewrite <-Hafter. symmetry. apply take_drop.
Qed.

Lemma stub_fields_well_formed_witness :
  List (mkMessage "42" "git" "Fix bug" "Alice" "2026-02-24") = "git"
  ∧ ID (mkMessage "42" "git" "Fix bug" "Alice" "2026-02-24") ≠ ""
  ∧ allBytes isDigit (ID (mkMessage "42" "git" "Fix bug" "Alice" "2026-02-24")) = true
  ∧ isISODate (Date (mkMessage "42" "git" "Fix bug" "Alice" "2026-02-24")) = true
  ∧ (∃ before after,
       sampleRow "  Alice"
       = before +:+ Date (mkMessage "42" "git" "Fix bug" "Alice" "2026-02-24") +:+ after)
  ∧ (∃ before after,
       sampleRow "  Alice"
       = before +:+ ("?l=" +:+ "git" +:+ "&m="
                       +:+ ID (mkMessage "42" "git" "Fix bug" "Alice" "2026-02-24"))
           +:+ after).
Proof.
  apply (stub_fields_well_formed (sampleRow "  Alice") "git"
           (mkMessage "42" "git" "Fix bug" "Alice" "2026-02-24")).
  vm_compute. reflexivity.
Defined.

(** X2. A line that matches the row-prefix pattern has a date: on such a
    line [dateRegex.FindString] returns a text of the form dddd-dd-dd, so
    the guard for an empty date in the loop never skips a line. *)
Theorem row_prefix_line_has_date (line : string) :
  messageLineRegex_MatchString line = true →
  isISODate (FindString dateRegex line) = true.
Proof.
  unfold messageLineRegex_MatchString. intros Hm.
  apply bool_decide_eq_true in Hm as [ps Hps].
  destruct (match_here_sound _ _ _ Hps) as [Hok [rest ->]].
  unfold messageLineRegex in Hok.
  apply piecesOk_app in Hok as (ps1 & ps23 & -> & _ & Hok).
  apply piecesOk_app in Hok as (ps2 & ps3 & -> & Hdate & _).
  rewrite !text_app, !app_assoc_s.
  destruct (find_complete dateRegex (text ps1) (text ps2 +:+ text ps3 +:+ rest))
    as [dps Hfind]; [by apply match_here_complete|].
  by destruct (FindString_dateRegex _ _ Hfind).
Qed.

Lemma row_prefix_line_has_date_witness :
  isISODate (FindString dateRegex "  7. 2026-02-24  no anchor on this row") = true.
Proof.
  apply (row_prefix_line_has_date "  7. 2026-02-24  no anchor on this row").
  vm_compute. reflexivity.
Defined.

Lemma Split_app_newline (a b : string) :
  Split (a +:+ String newline b) newline = Split a newline ++ Split b newline.
Proof.
  induction a as [|c a IH].
  - rewrite app_nil_l. cbn [Split]. by rewrite Ascii.eqb_refl.
  - rewrite app_cons. cbn [Split]. rewrite IH.
    destruct (Ascii.eqb c newline); [done|].
    destruct (Split a newline) as [|l ls] eqn:E; [|done].
    by destruct a; cbn [Split] in E; repeat case_match.
Qed.

(** X3. The listing extractor works line by line: the stubs of two texts
    joined by a newline are the stubs of the first followed by the stubs of
    the second. *)
Theorem listing_of_joined_pages (a b listName : string) :
  parseMessageListFromRaw (a +:+ String newline b) listName
  = parseMessageListFromRaw a listName ++ parseMessageListFromRaw b listName.
Proof.
  rewrite !parseMessageListFromRaw_omap, Split_app_newline. apply omap_app.
Qed.

End listing_extra.

(** ** The rows the listing extractor accepts *)

Section listing_rows.
Import strings regexp.








End listing_rows.


(** A row whose first message link is of another list gives no stub, even
    though a link of the requested list follows with its [>] and
    close-tag. *)
Example listing_first_link_of_other_list :
  parseMessageListFromRaw foreignLinkRow "git" = []
  ∧ firstLinkID foreignLinkRow = Some "7".
Proof. split; vm_compute; reflexivity. Qed.

(** When the id of that first link begins the id of the link of the
    requested list, the row gives a stub with the id of the first link. *)
Example listing_first_link_id_wins :
  parseMessageListFromRaw foreignPrefixRow "git"
  = [ {| ID := "4"; Subject := "Fix bug"; Author := "Alice";
         Date := "2026-02-24"; List := "git" |} ].
Proof. vm_compute. reflexivity. Qed.

(** ** Further properties: the links the client builds and parses *)

Section url_facts.
Import strings url.

Lemma allBytes_app p a b : allBytes p (a +:+ b) = allBytes p a && allBytes p b.
Proof.
  induction a as [|c a IH]; [done|]. rewrite app_cons. cbn [allBytes].
  by rewrite IH, andb_assoc.
Qed.

Lemma allBytes_impl (p q : ascii → bool) s :
  (∀ c, p c = true → q c = true) → allBytes p s = true → allBytes q s = true.
Proof.
  intros Hpq. induction s as [|c s IH]; [done|]. cbn [allBytes].
  intros [Hc Hs]%andb_prop. by rewrite (Hpq c Hc), IH.
Qed.

Lemma allBytes_drop p n s : allBytes p s = true → allBytes p (drop n s) = true.
Proof.
  revert s. induction n as [|n IH]; intros [|c s]; cbn [drop allBytes]; try done.
  intros [_ Hs]%andb_prop. by apply IH.
Qed.

Lemma code_lt_256 (c : ascii) : (N_of_ascii c < 256)%N.
Proof. by destruct c as [[] [] [] [] [] [] [] []]. Qed.

Lemma upperHex_escaped (n : N) : (n < 16)%N → escapedByte (upperHex n) = true.
Proof.
  intros Hn.
  assert (forallb (λ k, escapedByte (upperHex (N.of_nat k))) (seq 0 16) = true) as Hall
    by (vm_compute; reflexivity).
  rewrite forallb_forall in Hall.
  specialize (Hall (N.to_nat n)). rewrite N2Nat.id in Hall. apply Hall.
  apply in_seq. lia.
Qed.

Lemma QueryEscape_escaped s : allBytes escapedByte (QueryEscape s) = true.
Proof.
  induction s as [|c s IH]; [done|]. cbn [QueryEscape].
  destruct (unreserved c) eqn:Hu.
  - cbn [allBytes]. unfold escapedByte at 1. by rewrite Hu, IH.
  - destruct (Ascii.eqb c " "); cbn [allBytes]; rewrite IH, ?andb_true_r; [done|].
    rewrite !upperHex_escaped; [done| |].
    + apply N.mod_lt. done.
    + apply N.Div0.div_lt_upper_bound. apply code_lt_256.
Qed.

Lemma upperHex_unhex (n : N) :
  (n < 16)%N → isHex (upperHex n) = true ∧ unhex (upperHex n) = n.
Proof.
  intros Hn.
  assert (forallb (λ k, isHex (upperHex (N.of_nat k))
                        && (unhex (upperHex (N.of_nat k)) =? N.of_nat k)%N)
            (seq 0 16) = true) as Hall by (vm_compute; reflexivity).
  rewrite forallb_forall in Hall.
  specialize (Hall (N.to_nat n)). rewrite N2Nat.id in Hall.
  destruct (andb_prop _ _ (Hall ltac:(apply in_seq; lia))) as [? ?%N.eqb_eq]. done.
Qed.

Lemma unescape_percent pl a b rest :
  isHex a && isHex b = true →
  unescape pl (String "%" (String a (String b rest)))
  = String (ascii_of_N (unhex a * 16 + unhex b)) <$> unescape pl rest.
Proof. intros H. cbn [unescape unescape_tail]. by rewrite H. Qed.

Lemma unescape_plain pl c rest :
  c ≠ "%"%char →
  unescape pl (String c rest)
  = String (if pl && Ascii.eqb c "+" then " "%char else c) <$> unescape pl rest.
Proof. intros Hc. destruct c as [[] [] [] [] [] [] [] []]; done. Qed.

(** [QueryUnescape] undoes [QueryEscape]. *)
Lemma QueryUnescape_QueryEscape s : QueryUnescape (QueryEscape s) = Some s.
Proof.
  unfold QueryUnescape. induction s as [|c s IH]; [done|]. cbn [QueryEscape].
  destruct (unreserved c) eqn:Hu.
  - rewrite unescape_plain, IH by (by intros ->).
    destruct (Ascii.eqb_spec c "+") as [->|]; done.
  - destruct (Ascii.eqb_spec c " ") as [->|Hsp].
    + by rewrite unescape_plain, IH.
    + assert (N_of_ascii c / 16 < 16)%N as Hhi
        by (apply N.Div0.div_lt_upper_bound, code_lt_256).
      assert (N_of_ascii c mod 16 < 16)%N as Hlo by (by apply N.mod_lt).
      destruct (upperHex_unhex _ Hhi) as [Hh1 Hu1].
      destruct (upperHex_unhex _ Hlo) as [Hh2 Hu2].
      rewrite unescape_percent, IH by (by rewrite Hh1, Hh2).
      rewrite Hu1, Hu2. cbn [fmap option_fmap option_map]. do 2 f_equal.
      rewrite <-(ascii_N_embedding c) at 3. f_equal.
      rewrite N.mul_comm. symmetry. apply N.div_mod. done.
Qed.

Lemma Cut_none sep s :
  allBytes (λ c, negb (Ascii.eqb c sep)) s = true → Cut s sep = (s, "", false).
Proof.
  induction s as [|c s IH]; [done|]. cbn [allBytes Cut].
  intros [Hc Hs]%andb_prop. apply negb_true_iff in Hc. by rewrite Hc, IH.
Qed.

Lemma Split_none sep s :
  allBytes (λ c, negb (Ascii.eqb c sep)) s = true → Split s sep = [s].
Proof.
  induction s as [|c s IH]; [done|]. cbn [allBytes Split].
  intros [Hc Hs]%andb_prop. apply negb_true_iff in Hc. by rewrite Hc, IH.
Qed.

Lemma Split_app_sep sep a b :
  allBytes (λ c, negb (Ascii.eqb c sep)) a = true →
  Split (a +:+ String sep b) sep = a :: Split b sep.
Proof.
  induction a as [|c a IH].
  - intros _. rewrite app_nil_l. cbn [Split]. by rewrite Ascii.eqb_refl.
  - rewrite app_cons. cbn [allBytes Split].
    intros [Hc Hs]%andb_prop. apply negb_true_iff in Hc. by rewrite Hc, IH.
Qed.

Lemma Contains_none (x : ascii) s :
  allBytes (λ c, negb (Ascii.eqb c x)) s = true → Contains s (String x "") = false.
Proof.
  intros Hall. unfold Contains.
  destruct (Index_spec s (String x "")) as [[-> _]|(n & _ & _ & Hat & _)]; [done|].
  apply HasPrefix_inv in Hat as [rest Hrest].
  apply (allBytes_drop _ n) in Hall. rewrite Hrest, app_cons in Hall.
  cbn [allBytes] in Hall. by rewrite Ascii.eqb_refl in Hall.
Qed.

Lemma escaped_not (x : ascii) s :
  escapedByte x = false → allBytes escapedByte s = true →
  allBytes (λ c, negb (Ascii.eqb c x)) s = true.
Proof.
  intros Hx. apply allBytes_impl. intros c Hc.
  destruct (Ascii.eqb_spec c x) as [->|]; [congruence|done].
Qed.

Lemma escaped_not_CTL s :
  allBytes escapedByte s = true → stringContainsCTLByte s = false.
Proof.
  induction s as [|c s IH]; [done|]. cbn [allBytes stringContainsCTLByte].
  intros [Hc Hs]%andb_prop. rewrite IH by done.
  destruct c as [[] [] [] [] [] [] [] []]; try done; by vm_compute in Hc.
Qed.

Lemma stringContainsCTLByte_app a b :
  stringContainsCTLByte (a +:+ b) = stringContainsCTLByte a || stringContainsCTLByte b.
Proof.
  induction a as [|c a IH]; [done|]. rewrite app_cons. cbn [stringContainsCTLByte].
  by rewrite IH, orb_assoc.
Qed.

(** The query of a path the client builds: a key, an escaped value, and
    what follows the next [&]. *)
Lemma parsePair_escaped (key value : string) :
  allBytes escapedByte key = true → key ≠ "" →
  allBytes (λ c, negb (Ascii.eqb c "%") && negb (Ascii.eqb c "+")) key = true →
  parsePair (key +:+ String "=" (QueryEscape value)) = Some (key, value).
Proof.
  intros Hkey Hne Hplain. unfold parsePair.
  rewrite Contains_none.
  2:{ rewrite allBytes_app. cbn [allBytes].
      rewrite (escaped_not ";" key), (escaped_not ";" (QueryEscape value));
        auto using QueryEscape_escaped. }
  destruct key as [|k key]; [done|]. rewrite app_cons. cbn [String.eqb].
  rewrite <-app_cons.
  assert (Cut (String k key +:+ String "=" (QueryEscape value)) "="
          = (String k key, QueryEscape value, true)) as ->.
  { generalize (String k key) Hkey. clear. intros a Ha.
    apply (escaped_not "=") in Ha; [|done].
    induction a as [|c a IH]; [by rewrite app_nil_l|].
    rewrite app_cons. cbn [allBytes Cut] in *.
    apply andb_prop in Ha as [Hc Ha]. apply negb_true_iff in Hc.
    by rewrite Hc, IH. }
  rewrite QueryUnescape_QueryEscape.
  assert (QueryUnescape (String k key) = Some (String k key)) as ->; [|done].
  generalize (String k key) Hplain. clear. unfold QueryUnescape.
  induction s as [|c s IH]; [done|]. cbn [allBytes].
  intros [[Hp Hplus]%andb_prop Hs]%andb_prop.
  apply negb_true_iff in Hp, Hplus. specialize (IH Hs).
  destruct c as [[] [] [] [] [] [] [] []]; try done; cbn; by rewrite IH.
Qed.

Ltac without_byte x :=
  repeat first [ rewrite allBytes_app
               | rewrite (escaped_not x) by done
               | progress cbn [allBytes] ];
  reflexivity.

Lemma Parse_query q :
  allBytes (λ c, negb (Ascii.eqb c "#")) q = true →
  stringContainsCTLByte q = false →
  Parse (String "?" q) = Some q.
Proof.
  intros Hhash Hctl. unfold Parse.
  rewrite (Cut_none "#") by (cbn [allBytes]; by rewrite Hhash).
  cbn [stringContainsCTLByte]. rewrite Hctl.
  change (isCTL "?") with false. cbn [orb unescape]. cbn [Cut].
  by change (Ascii.eqb "?" "?") with true.
Qed.

Lemma Get_here k v rest : Get ((k, v) :: rest) k = v.
Proof. unfold Get. cbn [list_find]. by rewrite decide_True. Qed.

Lemma Get_later k k' v rest : k' ≠ k → Get ((k', v) :: rest) k = Get rest k.
Proof.
  intros Hk. unfold Get. cbn [list_find]. rewrite decide_False by done.
  destruct (list_find _ rest) as [[? [? ?]]|]; done.
Qed.

(** The query of a message link, as [url.Parse] and [Query] read it. *)
Lemma messagePath_query listName messageID :
  ∃ q, Parse (messagePath listName messageID) = Some q
       ∧ Query q = [("l", listName); ("m", messageID); ("w", "2")].
Proof.
  pose proof (QueryEscape_escaped listName) as Hl.
  pose proof (QueryEscape_escaped messageID) as Hm.
  exists (("l" +:+ String "=" (QueryEscape listName)) +:+
          String "&" (("m" +:+ String "=" (QueryEscape messageID)) +:+ String "&" "w=2")).
  split.
  - change (messagePath listName messageID)
      with (String "?" (("l" +:+ String "=" (QueryEscape listName)) +:+
          String "&" (("m" +:+ String "=" (QueryEscape messageID)) +:+ String "&" "w=2"))).
    apply Parse_query.
    + without_byte "#"%char.
    + repeat first [ rewrite stringContainsCTLByte_app
                   | rewrite escaped_not_CTL by done
                   | progress cbn [stringContainsCTLByte] ].
      reflexivity.
  - unfold Query.
    rewrite !Split_app_sep, (Split_none "&" "w=2") by (without_byte "&"%char).
    cbn [omap list_omap]. rewrite !parsePair_escaped by done. done.
Qed.

End url_facts.

(** X4. A message link built by the client reads back: [extractListName]
    returns the list name and [extractMessageID] the message id that went
    into the path of [GetMessage], whatever bytes the two contain. *)
Theorem message_link_round_trip (listName messageID : string) :
  extractListName (messagePath listName messageID) = listName ∧
  extractMessageID (messagePath listName messageID) = messageID.
Proof.
  unfold extractListName, extractMessageID.
  destruct (messagePath_query listName messageID) as (q & -> & ->).
  by rewrite Get_here, Get_later, Get_here.
Qed.

(** ** Further properties: the message extractor *)

Section message_extra.

Lemma foldl_header_lines hs st :
  Forall (λ h, h ≠ "") hs → inHeaders st = true →
  inHeaders (foldl parseMessageLine st hs) = true
  ∧ bodyLines (foldl parseMessageLine st hs) = bodyLines st.
Proof.
  intros Hhs. revert st. induction Hhs as [|h hs Hh _ IH]; intros st Hin; [done|].
  cbn [foldl].
  assert (inHeaders (parseMessageLine st h) = true
          ∧ bodyLines (parseMessageLine st h) = bodyLines st) as [Hin' Hb].
  { unfold parseMessageLine. rewrite Hin.
    destruct (String.eqb_spec h ""); [done|].
    by destruct (0 <? strings.Index h ":"). }
  destruct (IH _ Hin') as [? ?]. split; congruence.
Qed.

Lemma parseMessageLine_blank st :
  inHeaders st = true →
  inHeaders (parseMessageLine st "") = false
  ∧ bodyLines (parseMessageLine st "") = bodyLines st.
Proof. intros Hin. unfold parseMessageLine. by rewrite Hin. Qed.

Lemma foldl_body_lines bs st :
  inHeaders st = false →
  bodyLines (foldl parseMessageLine st bs) = bodyLines st ++ bs.
Proof.
  revert st. induction bs as [|b bs IH]; intros st Hin; cbn [foldl].
  - by rewrite app_nil_r.
  - rewrite IH; unfold parseMessageLine; rewrite Hin; cbn; [|done].
    by rewrite <-app_assoc.
Qed.

Lemma parseMessageLine_agrees name st line :
  (name = "subject" → fieldAgrees name (subject st) (headers st)) →
  (name = "from" → fieldAgrees name (author st) (headers st)) →
  (name = "date" → fieldAgrees name (date st) (headers st)) →
  ∀ field,
    (name = "subject" ∧ field = subject (parseMessageLine st line))
    ∨ (name = "from" ∧ field = author (parseMessageLine st line))
    ∨ (name = "date" ∧ field = date (parseMessageLine st line)) →
    fieldAgrees name field (headers (parseMessageLine st line)).
Proof.
  intros Hs Ha Hd field Hfield.
  assert (∀ old, fieldAgrees name old (headers st) →
            let key := strings.TrimSpace (strings.slice_to line (strings.Index line ":")) in
            let value := strings.TrimSpace
                           (strings.slice_from line (strings.Index line ":" + 1)) in
            fieldAgrees name
              (if String.eqb (strings.ToLower key) name then value else old)
              (<[key := value]> (headers st))) as Hstep.
  { intros old Hold key value.
    destruct (String.eqb_spec (strings.ToLower key) name) as [Heq|Hne].
    - right. exists key. by rewrite lookup_insert_eq.
    - destruct Hold as [[-> Hnone]|(k & Hk & Hlook)].
      + left. split; [done|]. intros k [v Hv].
        destruct (decide (k = key)) as [->|Hkk]; [done|].
        rewrite lookup_insert_ne in Hv by done. by apply Hnone.
      + right. exists k. split; [done|].
        rewrite lookup_insert_ne; [done|]. intros <-. done. }
  unfold parseMessageLine in *.
  destruct (inHeaders st); [|destruct Hfield as [[-> ->]|[[-> ->]|[-> ->]]]; auto].
  destruct (String.eqb line ""); [destruct Hfield as [[-> ->]|[[-> ->]|[-> ->]]]; auto|].
  destruct (0 <? strings.Index line ":");
    [|destruct Hfield as [[-> ->]|[[-> ->]|[-> ->]]]; auto].
  cbn [headers subject author date].
  destruct Hfield as [[-> ->]|[[-> ->]|[-> ->]]]; apply Hstep; auto.
Qed.

Lemma foldl_agrees lines st :
  fieldAgrees "subject" (subject st) (headers st) →
  fieldAgrees "from" (author st) (headers st) →
  fieldAgrees "date" (date st) (headers st) →
  let st' := foldl parseMessageLine st lines in
  fieldAgrees "subject" (subject st') (headers st')
  ∧ fieldAgrees "from" (author st') (headers st')
  ∧ fieldAgrees "date" (date st') (headers st').
Proof.
  revert st. induction lines as [|line lines IH]; intros st Hs Ha Hd; [done|].
  cbn [foldl]. apply IH.
  - apply (parseMessageLine_agrees "subject"); auto; done.
  - apply (parseMessageLine_agrees "from"); auto; done.
  - apply (parseMessageLine_agrees "date"); auto; done.
Qed.

End message_extra.

(** X5. The body of an extracted message is what follows the first empty
    line of the preformatted text: the lines after it, joined by newlines
    and trimmed.  The lines before it never reach the body. *)
Theorem body_is_text_after_first_blank_line
    (doc : Node) (listName messageID : string) (hs bs : list string) :
  strings.Split (preText doc) newline = hs ++ "" :: bs →
  Forall (λ h, h ≠ "") hs →
  Body (parseMessageFrom doc listName messageID)
  = strings.TrimSpace (strings.Join bs (String newline "")).
Proof.
  intros Hsplit Hhs. unfold parseMessageFrom. cbn [Body]. rewrite Hsplit.
  fold initialParseState. rewrite foldl_app. cbn [foldl].
  destruct (foldl_header_lines hs initialParseState Hhs eq_refl) as [Hin Hb].
  destruct (parseMessageLine_blank _ Hin) as [Hin' Hb'].
  by rewrite foldl_body_lines, Hb', Hb.
Qed.

Lemma body_is_text_after_first_blank_line_witness :
  Body (parseMessageFrom messagePage "git" "1") = "The body.".
Proof.
  rewrite (body_is_text_after_first_blank_line messagePage "git" "1"
             ["From: Alice"; "Subject: Fix bug"; "X-Mailer: mutt"] ["The body."; ""]).
  - reflexivity.
  - reflexivity.
  - repeat constructor; discriminate.
Defined.

(** X6. A preformatted text without an empty line is all headers: the
    extracted body is empty. *)
Theorem body_empty_without_blank_line
    (doc : Node) (listName messageID : string) :
  Forall (λ h, h ≠ "") (strings.Split (preText doc) newline) →
  Body (parseMessageFrom doc listName messageID) = "".
Proof.
  intros Hhs. unfold parseMessageFrom. cbn [Body].
  destruct (foldl_header_lines _ initialParseState Hhs eq_refl) as [_ Hb].
  fold initialParseState. by rewrite Hb.
Qed.

Lemma body_empty_without_blank_line_witness :
  Body (parseMessageFrom (Element "pre" [] [Text "From: Alice"]) "git" "1") = "".
Proof.
  apply body_empty_without_blank_line. repeat constructor. discriminate.
Defined.

(** X7. The subject, author and date of an extracted message agree with
    its header map: each is the value stored under a header name that
    lower-cases to [subject], [from] or [date], and is empty when the map
    has no such name. *)
Theorem message_fields_agree_with_headers
    (doc : Node) (listName messageID : string) :
  let m := parseMessageFrom doc listName messageID in
  ∃ h, Headers m = Some h
       ∧ fieldAgrees "subject" (Subject m) h
       ∧ fieldAgrees "from" (Author m) h
       ∧ fieldAgrees "date" (Date m) h.
Proof.
  cbn zeta. unfold parseMessageFrom. cbn [Headers Msg Subject Author Date].
  eexists. split; [done|].
  apply foldl_agrees; left; (split; [done|]); intros k [v Hv];
    cbn [headers] in Hv; by rewrite lookup_empty in Hv.
Qed.

(** ** Further properties: the store *)

Section cache_extra.
Import sqlite cache.

Lemma list_find_snd_filter {A} (P Q : A → Prop)
    `{!∀ x, Decision (P x), !∀ x, Decision (Q x)} (l : list A) :
  (∀ x, P x → Q x) →
  snd <$> list_find P (filter Q l) = snd <$> list_find P l.
Proof.
  intros HPQ. induction l as [|x l IH]; [done|].
  rewrite filter_cons. cbn [list_find]. destruct (decide (Q x)) as [HQ|HQ].
  - cbn [list_find]. destruct (decide (P x)); [done|].
    destruct (list_find P (filter Q l)) as [[? ?]|], (list_find P l) as [[? ?]|];
      cbn in *; congruence.
  - rewrite decide_False by (intros HP; by apply HQ, HPQ).
    destruct (list_find P (filter Q l)) as [[? ?]|], (list_find P l) as [[? ?]|];
      cbn in *; congruence.
Qed.

Lemma list_find_snd_snoc {A} (P : A → Prop) `{!∀ x, Decision (P x)} (l : list A) (y : A) :
  ¬ P y → snd <$> list_find P (l ++ [y]) = snd <$> list_find P l.
Proof.
  intros HP. induction l as [|x l IH].
  - cbn [app list_find]. by rewrite decide_False.
  - cbn [app list_find]. destruct (decide (P x)); [done|].
    destruct (list_find P (l ++ [y])) as [[? ?]|], (list_find P l) as [[? ?]|];
      cbn in *; congruence.
Qed.

Lemma cutoff_mono (c : Cache) (now now' : Z) : now ≤ now' → cutoff c now ≤ cutoff c now'.
Proof. intros H. unfold cutoff, Unix. apply Z.div_le_mono; [done|lia]. Qed.

Lemma selectMessages_Cleanup c now now' listName pattern :
  now ≤ now' →
  selectMessages (Cleanup c now) now' listName pattern
  = selectMessages c now' listName pattern.
Proof.
  intros Hle%(cutoff_mono c). unfold selectMessages, Cleanup, delete_expired.
  cbn [db with_db messages]. change (cutoff (with_db c _) now') with (cutoff c now').
  rewrite list_filter_filter_l; [done|]. intros r (_ & Hr & _). lia.
Qed.

Lemma NoDup_replace {A} (f : A → string) (l : list A) (r : A) :
  NoDup (f <$> l) → NoDup (f <$> (filter (λ x, f x ≠ f r) l ++ [r])).
Proof.
  intros Hnd. rewrite fmap_app. apply NoDup_app. split; [by apply NoDup_fmap_filter|].
  split; [|apply NoDup_singleton].
  intros k (x & -> & [Hx _]%list_elem_of_filter)%list_elem_of_fmap Hk.
  cbn in Hk. apply list_elem_of_singleton in Hk. done.
Qed.

Lemma SetMailingLists_keys c now lists :
  NoDup (ml_name <$> mailing_lists (db c)) →
  NoDup (ml_name <$> mailing_lists (db (SetMailingLists c now lists)))
  ∧ messages (db (SetMailingLists c now lists)) = messages (db c).
Proof.
  unfold SetMailingLists. cbn [db with_db]. generalize (db c) as d. clear c.
  induction lists as [|x lists IH]; intros d Hnd; [done|]. cbn [foldl].
  destruct (IH (replace_mailing_list
                  {| ml_name := Name x; ml_category := Category x;
                     ml_updated_at := Unix now |} d)) as [? ->]; [|done].
  unfold replace_mailing_list. cbn [mailing_lists].
  by apply (NoDup_replace ml_name).
Qed.

Lemma SetMessages_keys c now msgs :
  NoDup (ms_id <$> messages (db c)) →
  NoDup (ms_id <$> messages (db (SetMessages c now msgs)))
  ∧ mailing_lists (db (SetMessages c now msgs)) = mailing_lists (db c).
Proof.
  unfold SetMessages. destruct (length msgs =? 0)%nat; [done|].
  cbn [db with_db]. generalize (db c) as d. clear c.
  induction msgs as [|x msgs IH]; intros d Hnd; [done|]. cbn [foldl].
  destruct (IH (replace_message
                  {| ms_id := ID x; ms_list := List x; ms_subject := Subject x;
                     ms_author := Author x; ms_date := Date x;
                     ms_updated_at := Unix now |} d)) as [? ->]; [|done].
  unfold replace_message. cbn [messages].
  by apply (NoDup_replace ms_id).
Qed.

Lemma reachable_keys (c : Cache) :
  reachable c →
  NoDup (ml_name <$> mailing_lists (db c))
  ∧ NoDup (ms_id <$> messages (db c))
  ∧ NoDup (mc_id <$> message_content (db c)).
Proof.
  induction 1 as [TTL|c now lists _ IH|c now msgs _ IH|c now m _ IH|c now _ IH].
  - repeat split; apply NoDup_nil_2.
  - destruct IH as (Hl & Hm & Hc).
    destruct (SetMailingLists_keys c now lists Hl) as [? ->].
    by destruct (SetMailingLists_content c now lists) as (-> & _).
  - destruct IH as (Hl & Hm & Hc).
    destruct (SetMessages_keys c now msgs Hm) as [? ->].
    by destruct (SetMessages_content c now msgs) as (-> & _).
  - destruct IH as (Hl & Hm & Hc). repeat split; [done..|].
    unfold SetMessageContent, replace_message_content. cbn [db with_db message_content].
    by apply (NoDup_replace mc_id _
                {| mc_rowid := _; mc_id := ID m; mc_list := _; mc_subject := _;
                   mc_author := _; mc_date := _; mc_body := _; mc_headers := _;
                   mc_updated_at := _ |}).
  - destruct IH as (Hl & Hm & Hc). unfold Cleanup, delete_expired.
    cbn [db with_db mailing_lists messages message_content].
    repeat split; by apply NoDup_fmap_filter.
Qed.

End cache_extra.

(** X8. Cleanup is invisible to the reads that follow it: at the time of
    the cleanup or later, the three lookups answer from the cleaned store
    exactly what they would have answered from the store as it was. *)
Theorem cleanup_invisible_to_later_reads
    (c : cache.Cache) (now now' : Z) (listName month id : string) :
  now ≤ now' →
  cache.GetMailingLists (cache.Cleanup c now) now' = cache.GetMailingLists c now'
  ∧ cache.GetMessages (cache.Cleanup c now) now' listName month
    = cache.GetMessages c now' listName month
  ∧ cache.GetMessageContent (cache.Cleanup c now) now' listName id
    = cache.GetMessageContent c now' listName id.
Proof.
  intros Hle. pose proof (cutoff_mono c now now' Hle) as Hcut. repeat split.
  - unfold cache.GetMailingLists, cache.Cleanup, sqlite.delete_expired.
    cbn [cache.db cache.with_db sqlite.mailing_lists].
    change (cache.cutoff (cache.with_db c _) now') with (cache.cutoff c now').
    rewrite list_filter_filter_l; [done|]. intros r Hr. lia.
  - unfold cache.GetMessages.
    destruct (negb (String.eqb month "")); [destruct (cache.datePrefix month)|];
      by rewrite ?selectMessages_Cleanup.
  - unfold cache.GetMessageContent, cache.selectMessageContent, cache.Cleanup,
      sqlite.delete_expired.
    cbn [cache.db cache.with_db sqlite.message_content].
    change (cache.cutoff (cache.with_db c _) now') with (cache.cutoff c now').
    rewrite list_find_snd_filter; [done|]. intros r (_ & _ & Hr). lia.
Qed.

Lemma cleanup_invisible_to_later_reads_witness :
  cache.GetMailingLists (cache.Cleanup sampleCache (1000 * second)) (1001 * second)
  = cache.GetMailingLists sampleCache (1001 * second)
  ∧ cache.GetMessages (cache.Cleanup sampleCache (1000 * second)) (1001 * second) "git" ""
    = cache.GetMessages sampleCache (1001 * second) "git" ""
  ∧ cache.GetMessageContent (cache.Cleanup sampleCache (1000 * second)) (1001 * second)
      "git" "42"
    = cache.GetMessageContent sampleCache (1001 * second) "git" "42".
Proof.
  apply (cleanup_invisible_to_later_reads sampleCache (1000 * second) (1001 * second)).
  by vm_compute.
Defined.

(** X9. In every state the store reaches, a key is stored once: no two
    rows of the mailing lists share a name, no two message stubs share an
    id, and no two message contents share an id. *)
Theorem reachable_primary_keys_unique (c : cache.Cache) :
  reachable c →
  NoDup (sqlite.ml_name <$> sqlite.mailing_lists (cache.db c))
  ∧ NoDup (sqlite.ms_id <$> sqlite.messages (cache.db c))
  ∧ NoDup (sqlite.mc_id <$> sqlite.message_content (cache.db c)).
Proof. apply reachable_keys. Qed.

Lemma reachable_primary_keys_unique_witness :
  NoDup (sqlite.ml_name <$> sqlite.mailing_lists (cache.db afterRefetch))
  ∧ NoDup (sqlite.ms_id <$> sqlite.messages (cache.db afterRefetch))
  ∧ NoDup (sqlite.mc_id <$> sqlite.message_content (cache.db afterRefetch)).
Proof.
  apply (reachable_primary_keys_unique afterRefetch).
  unfold afterRefetch. repeat constructor.
Defined.

(** X10. Storing a message content leaves the lookups of every other id as
    they were. *)
Theorem SetMessageContent_other_ids_unchanged
    (c : cache.Cache) (now now' : Z) (m : MessageContent) (listName id : string) :
  id ≠ ID m →
  cache.GetMessageContent (cache.SetMessageContent c now m) now' listName id
  = cache.GetMessageContent c now' listName id.
Proof.
  intros Hid. unfold cache.GetMessageContent, cache.selectMessageContent,
    cache.SetMessageContent, sqlite.replace_message_content.
  cbn [cache.db cache.with_db sqlite.message_content].
  change (cache.cutoff (cache.with_db c _) now') with (cache.cutoff c now').
  rewrite list_find_snd_snoc by (cbn; intros (? & _); congruence).
  rewrite list_find_snd_filter; [done|]. intros r (Hr & _). congruence.
Qed.

Lemma SetMessageContent_other_ids_unchanged_witness :
  cache.GetMessageContent (cache.SetMessageContent sampleCache (1001 * second) otherMessage)
    (1002 * second) "git" "42"
  = cache.GetMessageContent sampleCache (1002 * second) "git" "42".
Proof.
  apply (SetMessageContent_other_ids_unchanged sampleCache (1001 * second) (1002 * second)
           otherMessage "git" "42").
  discriminate.
Defined.

(** X11. The id alone is the key of a message content: storing a message
    under one list makes the lookup of the same id under any other list a
    miss, whatever was stored before. *)
Theorem SetMessageContent_evicts_other_list
    (c : cache.Cache) (now now' : Z) (m : MessageContent) (listName : string) :
  listName ≠ List m →
  cache.GetMessageContent (cache.SetMessageContent c now m) now' listName (ID m)
  = (None, false).
Proof.
  intros Hl. unfold cache.GetMessageContent, cache.selectMessageContent,
    cache.SetMessageContent, sqlite.replace_message_content.
  cbn [cache.db cache.with_db sqlite.message_content].
  match goal with
  | |- context [list_find ?P ?l] =>
      assert (list_find P l = None) as ->; [|done]
  end.
  apply list_find_None, Forall_app. split.
  - apply Forall_forall. intros r [Hr _]%list_elem_of_filter (Hid & _). done.
  - apply Forall_singleton. cbn. intros (_ & Hlist & _). congruence.
Qed.

Lemma SetMessageContent_evicts_other_list_witness :
  cache.GetMessageContent
    (cache.SetMessageContent sampleCache (1001 * second)
       {| Msg := mkMessage "42" "linux-kernel" "Fix bug" "Alice" "";
          Body := "The body."; Headers := None |})
    (1002 * second) "git" "42"
  = (None, false).
Proof.
  apply (SetMessageContent_evicts_other_list sampleCache (1001 * second) (1002 * second)
           {| Msg := mkMessage "42" "linux-kernel" "Fix bug" "Alice" "";
              Body := "The body."; Headers := None |} "git").
  discriminate.
Defined.

(** ** Further properties: the cached listings *)

Section cache_listing_extra.
Import sqlite cache.

Global Instance byDateDesc_total : Total byDateDesc.
Proof. intros r1 r2. unfold byDateDesc. apply String.le_total. Qed.

Global Instance byCategoryName_total : Total byCategoryName.
Proof.
  intros r1 r2. unfold byCategoryName.
  destruct (String.eqb_spec (ml_category r1) (ml_category r2)) as [Heq|Hne].
  - rewrite Heq, String.eqb_refl. apply String.le_total.
  - destruct (String.eqb_spec (ml_category r2) (ml_category r1)) as [Heq'|_];
      [by symmetry in Heq'|]. apply String.le_total.
Qed.

Lemma selectMessages_spec c now listName pattern :
  ∃ rows,
    rows ≡ₚ filter (λ r, ms_list r = listName ∧ cutoff c now < ms_updated_at r
                         ∧ dateMatches pattern (ms_date r) = true) (messages (db c))
    ∧ Sorted byDateDesc rows
    ∧ selectMessages c now listName pattern
      = (messageOfRow <$> rows, negb (length rows =? 0)%nat).
Proof.
  unfold selectMessages.
  set (rows := filter _ (messages (db c))).
  exists (merge_sort byDateDesc rows). split; [apply merge_sort_Permutation|].
  split; [apply (Sorted_merge_sort _)|].
  rewrite length_fmap.
  destruct (merge_sort byDateDesc rows) as [|r rest]; done.
Qed.

Lemma GetMessages_select c now listName month r :
  GetMessages c now listName month = Returns r →
  r = selectMessages c now listName
        (if negb (String.eqb month "")
         then Some (strings.take 4 month +:+ "-" +:+ strings.drop 4 month +:+ "%")
         else None).
Proof.
  unfold GetMessages, datePrefix. destruct (negb (String.eqb month "")); [|congruence].
  destruct (String.length month <? 4)%nat; [done|congruence].
Qed.

Lemma lowerByte_plain (c d : ascii) :
  regexp.isDigit c || Ascii.eqb c "-" = true →
  Ascii.eqb c "%" = false ∧ Ascii.eqb c "_" = false
  ∧ Ascii.eqb (strings.lowerByte c) (strings.lowerByte d) = Ascii.eqb c d.
Proof.
  intros Hc.
  assert (strings.lowerByte c = c ∧ Ascii.eqb c "%" = false ∧ Ascii.eqb c "_" = false
          ∧ (N_of_ascii c < 65)%N) as (-> & ? & ? & Hlt).
  { destruct c as [[] [] [] [] [] [] [] []]; try discriminate Hc; by vm_compute. }
  repeat split; [done..|].
  unfold strings.lowerByte.
  destruct ((65 <=? N_of_ascii d) && (N_of_ascii d <=? 90))%N eqn:Hd; [|done].
  apply andb_prop in Hd as [Hd1%N.leb_le Hd2%N.leb_le].
  destruct (Ascii.eqb_spec c d) as [->|_]; [lia|].
  apply Ascii.eqb_neq. intros ->.
  rewrite N_ascii_embedding in Hlt by lia. lia.
Qed.

Lemma HasPrefix_cons a p b s :
  strings.HasPrefix (String b s) (String a p)
  = if Ascii.eqb a b then strings.HasPrefix s p else false.
Proof. reflexivity. Qed.

Lemma like_any s : like "%" s = true.
Proof.
  induction s as [|c s IH]; [done|]. cbn in *.
  first [exact IH | by rewrite IH, ?orb_true_r].
Qed.

(** A pattern of digits and hyphens followed by [%] is a prefix test. *)
Lemma like_prefix (p s : string) :
  allBytes (λ c, regexp.isDigit c || Ascii.eqb c "-") p = true →
  like (p +:+ "%") s = strings.HasPrefix s p.
Proof.
  revert s. induction p as [|c p IH]; intros s Hp.
  - rewrite app_nil_l, like_any. by destruct s.
  - rewrite app_cons. cbn [allBytes] in Hp. apply andb_prop in Hp as [Hc Hp].
    cbn [like]. destruct s as [|d s].
    + destruct (lowerByte_plain c c Hc) as (-> & _). done.
    + destruct (lowerByte_plain c d Hc) as (-> & -> & ->).
      rewrite HasPrefix_cons, IH by done. cbn [orb].
      by destruct (Ascii.eqb c d).
Qed.

Lemma allBytes_take p n s : allBytes p s = true → allBytes p (strings.take n s) = true.
Proof.
  revert s. induction n as [|n IH]; intros [|c s]; cbn [strings.take allBytes]; try done.
  intros [-> Hs]%andb_prop. by rewrite IH.
Qed.

Lemma monthPrefix_plain month :
  allBytes regexp.isDigit month = true →
  allBytes (λ c, regexp.isDigit c || Ascii.eqb c "-") (monthPrefix month) = true.
Proof.
  intros Hm. unfold monthPrefix.
  assert (∀ s, allBytes regexp.isDigit s = true →
               allBytes (λ c, regexp.isDigit c || Ascii.eqb c "-") s = true) as Himp.
  { intros s. apply allBytes_impl. by intros c ->. }
  rewrite !allBytes_app.
  rewrite (Himp (strings.take 4 month)) by (by apply allBytes_take).
  rewrite (Himp (strings.drop 4 month)) by (by apply allBytes_drop).
  done.
Qed.

Lemma replace_message_keeps (r : messages_row) (steps : list messages_row) (d : DB) :
  r ∈ messages d → Forall (λ x, ms_id x ≠ ms_id r) steps →
  r ∈ messages (foldl (λ d x, replace_message x d) d steps).
Proof.
  intros Hr Hsteps. revert d Hr.
  induction Hsteps as [|x steps Hx _ IH]; intros d Hr; [done|].
  cbn [foldl]. apply IH. unfold replace_message. cbn [messages].
  apply elem_of_app. left. apply list_elem_of_filter. split; [congruence|done].
Qed.

Lemma replace_message_stores (r : messages_row) (steps : list messages_row) (d : DB) :
  NoDup (ms_id <$> steps) → r ∈ steps →
  r ∈ messages (foldl (λ d x, replace_message x d) d steps).
Proof.
  intros Hnd Hr. revert d.
  induction steps as [|x steps IH]; intros d; [by apply elem_of_nil in Hr|].
  rewrite fmap_cons in Hnd. apply NoDup_cons in Hnd as [Hx Hnd]. cbn [foldl].
  apply elem_of_cons in Hr as [->|Hr]; [|by apply IH].
  apply replace_message_keeps.
  - unfold replace_message. cbn [messages]. apply elem_of_app. right.
    by apply list_elem_of_singleton.
  - apply Forall_forall. intros y Hy Heq. apply Hx. rewrite <-Heq.
    by apply list_elem_of_fmap_2.
Qed.

Lemma replace_mailing_list_keeps (r : mailing_lists_row) (steps : list mailing_lists_row)
    (d : DB) :
  r ∈ mailing_lists d → Forall (λ x, ml_name x ≠ ml_name r) steps →
  r ∈ mailing_lists (foldl (λ d x, replace_mailing_list x d) d steps).
Proof.
  intros Hr Hsteps. revert d Hr.
  induction Hsteps as [|x steps Hx _ IH]; intros d Hr; [done|].
  cbn [foldl]. apply IH. unfold replace_mailing_list. cbn [mailing_lists].
  apply elem_of_app. left. apply list_elem_of_filter. split; [congruence|done].
Qed.

Lemma replace_mailing_list_stores (r : mailing_lists_row) (steps : list mailing_lists_row)
    (d : DB) :
  NoDup (ml_name <$> steps) → r ∈ steps →
  r ∈ mailing_lists (foldl (λ d x, replace_mailing_list x d) d steps).
Proof.
  intros Hnd Hr. revert d.
  induction steps as [|x steps IH]; intros d; [by apply elem_of_nil in Hr|].
  rewrite fmap_cons in Hnd. apply NoDup_cons in Hnd as [Hx Hnd]. cbn [foldl].
  apply elem_of_cons in Hr as [->|Hr]; [|by apply IH].
  apply replace_mailing_list_keeps.
  - unfold replace_mailing_list. cbn [mailing_lists]. apply elem_of_app. right.
    by apply list_elem_of_singleton.
  - apply Forall_forall. intros y Hy Heq. apply Hx. rewrite <-Heq.
    by apply list_elem_of_fmap_2.
Qed.

Lemma foldl_fmap_step {A B S} (f : A → B) (step : S → B → S) (s : S) (l : list A) :
  foldl (λ s x, step s (f x)) s l = foldl step s (f <$> l).
Proof. revert s. induction l as [|x l IH]; intros s; [done|]. cbn. apply IH. Qed.

End cache_listing_extra.

(** X12. What [GetMessages] returns is scoped, ordered and flagged: every
    message is of the list asked for, the dates descend, and the found flag
    is set exactly when the result is not empty. *)
Theorem GetMessages_scoped_and_ordered
    (c : cache.Cache) (now : Z) (listName month : string)
    (found : list Message) (ok : bool) :
  cache.GetMessages c now listName month = Returns (found, ok) →
  Forall (λ m, List m = listName) found
  ∧ Sorted dateDescOrder found
  ∧ (ok = true ↔ found ≠ []).
Proof.
  intros Hget%GetMessages_select.
  destruct (selectMessages_spec c now listName
              (if negb (String.eqb month "")
               then Some (strings.take 4 month +:+ "-" +:+ strings.drop 4 month +:+ "%")
               else None)) as (rows & Hperm & Hsorted & Hsel).
  rewrite Hsel in Hget. injection Hget as -> ->. repeat split.
  - apply Forall_fmap, Forall_forall. intros r Hr. rewrite Hperm in Hr.
    by apply list_elem_of_filter in Hr as [(? & _) _].
  - by apply (Sorted_fmap _ cache.byDateDesc).
  - by destruct rows.
  - by destruct rows.
Qed.

Lemma GetMessages_scoped_and_ordered_witness :
  Forall (λ m, List m = "test") [ mkMessage "300" "test" "Feb message" "Author" "2026-02-15" ]
  ∧ Sorted dateDescOrder [ mkMessage "300" "test" "Feb message" "Author" "2026-02-15" ]
  ∧ (true = true
     ↔ [ mkMessage "300" "test" "Feb message" "Author" "2026-02-15" ] ≠ []).
Proof.
  apply (GetMessages_scoped_and_ordered
           (cache.SetMessages (cache.New hour) (1000 * second)
              [ mkMessage "300" "test" "Feb message" "Author" "2026-02-15";
                mkMessage "301" "test" "Jan message" "Author" "2026-01-15" ])
           (1001 * second) "test" "202602").
  vm_compute. reflexivity.
Defined.

(** X13. A month of digits selects by date prefix: with the month [YYYYMM]
    the result of [GetMessages] holds exactly the fresh stubs of the list
    whose date starts with [YYYY-MM]. *)
Theorem GetMessages_month_selects_date_prefix
    (c : cache.Cache) (now : Z) (listName month : string)
    (found : list Message) (ok : bool) :
  month ≠ "" →
  allBytes regexp.isDigit month = true →
  cache.GetMessages c now listName month = Returns (found, ok) →
  ∀ m, m ∈ found
       ↔ ∃ r, r ∈ sqlite.messages (cache.db c)
              ∧ m = cache.messageOfRow r
              ∧ sqlite.ms_list r = listName
              ∧ cache.cutoff c now < sqlite.ms_updated_at r
              ∧ strings.HasPrefix (sqlite.ms_date r) (monthPrefix month) = true.
Proof.
  intros Hne Hdigits Hget%GetMessages_select m.
  destruct (String.eqb_spec month "") as [|_]; [done|]. cbn [negb] in Hget.
  destruct (selectMessages_spec c now listName
              (Some (strings.take 4 month +:+ "-" +:+ strings.drop 4 month +:+ "%")))
    as (rows & Hperm & _ & Hsel).
  rewrite Hsel in Hget. injection Hget as -> ->.
  rewrite list_elem_of_fmap.
  assert (∀ date, sqlite.like (strings.take 4 month +:+ "-" +:+ strings.drop 4 month +:+ "%")
                    date
                  = strings.HasPrefix date (monthPrefix month)) as Hlike.
  { intros date. rewrite <-like_prefix by (by apply monthPrefix_plain).
    unfold monthPrefix. by rewrite !app_assoc_s. }
  split.
  - intros (r & -> & Hr). rewrite Hperm in Hr.
    apply list_elem_of_filter in Hr as [(Hl & Hfresh & Hdate) Hr].
    exists r. cbn [cache.dateMatches] in Hdate. rewrite Hlike in Hdate. done.
  - intros (r & Hr & -> & Hl & Hfresh & Hdate). exists r. split; [done|].
    rewrite Hperm. apply list_elem_of_filter. split; [|done].
    cbn [cache.dateMatches]. by rewrite Hlike.
Qed.

Lemma GetMessages_month_selects_date_prefix_witness :
  mkMessage "300" "test" "Feb message" "Author" "2026-02-15"
    ∈ [ mkMessage "300" "test" "Feb message" "Author" "2026-02-15" ]
  ↔ ∃ r, r ∈ sqlite.messages
               (cache.db (cache.SetMessages (cache.New hour) (1000 * second)
                  [ mkMessage "300" "test" "Feb message" "Author" "2026-02-15";
                    mkMessage "301" "test" "Jan message" "Author" "2026-01-15" ]))
         ∧ mkMessage "300" "test" "Feb message" "Author" "2026-02-15" = cache.messageOfRow r
         ∧ sqlite.ms_list r = "test"
         ∧ cache.cutoff
             (cache.SetMessages (cache.New hour) (1000 * second)
                [ mkMessage "300" "test" "Feb message" "Author" "2026-02-15";
                  mkMessage "301" "test" "Jan message" "Author" "2026-01-15" ])
             (1001 * second) < sqlite.ms_updated_at r
         ∧ strings.HasPrefix (sqlite.ms_date r) (monthPrefix "202602") = true.
Proof.
  apply (GetMessages_month_selects_date_prefix _ (1001 * second) "test" "202602" _ true).
  - discriminate.
  - reflexivity.
  - vm_compute. reflexivity.
Defined.

(** X14. Message stubs written are read back: after [SetMessages] with
    stubs of pairwise different ids, and for as long as the entries are
    fresh, [GetMessages] without a month finds every one of them under its
    list. *)
Theorem SetMessages_then_GetMessages
    (c : cache.Cache) (now now' : Z) (msgs : list Message) (m : Message) :
  NoDup (ID <$> msgs) →
  m ∈ msgs →
  now' - now ≤ cache.ttl c - second →
  ∃ found,
    cache.GetMessages (cache.SetMessages c now msgs) now' (List m) "" = Returns (found, true)
    ∧ m ∈ found.
Proof.
  intros Hnd Hm Hw%within_window.
  unfold cache.GetMessages. cbn [String.eqb negb].
  destruct (selectMessages_spec (cache.SetMessages c now msgs) now' (List m) None)
    as (rows & Hperm & _ & ->).
  assert (rowOfMessage now m ∈ rows) as Hrow.
  { rewrite Hperm. apply list_elem_of_filter.
    assert (cache.cutoff (cache.SetMessages c now msgs) now' = cache.cutoff c now') as ->
      by (unfold cache.SetMessages; by destruct (length msgs =? 0)%nat).
    split; [by repeat split|].
    unfold cache.SetMessages. destruct msgs as [|x msgs]; [by apply elem_of_nil in Hm|].
    cbn [length Nat.eqb cache.db cache.with_db].
    rewrite (foldl_fmap_step (rowOfMessage now) (λ d x, sqlite.replace_message x d)).
    apply replace_message_stores; [|by apply list_elem_of_fmap_2].
    by rewrite <-list_fmap_compose. }
  exists (cache.messageOfRow <$> rows). split.
  - destruct rows; [by apply elem_of_nil in Hrow|done].
  - apply list_elem_of_fmap. exists (rowOfMessage now m). split; [by destruct m|done].
Qed.

Lemma SetMessages_then_GetMessages_witness :
  ∃ found,
    cache.GetMessages
      (cache.SetMessages (cache.New hour) (1000 * second)
         [ mkMessage "300" "test" "Feb message" "Author" "2026-02-15";
           mkMessage "301" "test" "Jan message" "Author" "2026-01-15" ])
      (1001 * second) (List (mkMessage "301" "test" "Jan message" "Author" "2026-01-15")) ""
    = Returns (found, true)
    ∧ mkMessage "301" "test" "Jan message" "Author" "2026-01-15" ∈ found.
Proof.
  apply (SetMessages_then_GetMessages (cache.New hour) (1000 * second) (1001 * second)).
  - apply (bool_decide_unpack _). by vm_compute.
  - apply list_elem_of_further, list_elem_of_here.
  - vm_compute. discriminate.
Defined.

(** X15. Mailing lists written are read back, in order: after
    [SetMailingLists] with lists of pairwise different names, and for as
    long as the entries are fresh, [GetMailingLists] finds every one of
    them; and whatever it returns is ordered by category, then name. *)
Theorem SetMailingLists_then_GetMailingLists
    (c : cache.Cache) (now now' : Z) (lists : list MailingList) (l : MailingList) :
  NoDup (Name <$> lists) →
  l ∈ lists →
  now' - now ≤ cache.ttl c - second →
  ∃ found,
    cache.GetMailingLists (cache.SetMailingLists c now lists) now' = (found, true)
    ∧ l ∈ found
    ∧ Sorted categoryNameOrder found.
Proof.
  intros Hnd Hl Hw%within_window. unfold cache.GetMailingLists.
  set (rows := filter _ _).
  pose proof (merge_sort_Permutation cache.byCategoryName rows) as Hperm.
  pose proof (Sorted_merge_sort cache.byCategoryName rows) as Hsorted.
  assert (rowOfMailingList now l ∈ merge_sort cache.byCategoryName rows) as Hrow.
  { rewrite Hperm. apply list_elem_of_filter. split; [exact Hw|].
    unfold cache.SetMailingLists. cbn [cache.db cache.with_db].
    rewrite (foldl_fmap_step (rowOfMailingList now)
               (λ d x, sqlite.replace_mailing_list x d)).
    apply replace_mailing_list_stores; [|by apply list_elem_of_fmap_2].
    by rewrite <-list_fmap_compose. }
  exists ((λ r, {| Name := sqlite.ml_name r; Category := sqlite.ml_category r |})
            <$> merge_sort cache.byCategoryName rows).
  split; [|split].
  - rewrite length_fmap. destruct (merge_sort cache.byCategoryName rows);
      [by apply elem_of_nil in Hrow|done].
  - apply list_elem_of_fmap. exists (rowOfMailingList now l).
    split; [by destruct l|done].
  - by apply (Sorted_fmap _ cache.byCategoryName).
Qed.

Lemma SetMailingLists_then_GetMailingLists_witness :
  ∃ found,
    cache.GetMailingLists
      (cache.SetMailingLists (cache.New hour) (1000 * second)
         [ {| Name := "git"; Category := "Development" |};
           {| Name := "bugtraq"; Category := "Security" |} ])
      (1001 * second)
    = (found, true)
    ∧ {| Name := "git"; Category := "Development" |} ∈ found
    ∧ Sorted categoryNameOrder found.
Proof.
  apply (SetMailingLists_then_GetMailingLists (cache.New hour) (1000 * second)
           (1001 * second)).
  - apply (bool_decide_unpack _). by vm_compute.
  - apply list_elem_of_here.
  - vm_compute. discriminate.
Defined.

(** ** Further properties: the index, search and cleanup *)

Section cache_search_extra.
Import sqlite cache.

Variable fts5 : string → option (list fts_row → fts_row → option Z).

Lemma matchJoin_intro (d : DB) score (r : message_content_row) (rank : Z) :
  r ∈ message_content d → fts_of r ∈ messages_fts d →
  score (messages_fts d) (fts_of r) = Some rank →
  (rank, r) ∈ matchJoin d score.
Proof.
  intros Hr He Hscore. unfold matchJoin. apply list_elem_of_bind.
  exists (fts_of r). split; [|done]. rewrite Hscore.
  apply list_elem_of_fmap. exists r. split; [done|].
  by apply list_elem_of_filter.
Qed.

Lemma SearchMessages_complete (c : Cache) (query listName : string) score
    (r : message_content_row) (rank : Z) :
  rowsIndexed (db c) →
  fts5 query = Some score →
  r ∈ message_content (db c) →
  score (messages_fts (db c)) (fts_of r) = Some rank →
  listName = "" ∨ mc_list r = listName →
  (length (matchJoin (db c) score) ≤ 100)%nat →
  ∃ msgs, SearchMessages fts5 c query listName = Ok msgs ∧ messageOfContent r ∈ msgs.
Proof.
  intros Hidx Hq Hr Hscore Hlist Hcap. unfold SearchMessages. rewrite Hq.
  eexists. split; [done|].
  apply list_elem_of_fmap. exists (rank, r). split; [done|].
  pose proof (matchJoin_intro _ _ _ _ Hr (Hidx _ Hr) Hscore) as Hin.
  rewrite take_ge.
  - rewrite merge_sort_Permutation.
    destruct (String.eqb_spec listName "") as [->|Hne]; cbn [negb]; [done|].
    apply list_elem_of_filter. by destruct Hlist.
  - rewrite length_merge_sort.
    destruct (negb (String.eqb listName "")); [|done].
    etrans; [apply length_filter|done].
Qed.

Lemma Cleanup_twice (c : Cache) (now : Z) : Cleanup (Cleanup c now) now = Cleanup c now.
Proof.
  unfold Cleanup, delete_expired. cbn [db with_db ttl mailing_lists messages
    message_content messages_fts recursive_triggers].
  change (cutoff (with_db c _) now) with (cutoff c now).
  unfold with_db. cbn [ttl]. f_equal.
  rewrite !list_filter_filter_l by done.
  assert (filter (λ x, mc_updated_at x < cutoff c now)
            (filter (λ x, ¬ mc_updated_at x < cutoff c now) (message_content (db c)))
          = []) as ->; [|done].
  induction (message_content (db c)) as [|x l IH]; [done|].
  rewrite filter_cons. destruct (decide (¬ mc_updated_at x < cutoff c now)); [|done].
  rewrite filter_cons. by rewrite decide_False.
Qed.

End cache_search_extra.

(** X16. Search misses no cached content: in every state the store
    reaches, a content row whose index entry the query matches is among
    the results, under the list filter if one is given, as long as the
    hundred-row cap is not reached. *)
Theorem search_finds_every_matching_content
    (fts5 : string → option (list sqlite.fts_row → sqlite.fts_row → option Z))
    (c : cache.Cache) (query listName : string)
    (score : list sqlite.fts_row → sqlite.fts_row → option Z)
    (r : sqlite.message_content_row) (rank : Z) :
  reachable c →
  fts5 query = Some score →
  r ∈ sqlite.message_content (cache.db c) →
  score (sqlite.messages_fts (cache.db c)) (sqlite.fts_of r) = Some rank →
  listName = "" ∨ sqlite.mc_list r = listName →
  (length (cache.matchJoin (cache.db c) score) ≤ 100)%nat →
  ∃ msgs, cache.SearchMessages fts5 c query listName = Ok msgs
          ∧ cache.messageOfContent r ∈ msgs.
Proof.
  intros Hreach. apply SearchMessages_complete.
  by apply reachable_rows_indexed.
Qed.

Lemma search_finds_every_matching_content_witness :
  ∃ msgs, cache.SearchMessages wordEngine searchScenario "fix" "git" = Ok msgs
          ∧ cache.messageOfContent firstScenarioRow ∈ msgs.
Proof.
  pose (score := λ (_ : list sqlite.fts_row) (e : sqlite.fts_row),
            let n := length (filter (λ x, x = "fix") (entryWords e)) in
            if (n =? 0)%nat then None else Some (- Z.of_nat n)).
  assert (wordEngine "fix" = Some score) as Hq by reflexivity.
  apply (search_finds_every_matching_content wordEngine searchScenario "fix" "git"
           score firstScenarioRow (-1)).
  - unfold searchScenario. cbn [foldl]. repeat constructor.
  - exact Hq.
  - apply (bool_decide_unpack _). by vm_compute.
  - vm_compute. reflexivity.
  - right. reflexivity.
  - vm_compute. lia.
Defined.

(** X17. Cleanup keeps the index in step with the content table: if every
    row has its index entry and every entry its row before, the same holds
    after, and the row ids stay pairwise different. *)
Theorem Cleanup_keeps_index_in_sync (c : cache.Cache) (now : Z) :
  rowidsUnique (cache.db c) → inSync (cache.db c) →
  rowidsUnique (cache.db (cache.Cleanup c now)) ∧ inSync (cache.db (cache.Cleanup c now)).
Proof.
  intros Huniq [Hidx Hback]. unfold cache.Cleanup. cbn [cache.db cache.with_db].
  destruct (delete_expired_indexed (cache.cutoff c now) _ Huniq Hidx) as [? ?].
  repeat split; [done..|]. by apply delete_expired_backed.
Qed.

Lemma Cleanup_keeps_index_in_sync_witness :
  rowidsUnique (cache.db (cache.Cleanup sampleCache (1000 * second + 2 * hour)))
  ∧ inSync (cache.db (cache.Cleanup sampleCache (1000 * second + 2 * hour))).
Proof.
  apply (Cleanup_keeps_index_in_sync sampleCache (1000 * second + 2 * hour)).
  - apply (bool_decide_unpack _). by vm_compute.
  - split.
    + intros r Hr. apply list_elem_of_singleton in Hr as ->. apply list_elem_of_here.
    + intros e He. apply list_elem_of_singleton in He as ->.
      eexists. split; [apply list_elem_of_here|reflexivity].
Defined.

(** X18. Cleanup is idempotent: a second cleanup at the same instant
    changes nothing. *)
Theorem Cleanup_idempotent (c : cache.Cache) (now : Z) :
  cache.Cleanup (cache.Cleanup c now) now = cache.Cleanup c now.
Proof. apply Cleanup_twice. Qed.

(** ** Further properties: the client *)

Section client_extra.
Import sqlite cache.

Lemma FindStringSubmatch_id (href : string) :
  length (messageLinkRegex_FindStringSubmatch href) = 3%nat →
  messageLinkRegex_FindStringSubmatch href !!! 2%nat ≠ ""
  ∧ allBytes regexp.isDigit (messageLinkRegex_FindStringSubmatch href !!! 2%nat) = true.
Proof.
  unfold messageLinkRegex_FindStringSubmatch.
  destruct (regexp.find messageLinkRegex href) as [ps|] eqn:Hlink; [|done]. intros _.
  destruct (find_sound _ _ _ Hlink) as (_ & _ & Hok & _).
  unfold piecesOk, messageLinkRegex in Hok.
  repeat match goal with
         | H : Forall2 _ (_ :: _) _ |- _ =>
             let Hp := fresh "Hp" in
             apply Forall2_cons_inv_l in H as (? & ? & Hp & H & ->)
         | H : Forall2 _ [] _ |- _ => apply Forall2_nil_inv_l in H as ->
         end.
  match goal with
  | H : pieceOk (regexp.Atom regexp.isDigit regexp.Plus) ?id |- _ =>
      unfold pieceOk in H; cbn [regexp.rep regexp.cls] in H; destruct H as [Hne Hdigits]
  end.
  done.
Qed.

Lemma FindString_dateRegex_shape (s : string) :
  regexp.FindString dateRegex s = "" ∨ isISODate (regexp.FindString dateRegex s) = true.
Proof.
  destruct (regexp.find dateRegex s) as [ps|] eqn:Hfind.
  - right. by destruct (FindString_dateRegex _ _ Hfind).
  - left. unfold regexp.FindString. by rewrite Hfind.
Qed.

Lemma messageListWalk_hits (listName : string) (n : Node) :
  ∀ parent messages,
    Forall (searchHit listName) messages →
    Forall (searchHit listName) (messageListWalk listName parent n messages).
Proof.
  induction n as [t d a children IH] using Node_forall_ind. intros parent messages Hm.
  cbn [messageListWalk].
  match goal with
  | |- Forall _ (foldl _ ?start _) =>
      assert (Forall (searchHit listName) start) as Hstart;
        [|revert Hstart; generalize start; generalize (Some (MkNode t d a children))]
  end.
  { destruct (isElement _ "a"); [|done].
    destruct (length _ =? 3)%nat eqn:Hlen; [|done]. apply Nat.eqb_eq in Hlen.
    destruct (String.eqb_spec (strings.TrimSpace (extractText (MkNode t d a children))) "")
      as [|Hsubject]; cbn [negb]; [done|].
    destruct (extractMessageMetaSimple parent) as [date author] eqn:Hmeta.
    apply Forall_app. split; [done|]. apply Forall_singleton.
    destruct (FindStringSubmatch_id _ Hlen) as [Hne Hdigits].
    repeat split; try done. cbn [Date].
    unfold extractMessageMetaSimple in Hmeta. injection Hmeta as <- _.
    apply FindString_dateRegex_shape. }
  induction IH as [|c children Hc _ IHchildren]; intros parent' start Hstart; [done|].
  cbn [foldl]. apply IHchildren. by apply Hc.
Qed.

End client_extra.

(** X19. An operation of the client that returns an error leaves the cache
    as it was: nothing is stored for a failed request, a page of an
    unknown list, or a page that does not parse. *)
Theorem failed_call_leaves_cache_unchanged
    (upstream : string → Result string) (html_Parse : string → Result Node)
    (now : Time) (opts : ListMessagesOptions) (listName messageID : string) (w : World) :
  cacheKeptOnError w (ListMailingLists upstream html_Parse now w)
  ∧ match ListMessagesWithOptions upstream now opts w with
    | Returns r => cacheKeptOnError w r
    | Panics => True
    end
  ∧ cacheKeptOnError w (GetMessage upstream html_Parse now listName messageID w).
Proof.
  assert (∀ listName month page limit,
            cacheKeptOnError w
              (listMessagesUpstream upstream now listName month page limit w)) as Hup.
  { intros l month page limit. unfold listMessagesUpstream, fetchRaw, cacheKeptOnError.
    destruct (upstream _) as [raw|e]; [|done].
    by destruct (strings.Contains raw "No such list"). }
  repeat split.
  - unfold ListMailingLists, fetch, fetchRaw, cacheKeptOnError.
    destruct (cache.GetMailingLists _ _) as [cached [|]]; [done|].
    destruct (upstream _) as [body|e]; [destruct (html_Parse body)|]; done.
  - unfold ListMessagesWithOptions.
    destruct (_ && _); [|apply Hup].
    destruct (cache.GetMessages _ _ _ _) as [[cached [|]]|]; [done|apply Hup|done].
  - unfold GetMessage, fetchRaw, parseMessage, cacheKeptOnError.
    destruct (cache.GetMessageContent _ _ _ _) as [[cached|] [|]]; try done;
      (destruct (upstream _) as [raw|e]; [destruct (html_Parse raw)|]; done).
Qed.

(** X20. A call of the client requests at most one page of the archive,
    and only the page of what was asked: the catalog, the listing of the
    month and page, or the message. *)
Theorem call_requests_at_most_its_page
    (upstream : string → Result string) (html_Parse : string → Result Node)
    (now : Time) (opts : ListMessagesOptions) (listName messageID : string) (w : World) :
  requestedAtMost w "" (ListMailingLists upstream html_Parse now w).2
  ∧ match ListMessagesWithOptions upstream now opts w with
    | Returns r =>
        requestedAtMost w
          (messagesPath (opt_List opts) (effectiveMonth now opts) (effectivePage opts)) r.2
    | Panics => True
    end
  ∧ requestedAtMost w (messagePath listName messageID)
      (GetMessage upstream html_Parse now listName messageID w).2.
Proof.
  assert (∀ listName month page limit,
            requestedAtMost w (messagesPath listName month page)
              (listMessagesUpstream upstream now listName month page limit w).2) as Hup.
  { intros l month page limit. unfold listMessagesUpstream, fetchRaw, requestedAtMost.
    right. destruct (upstream _) as [raw|e]; [|done].
    by destruct (strings.Contains raw "No such list"). }
  repeat split.
  - unfold ListMailingLists, fetch, fetchRaw, requestedAtMost.
    destruct (cache.GetMailingLists _ _) as [cached [|]]; [by left|]. right.
    destruct (upstream _) as [body|e]; [destruct (html_Parse body)|]; done.
  - unfold ListMessagesWithOptions. fold (effectiveMonth now opts) (effectivePage opts).
    destruct (_ && _); [|apply Hup].
    destruct (cache.GetMessages _ _ _ _) as [[cached [|]]|]; [by left|apply Hup|done].
  - unfold GetMessage, fetchRaw, parseMessage, requestedAtMost.
    destruct (cache.GetMessageContent _ _ _ _) as [[cached|] [|]]; [by left|..];
      right; (destruct (upstream _) as [raw|e]; [destruct (html_Parse raw)|]; done).
Qed.

(** X21. A message fetched once is served from the cache afterwards: when
    [GetMessage] went to the archive and succeeded, a second call for the
    same message within the time to live, less one second, requests
    nothing, whatever the archive would answer, and returns the record of
    the first call with its headers as the cache stores them. *)
Theorem GetMessage_repeated_from_cache
    (upstream upstream' : string → Result string)
    (html_Parse html_Parse' : string → Result Node)
    (now now' : Time) (listName messageID : string) (w w' : World) (m : MessageContent) :
  GetMessage upstream html_Parse now listName messageID w = (Ok m, w') →
  w_fetched w' ≠ w_fetched w →
  UnixNano now' - UnixNano now ≤ cache.ttl (w_cache w) - second →
  GetMessage upstream' html_Parse' now' listName messageID w'
  = (Ok {| Msg := Msg m; Body := Body m; Headers := json.coerceHeaders (Headers m) |}, w').
Proof.
  unfold GetMessage at 1.
  assert (∀ doc,
            UnixNano now' - UnixNano now ≤ cache.ttl (w_cache w) - second →
            GetMessage upstream' html_Parse' now' listName messageID
              (with_cache {| w_cache := w_cache w;
                             w_fetched := w_fetched w ++ [messagePath listName messageID] |}
                 (cache.SetMessageContent (w_cache w) (UnixNano now)
                    (parseMessageFrom doc listName messageID)))
            = (Ok {| Msg := Msg (parseMessageFrom doc listName messageID);
                     Body := Body (parseMessageFrom doc listName messageID);
                     Headers := json.coerceHeaders
                                  (Headers (parseMessageFrom doc listName messageID)) |},
               with_cache {| w_cache := w_cache w;
                             w_fetched := w_fetched w ++ [messagePath listName messageID] |}
                 (cache.SetMessageContent (w_cache w) (UnixNano now)
                    (parseMessageFrom doc listName messageID)))) as Hsecond.
  { intros doc Hw%within_window.
    pose proof (set_get_exact (w_cache w) (UnixNano now) (UnixNano now')
                  (parseMessageFrom doc listName messageID) Hw) as Hsg.
    change (List (parseMessageFrom doc listName messageID)) with listName in Hsg.
    change (ID (parseMessageFrom doc listName messageID)) with messageID in Hsg.
    unfold GetMessage, with_cache. cbn [w_cache]. by rewrite Hsg. }
  destruct (cache.GetMessageContent (w_cache w) _ _ _) as [[cached|] [|]] eqn:Hget;
    try (by intros [= _ <-]);
    (unfold fetchRaw, parseMessage;
     destruct (upstream _) as [raw|e]; [|done];
     destruct (html_Parse raw) as [doc|e]; [|done];
     intros [= <- <-] _ Hw; by apply Hsecond).
Qed.

Lemma GetMessage_repeated_from_cache_witness :
  GetMessage (λ _, Err "offline") (λ _, Err "no parser")
    {| UnixNano := 1000 * second + hour - second; Year := 2026; Month := 2 |} "git" "42"
    (GetMessage sampleUpstream sampleParse sampleTime "git" "42" (newWorld hour)).2
  = (Ok {| Msg := Msg (parseMessageFrom messagePage "git" "42");
           Body := Body (parseMessageFrom messagePage "git" "42");
           Headers := json.coerceHeaders (Headers (parseMessageFrom messagePage "git" "42")) |},
     (GetMessage sampleUpstream sampleParse sampleTime "git" "42" (newWorld hour)).2).
Proof.
  apply (GetMessage_repeated_from_cache sampleUpstream (λ _, Err "offline")
           sampleParse (λ _, Err "no parser") sampleTime
           {| UnixNano := 1000 * second + hour - second; Year := 2026; Month := 2 |}
           "git" "42" (newWorld hour)).
  - reflexivity.
  - cbn. discriminate.
  - vm_compute. discriminate.
Defined.

(** X22. A positive limit bounds the listing and bypasses the cache: the
    call goes to the archive, returns at most [limit] stubs, the first
    ones of the page in page order, and these are what it stores. *)
Theorem listing_respects_limit
    (upstream : string → Result string) (now : Time) (opts : ListMessagesOptions)
    (w w' : World) (msgs : list Message) :
  0 < opt_Limit opts →
  ListMessagesWithOptions upstream now opts w = Returns (Ok msgs, w') →
  Z.of_nat (length msgs) ≤ opt_Limit opts
  ∧ (∃ raw,
       upstream (messagesPath (opt_List opts) (effectiveMonth now opts) (effectivePage opts))
       = Ok raw
       ∧ msgs = take (Z.to_nat (opt_Limit opts))
                  (parseMessageListFromRaw raw (opt_List opts)))
  ∧ w_fetched w'
    = w_fetched w
      ++ [messagesPath (opt_List opts) (effectiveMonth now opts) (effectivePage opts)]
  ∧ w_cache w' = cache.SetMessages (w_cache w) (UnixNano now) msgs.
Proof.
  intros Hlimit. unfold ListMessagesWithOptions.
  fold (effectiveMonth now opts) (effectivePage opts).
  destruct (Z.eqb_spec (opt_Limit opts) 0) as [|_]; [lia|]. rewrite andb_false_r.
  unfold listMessagesUpstream, fetchRaw.
  destruct (upstream _) as [raw|e] eqn:Hraw; [|done].
  destruct (strings.Contains raw "No such list"); [done|].
  destruct (Z.ltb_spec 0 (opt_Limit opts)) as [_|]; [|lia]. cbn [andb].
  destruct (Z.ltb_spec (opt_Limit opts)
              (Z.of_nat (length (parseMessageListFromRaw raw (opt_List opts)))))
    as [Hlong|Hshort]; intros [= <- <-]; cbn [w_cache w_fetched with_cache].
  - repeat split; [rewrite length_take; lia|by exists raw].
  - repeat split; [lia|].
    exists raw. split; [done|]. rewrite take_ge; [done|lia].
Qed.

Lemma listing_respects_limit_witness :
  Z.of_nat (length [ mkMessage "42" "git" "Fix bug" "Alice" "2026-02-24" ]) ≤ 1
  ∧ (∃ raw,
       (λ _ : string, Ok (sampleRow "  Alice" +:+ String newline (sampleRow "  Bob")))
         (messagesPath "git" "202602" 1)
       = Ok raw
       ∧ [ mkMessage "42" "git" "Fix bug" "Alice" "2026-02-24" ]
         = take (Z.to_nat 1) (parseMessageListFromRaw raw "git"))
  ∧ w_fetched
      (with_cache
         {| w_cache := cache.New hour; w_fetched := [messagesPath "git" "202602" 1] |}
         (cache.SetMessages (cache.New hour) (UnixNano sampleTime)
            [ mkMessage "42" "git" "Fix bug" "Alice" "2026-02-24" ]))
    = w_fetched (newWorld hour) ++ [messagesPath "git" "202602" 1]
  ∧ w_cache
      (with_cache
         {| w_cache := cache.New hour; w_fetched := [messagesPath "git" "202602" 1] |}
         (cache.SetMessages (cache.New hour) (UnixNano sampleTime)
            [ mkMessage "42" "git" "Fix bug" "Alice" "2026-02-24" ]))
    = cache.SetMessages (w_cache (newWorld hour)) (UnixNano sampleTime)
        [ mkMessage "42" "git" "Fix bug" "Alice" "2026-02-24" ].
Proof.
  apply (listing_respects_limit
           (λ _, Ok (sampleRow "  Alice" +:+ String newline (sampleRow "  Bob")))
           sampleTime
           {| opt_List := "git"; opt_Month := "202602"; opt_Page := 1; opt_Limit := 1 |}
           (newWorld hour)).
  - reflexivity.
  - vm_compute. reflexivity.
Defined.

(** X23. Every result of the search extractor is well formed: it carries
    the list of the caller, a subject that is not empty, an id of one or
    more decimal digits, and a date that is empty or of the form
    dddd-dd-dd. *)
Theorem search_results_well_formed (doc : Node) (listName : string) :
  Forall (searchHit listName) (parseMessageList doc listName).
Proof. unfold parseMessageList. by apply messageListWalk_hits. Qed.

(** X24. The timeout of the HTTP client lies between ten seconds and
    fifteen minutes, whatever the environment holds and however it
    parses. *)
Theorem getTimeout_within_bounds
    (Getenv : string → string) (ParseDuration : string → Result Z) :
  minTimeout ≤ getTimeout Getenv ParseDuration ≤ maxTimeout.
Proof.
  unfold getTimeout.
  destruct (String.eqb _ ""); [by vm_compute|].
  destruct (ParseDuration _) as [d|e]; [|by vm_compute].
  destruct (Z.ltb_spec d minTimeout); [by vm_compute|].
  destruct (Z.ltb_spec maxTimeout d); [by vm_compute|]. lia.
Qed.

(** ** Further properties: the stored headers *)

Section json_extra.
Import json.

Lemma ValidString_replacement X : ValidString (replacement +:+ X) = ValidString X.
Proof. reflexivity. Qed.

(** What the encoder and the decoder make of a string is valid UTF-8. *)
Lemma coerce_is_valid_lt (n : nat) :
  ∀ s, (String.length s < n)%nat → ValidString (coerce s) = true.
Proof.
  induction n as [|n IH]; intros s Hlen; [lia|].
  destruct s as [|c0 s1]; [done|].
  simpl in Hlen. rewrite coerce_cons.
  destruct (code c0 <? 128)%N eqn:Hlt.
  { cbn [ValidString]. rewrite Hlt. apply IH. lia. }
  destruct s1 as [|c1 s2]; [done|]. simpl in Hlen.
  destruct (ok2 c0 c1) eqn:H2.
  { cbn [ValidString]. rewrite Hlt, H2. apply IH. lia. }
  destruct s2 as [|c2 s3].
  { rewrite ValidString_replacement. apply IH. simpl. lia. }
  simpl in Hlen.
  destruct (ok3 c0 c1 c2) eqn:H3.
  { cbn [ValidString]. rewrite Hlt, H2, H3. apply IH. lia. }
  destruct s3 as [|c3 s4].
  { rewrite ValidString_replacement. apply IH. simpl. lia. }
  simpl in Hlen.
  destruct (ok4 c0 c1 c2 c3) eqn:H4.
  { cbn [ValidString]. rewrite Hlt, H2, H3, H4. apply IH. lia. }
  rewrite ValidString_replacement. apply IH. simpl. lia.
Qed.

Lemma coerce_is_valid s : ValidString (coerce s) = true.
Proof. apply (coerce_is_valid_lt (S (String.length s))). lia. Qed.

Lemma coerceHeaders_is_valid (headers : option (gmap string string)) :
  validHeaders (coerceHeaders headers).
Proof.
  destruct headers as [m|]; [|done]. unfold validHeaders, coerceHeaders.
  rewrite toMap_list_to_map. intros k v Hkv.
  apply elem_of_list_to_map_2, elem_of_reverse, list_elem_of_fmap in Hkv
    as ([k0 v0] & [= -> ->] & _).
  split; apply coerce_is_valid.
Qed.

End json_extra.

(** X25. What the store returns for a message is a fixed point of storing:
    within the time to live, less one second, a message written is read
    back with headers that are valid UTF-8, and writing what was read, to
    any store, reads back exactly that. *)
Theorem read_back_content_is_stable
    (c : cache.Cache) (now now' : Z) (v : MessageContent) :
  now' - now ≤ cache.ttl c - second →
  ∃ v',
    cache.GetMessageContent (cache.SetMessageContent c now v) now' (List v) (ID v)
    = (Some v', true)
    ∧ Msg v' = Msg v ∧ Body v' = Body v
    ∧ json.validHeaders (Headers v')
    ∧ ∀ (c2 : cache.Cache) (t t' : Z),
        t' - t ≤ cache.ttl c2 - second →
        cache.GetMessageContent (cache.SetMessageContent c2 t v') t' (List v') (ID v')
        = (Some v', true).
Proof.
  intros Hw%within_window.
  set (v' := {| Msg := Msg v; Body := Body v;
                Headers := json.coerceHeaders (Headers v) |}).
  exists v'. split; [by apply set_get_exact|].
  repeat split; [apply coerceHeaders_is_valid|].
  intros c2 t t' Hw2%within_window. rewrite (set_get_exact c2 t t' v') by done.
  rewrite (coerceHeaders_valid (Headers v')) by apply coerceHeaders_is_valid.
  done.
Qed.

Lemma read_back_content_is_stable_witness :
  ∃ v',
    cache.GetMessageContent
      (cache.SetMessageContent (cache.New hour) (1000 * second) latin1Content)
      (1001 * second) (List latin1Content) (ID latin1Content)
    = (Some v', true)
    ∧ Msg v' = Msg latin1Content ∧ Body v' = Body latin1Content
    ∧ json.validHeaders (Headers v')
    ∧ ∀ (c2 : cache.Cache) (t t' : Z),
        t' - t ≤ cache.ttl c2 - second →
        cache.GetMessageContent (cache.SetMessageContent c2 t v') t' (List v') (ID v')
        = (Some v', true).
Proof.
  apply (read_back_content_is_stable (cache.New hour) (1000 * second) (1001 * second)
           latin1Content).
  vm_compute. discriminate.
Defined.

(** ** Further properties: the catalog *)

Section catalog_extra.

Lemma catalogOf_links (seen nodes : list Node) :
  Forall (λ l, Name l ≠ ""
               ∧ ∃ n, n ∈ nodes ∧ isElement n "a" = true
                      ∧ strings.HasPrefix (getAttr n "href") "?l=" = true
                      ∧ Name l = extractListName (getAttr n "href"))
         (catalogOf seen nodes).
Proof.
  revert seen. induction nodes as [|n nodes IH]; intros seen; [constructor|].
  cbn [catalogOf].
  assert (Forall (λ l, Name l ≠ ""
               ∧ ∃ n', n' ∈ n :: nodes ∧ isElement n' "a" = true
                      ∧ strings.HasPrefix (getAttr n' "href") "?l=" = true
                      ∧ Name l = extractListName (getAttr n' "href"))
            (catalogOf (seen ++ [n]) nodes)) as Hrest.
  { eapply Forall_impl; [apply IH|]. intros l (Hne & n' & Hin & Hrest).
    split; [done|]. exists n'. split; [by apply list_elem_of_further|done]. }
  destruct (listLink n) as [name|] eqn:Hlink; [|done].
  constructor; [|done]. cbn [Name]. unfold listLink in Hlink.
  destruct (isElement n "a") eqn:Ha; [|done].
  destruct (strings.HasPrefix (getAttr n "href") "?l=") eqn:Hp; [|done].
  destruct (String.eqb_spec (extractListName (getAttr n "href")) "") as [|Hne]; [done|].
  injection Hlink as <-. split; [done|].
  exists n. split; [apply list_elem_of_here|done].
Qed.

Lemma SetMailingLists_last (c : cache.Cache) (now : Z) (lists : list MailingList) :
  lists ≠ [] →
  ∃ r, r ∈ sqlite.mailing_lists (cache.db (cache.SetMailingLists c now lists))
       ∧ sqlite.ml_updated_at r = Unix now.
Proof.
  intros Hne. destruct (exists_last Hne) as (front & l & ->).
  unfold cache.SetMailingLists. cbn [cache.db cache.with_db]. rewrite foldl_snoc.
  eexists. split.
  - unfold sqlite.replace_mailing_list at 1. cbn [sqlite.mailing_lists].
    apply elem_of_app. right. apply list_elem_of_singleton. reflexivity.
  - reflexivity.
Qed.

End catalog_extra.

(** X26. Every record of the catalog comes from a link of the page: its
    name is not empty and is the list name of the target of an [<a>]
    element whose target begins with [?l=]. *)
Theorem catalog_records_come_from_links (doc : Node) :
  Forall (λ l, Name l ≠ ""
               ∧ ∃ n, n ∈ flatten doc ∧ isElement n "a" = true
                      ∧ strings.HasPrefix (getAttr n "href") "?l=" = true
                      ∧ Name l = extractListName (getAttr n "href"))
         (extractMailingLists doc).
Proof.
  unfold extractMailingLists. rewrite catalogWalk_flatten.
  rewrite (foldl_catalogStep _ []) by done. apply catalogOf_links.
Qed.

(** X27. A catalog fetched once is served from the cache afterwards: when
    [ListMailingLists] went to the archive and found at least one list, a
    second call within the time to live, less one second, succeeds and
    neither requests anything nor changes the cache, whatever the archive
    would answer. *)
Theorem ListMailingLists_repeated_from_cache
    (upstream upstream' : string → Result string)
    (html_Parse html_Parse' : string → Result Node)
    (now now' : Time) (w w' : World) (found : list MailingList) :
  ListMailingLists upstream html_Parse now w = (Ok found, w') →
  w_fetched w' ≠ w_fetched w →
  found ≠ [] →
  UnixNano now' - UnixNano now ≤ cache.ttl (w_cache w) - second →
  ∃ cached, ListMailingLists upstream' html_Parse' now' w' = (Ok cached, w').
Proof.
  unfold ListMailingLists at 1.
  destruct (cache.GetMailingLists (w_cache w) _) as [cached [|]];
    [by intros [= _ <-]|].
  unfold fetch, fetchRaw. destruct (upstream _) as [body|e]; [|done].
  destruct (html_Parse body) as [doc|e]; [|done].
  intros [= <- <-] _ Hne Hw%within_window.
  unfold ListMailingLists, with_cache. cbn [w_cache].
  destruct (cache.GetMailingLists _ (UnixNano now')) as [cached' ok] eqn:Hget.
  assert (ok = true) as ->; [|by eexists].
  change ok with (cached', ok).2. rewrite <-Hget. apply GetMailingLists_found.
  destruct (SetMailingLists_last (w_cache w) (UnixNano now) _ Hne) as (r & Hr & Hat).
  exists r. split; [done|]. rewrite Hat. exact Hw.
Qed.

Lemma ListMailingLists_repeated_from_cache_witness :
  ∃ cached,
    ListMailingLists (λ _, Err "offline") (λ _, Err "no parser")
      {| UnixNano := 1000 * second + hour - second; Year := 2026; Month := 2 |}
      (ListMailingLists sampleUpstream (λ _, Ok (listAnchor "git")) sampleTime
         (newWorld hour)).2
    = (Ok cached,
       (ListMailingLists sampleUpstream (λ _, Ok (listAnchor "git")) sampleTime
          (newWorld hour)).2).
Proof.
  apply (ListMailingLists_repeated_from_cache sampleUpstream (λ _, Err "offline")
           (λ _, Ok (listAnchor "git")) (λ _, Err "no parser") sampleTime
           {| UnixNano := 1000 * second + hour - second; Year := 2026; Month := 2 |}
           (newWorld hour) _ [ {| Name := "git"; Category := "" |} ]).
  - vm_compute. reflexivity.
  - cbn. discriminate.
  - discriminate.
  - vm_compute. discriminate.
Defined.

(** ** Further properties: expiry, and empty results *)

Section expiry_extra.
Import sqlite cache.

Lemma selectMessages_found c now listName pattern :
  (selectMessages c now listName pattern).2 = true
  ↔ ∃ r, r ∈ messages (db c) ∧ ms_list r = listName ∧ cutoff c now < ms_updated_at r
         ∧ dateMatches pattern (ms_date r) = true.
Proof.
  destruct (selectMessages_spec c now listName pattern) as (rows & Hperm & _ & ->).
  cbn [snd]. split.
  - destruct rows as [|r rows]; [done|]. intros _.
    assert (r ∈ r :: rows) as Hr by apply list_elem_of_here.
    rewrite Hperm in Hr. apply list_elem_of_filter in Hr as [? ?]. by exists r.
  - intros (r & Hr & Hp).
    assert (r ∈ rows) as Hin by (rewrite Hperm; by apply list_elem_of_filter).
    destruct rows; [by apply elem_of_nil in Hin|done].
Qed.

Lemma GetMessages_found_earlier c now now' listName month r' :
  now ≤ now' →
  GetMessages c now' listName month = Returns r' → r'.2 = true →
  ∃ r, GetMessages c now listName month = Returns r ∧ r.2 = true.
Proof.
  intros Hle%(cutoff_mono c) Hget Hfound.
  pose proof (GetMessages_select _ _ _ _ _ Hget) as ->.
  apply selectMessages_found in Hfound as (row & Hrow & Hl & Hfresh & Hdate).
  assert (∀ p, dateMatches p (ms_date row) = true →
               (selectMessages c now listName p).2 = true) as Hnow.
  { intros p Hp. apply selectMessages_found. exists row. repeat split; [done..|lia|done]. }
  exists (selectMessages c now listName
            (if negb (String.eqb month "")
             then Some (strings.take 4 month +:+ "-" +:+ strings.drop 4 month +:+ "%")
             else None)).
  split; [|by apply Hnow].
  revert Hget. unfold GetMessages, datePrefix.
  destruct (negb (String.eqb month "")); [|done].
  by destruct (String.length month <? 4)%nat.
Qed.

End expiry_extra.

(** X28. Freshness only decreases with time: in every state the store
    reaches, what a lookup finds at some instant it also finds at every
    earlier instant; an entry that has expired does not come back. *)
Theorem found_later_implies_found_earlier
    (c : cache.Cache) (now now' : Z) (listName month id : string) :
  reachable c →
  now ≤ now' →
  ((cache.GetMailingLists c now').2 = true → (cache.GetMailingLists c now).2 = true)
  ∧ (∀ r', cache.GetMessages c now' listName month = Returns r' → r'.2 = true →
           ∃ r, cache.GetMessages c now listName month = Returns r ∧ r.2 = true)
  ∧ ((cache.GetMessageContent c now' listName id).2 = true →
     (cache.GetMessageContent c now listName id).2 = true).
Proof.
  intros Hreach Hle. pose proof (cutoff_mono c now now' Hle) as Hcut.
  pose proof (reachable_headersDecodable c Hreach) as Hdec. repeat split.
  - rewrite !GetMailingLists_found. intros (r & Hr & Hfresh). exists r. split; [done|lia].
  - intros r'. by apply GetMessages_found_earlier.
  - rewrite !GetMessageContent_found by done.
    intros (r & Hr & Hid & Hl & Hfresh). exists r. repeat split; [done..|lia].
Qed.

Lemma found_later_implies_found_earlier_witness :
  ((cache.GetMailingLists sampleCache (1001 * second)).2 = true →
   (cache.GetMailingLists sampleCache (1000 * second)).2 = true)
  ∧ (∀ r', cache.GetMessages sampleCache (1001 * second) "git" "" = Returns r' →
           r'.2 = true →
           ∃ r, cache.GetMessages sampleCache (1000 * second) "git" "" = Returns r
                ∧ r.2 = true)
  ∧ ((cache.GetMessageContent sampleCache (1001 * second) "git" "42").2 = true →
     (cache.GetMessageContent sampleCache (1000 * second) "git" "42").2 = true).
Proof.
  apply (found_later_implies_found_earlier sampleCache (1000 * second) (1001 * second)).
  - unfold sampleCache. repeat constructor.
  - vm_compute. discriminate.
Defined.

(** X29. An empty result is never cached: when the catalog or a listing
    comes back without an entry, the cache is left as it was, so the next
    call asks the archive again. *)
Theorem empty_results_are_not_cached
    (upstream : string → Result string) (html_Parse : string → Result Node)
    (now : Time) (opts : ListMessagesOptions) (w : World) :
  cacheKeptWhenEmpty w (ListMailingLists upstream html_Parse now w)
  ∧ match ListMessagesWithOptions upstream now opts w with
    | Returns r => cacheKeptWhenEmpty w r
    | Panics => True
    end.
Proof.
  assert (∀ listName month page limit,
            cacheKeptWhenEmpty w
              (listMessagesUpstream upstream now listName month page limit w)) as Hup.
  { intros l month page limit. unfold listMessagesUpstream, fetchRaw, cacheKeptWhenEmpty.
    destruct (upstream _) as [raw|e]; [|done].
    destruct (strings.Contains raw "No such list"); [done|]. cbn [fst snd].
    match goal with |- match ?msgs with _ => _ end => destruct msgs eqn:Hmsgs end;
      done. }
  split.
  - unfold ListMailingLists, fetch, fetchRaw, cacheKeptWhenEmpty.
    destruct (cache.GetMailingLists _ _) as [cached [|]]; [by destruct cached|].
    destruct (upstream _) as [body|e]; [|done].
    destruct (html_Parse body) as [doc|e]; [|done]. cbn [fst snd].
    destruct (extractMailingLists doc); [|done].
    unfold with_cache, cache.SetMailingLists, cache.with_db. cbn.
    by destruct (w_cache w).
  - unfold ListMessagesWithOptions.
    destruct (_ && _); [|apply Hup].
    destruct (cache.GetMessages _ _ _ _) as [[cached [|]]|]; [|apply Hup|done].
    unfold cacheKeptWhenEmpty. cbn [fst snd]. by destruct cached.
Qed.

